(** * Session orchestrator of the chat service (ChatService)

    A shallow embedding of the chat-orchestration service: the sequence
    allocator, the intake of a message ([handleFollowUpLogic], the queue or
    the interruption of the active stream), the streaming reducer of
    [_processUserMessageInternal], the one-slot queue of follow-up actions,
    [stopStream], [editUserMessage], [cleanupTask], the commit and
    change-proposal steps and the creation of stacked tasks.

    The service is asynchronous TypeScript.  Its code is embedded in a small
    monad [M] that threads the state the service reads and writes (its three
    registries, the message table, the task status, the pending batched
    writes) and that carries JavaScript exceptions and the trace of the calls
    made to the collaborators (message store, realtime channel, batch
    service).

    A call runs from its start to its end without another call of the
    service in between, with two exceptions, where the interleaving is the
    subject: the callers of the sequence allocator, whose transactions are
    the steps of a schedule, and the interruption of a turn by an immediate
    message, at whose awaits the interrupted turn may be resumed; the rest of
    the interrupted turn is then taken as one step. *)

From Stdlib Require Import String ZArith List Bool Lia.
From stdpp Require Import base option list gmap sets strings fin_maps sorting.

Local Open Scope string_scope.
Local Open Scope Z_scope.
Local Open Scope list_scope.

(** ** JavaScript helpers *)

(** Truthiness of a string: the empty string is falsy. *)
Definition truthy (s : string) : bool :=
  match s with EmptyString => false | String _ _ => true end.

(** [a || d] on an optional string. *)
Definition js_or (a : option string) (d : string) : string :=
  match a with
  | Some s => if truthy s then s else d
  | None => d
  end.

(** [s.includes(sub)]. *)
Fixpoint includes (s sub : string) : bool :=
  String.prefix sub s ||
  match s with
  | EmptyString => false
  | String _ s' => includes s' sub
  end.

(** [xs.join("")]. *)
Definition join (xs : list string) : string := foldr String.append "" xs.

(** ** Data model *)

Inductive MessageRole := USER | ASSISTANT | SYSTEM.

Inductive TaskStatus :=
  INITIALIZING | RUNNING | COMPLETED | FAILED | STOPPED | ARCHIVED.

(** The columns of a task that [handleFollowUpLogic] reads: whether
    [initStatus] is "INACTIVE" and whether [scheduledCleanupAt] is set. *)
Record FollowUpTask := {
  initStatusInactive : bool;
  hasScheduledCleanup : bool;
}.

Record Usage := {
  promptTokens : Z;
  completionTokens : Z;
  totalTokens : Z;
}.

(** The parts of an assistant message.  Tool arguments and results are JSON
    values the service never inspects; they are kept as opaque text. *)
Inductive AssistantMessagePart :=
| TextPart (text : string)
| ReasoningPart (text : string) (signature : option string)
| RedactedReasoningPart (data : string)
| ToolCallPart (toolCallId toolName args : string)
| ToolResultPart (toolCallId toolName result : string)
| ErrorPart (error : string) (finishReason : option string).

Record MessageMetadata := {
  isStreaming : bool;
  parts : list AssistantMessagePart;
  usage : option Usage;
  md_finishReason : option string;
}.

(** A row of the [chatMessage] table (the columns the service writes). *)
Record ChatMessage := {
  taskId : string;
  content : string;
  role : MessageRole;
  sequence : Z;
  llmModel : string;
  metadata : option MessageMetadata;
  msg_promptTokens : option Z;
  msg_completionTokens : option Z;
  msg_totalTokens : option Z;
  msg_finishReason : option string;
  stackedTaskId : option string;
  editedAt : option nat;
}.

Record TaskModelContext := {
  mainModel : string;
  apiKeys : list (string * string);
}.

(** The discriminated union of queued actions. *)
Inductive QueuedAction :=
| QueuedMessageAction
    (message : string) (context : TaskModelContext) (workspacePath : option string)
| QueuedStackedPRAction
    (message parentTaskId model userId : string) (socket : nat).

(** The events of the completion engine.  An event carries the payload of its
    kind; a string payload may be empty, which is what the reducer's
    truthiness guards ([chunk.content], [chunk.reasoning], ...) test.  [other]
    stands for the kinds the reducer has no handler for. *)
Inductive StreamChunk :=
| content_chunk (c : string)
| reasoning_chunk (r : string)
| reasoning_signature_chunk (s : string)
| redacted_reasoning_chunk (d : string)
| tool_call_chunk (id name args : string)
| tool_result_chunk (id result : string)
| error_chunk (err : option string) (fr : option string)
| usage_chunk (u : Usage)
| other_chunk.

(** The payload of [databaseBatchService.scheduleAssistantUpdate]. *)
Record PendingUpdate := {
  pu_messageId : nat;
  pu_assistantParts : list AssistantMessagePart;
  pu_context : TaskModelContext;
  pu_usageMetadata : option Usage;
  pu_finishReason : option string;
  pu_lastUpdateTime : nat;
}.

(** ** State *)

Record World := {
  (* ChatService *)
  activeStreams : gmap string nat;
  stopRequested : gset string;
  queuedActions : gmap string QueuedAction;
  (* AbortController objects: the handles handed out, those aborted *)
  nextController : nat;
  aborted : gset nat;
  (* message store *)
  chatMessage : gmap nat ChatMessage;
  nextMessageId : nat;
  taskStatus : gmap string TaskStatus;
  (* databaseBatchService *)
  pendingUpdates : gmap string PendingUpdate;
  clock : nat;
}.

Definition set_activeStreams (f : gmap string nat → gmap string nat) (w : World) : World :=
  {| activeStreams := f (activeStreams w); stopRequested := stopRequested w;
     queuedActions := queuedActions w; nextController := nextController w;
     aborted := aborted w; chatMessage := chatMessage w;
     nextMessageId := nextMessageId w; taskStatus := taskStatus w;
     pendingUpdates := pendingUpdates w; clock := clock w |}.

Definition set_stopRequested (f : gset string → gset string) (w : World) : World :=
  {| activeStreams := activeStreams w; stopRequested := f (stopRequested w);
     queuedActions := queuedActions w; nextController := nextController w;
     aborted := aborted w; chatMessage := chatMessage w;
     nextMessageId := nextMessageId w; taskStatus := taskStatus w;
     pendingUpdates := pendingUpdates w; clock := clock w |}.

Definition set_queuedActions
    (f : gmap string QueuedAction → gmap string QueuedAction) (w : World) : World :=
  {| activeStreams := activeStreams w; stopRequested := stopRequested w;
     queuedActions := f (queuedActions w); nextController := nextController w;
     aborted := aborted w; chatMessage := chatMessage w;
     nextMessageId := nextMessageId w; taskStatus := taskStatus w;
     pendingUpdates := pendingUpdates w; clock := clock w |}.

Definition set_nextController (f : nat → nat) (w : World) : World :=
  {| activeStreams := activeStreams w; stopRequested := stopRequested w;
     queuedActions := queuedActions w; nextController := f (nextController w);
     aborted := aborted w; chatMessage := chatMessage w;
     nextMessageId := nextMessageId w; taskStatus := taskStatus w;
     pendingUpdates := pendingUpdates w; clock := clock w |}.

Definition set_aborted (f : gset nat → gset nat) (w : World) : World :=
  {| activeStreams := activeStreams w; stopRequested := stopRequested w;
     queuedActions := queuedActions w; nextController := nextController w;
     aborted := f (aborted w); chatMessage := chatMessage w;
     nextMessageId := nextMessageId w; taskStatus := taskStatus w;
     pendingUpdates := pendingUpdates w; clock := clock w |}.

Definition set_chatMessage
    (f : gmap nat ChatMessage → gmap nat ChatMessage) (w : World) : World :=
  {| activeStreams := activeStreams w; stopRequested := stopRequested w;
     queuedActions := queuedActions w; nextController := nextController w;
     aborted := aborted w; chatMessage := f (chatMessage w);
     nextMessageId := nextMessageId w; taskStatus := taskStatus w;
     pendingUpdates := pendingUpdates w; clock := clock w |}.

Definition set_nextMessageId (f : nat → nat) (w : World) : World :=
  {| activeStreams := activeStreams w; stopRequested := stopRequested w;
     queuedActions := queuedActions w; nextController := nextController w;
     aborted := aborted w; chatMessage := chatMessage w;
     nextMessageId := f (nextMessageId w); taskStatus := taskStatus w;
     pendingUpdates := pendingUpdates w; clock := clock w |}.

Definition set_taskStatus
    (f : gmap string TaskStatus → gmap string TaskStatus) (w : World) : World :=
  {| activeStreams := activeStreams w; stopRequested := stopRequested w;
     queuedActions := queuedActions w; nextController := nextController w;
     aborted := aborted w; chatMessage := chatMessage w;
     nextMessageId := nextMessageId w; taskStatus := f (taskStatus w);
     pendingUpdates := pendingUpdates w; clock := clock w |}.

Definition set_pendingUpdates
    (f : gmap string PendingUpdate → gmap string PendingUpdate) (w : World) : World :=
  {| activeStreams := activeStreams w; stopRequested := stopRequested w;
     queuedActions := queuedActions w; nextController := nextController w;
     aborted := aborted w; chatMessage := chatMessage w;
     nextMessageId := nextMessageId w; taskStatus := taskStatus w;
     pendingUpdates := f (pendingUpdates w); clock := clock w |}.

(** A service that has just been constructed, over an empty store. *)
Definition emptyWorld : World :=
  {| activeStreams := ∅; stopRequested := ∅; queuedActions := ∅;
     nextController := 0%nat; aborted := ∅; chatMessage := ∅;
     nextMessageId := 0%nat; taskStatus := ∅; pendingUpdates := ∅;
     clock := 0%nat |}.

(** ** Calls to the collaborators *)

Inductive Effect :=
(* realtime channel *)
| EStartStream (t : string)
| EEmitStreamChunk (t : string) (c : StreamChunk)
| EEndStream (t : string)
| EHandleStreamError (t : string) (e : string)
| EQueuedActionProcessing (t : string) (message model : string)
(* message store *)
| EMessageCreate (id : nat) (row : ChatMessage)
| EMessageUpdate (id : nat) (row : ChatMessage)
| EMessageDeleteMany (t : string) (gt : Z)
| EUpdateTaskStatus (t : string) (s : TaskStatus)
| EUpdateTaskActivity (t : string)
| EScheduleTaskCleanup (t : string)
| ECancelTaskCleanup (t : string)
| ETaskUpdateInitStatus (t : string)
(* batch service *)
| EScheduleAssistantUpdate (t : string) (u : PendingUpdate)
| EBatchClear (t : string)
| EBatchFlush (t : string)
| EBatchWrite (t : string) (u : PendingUpdate)
(* cancellation, tool runtime *)
| EAbort (controller : nat)
| EStopMCPManager (t : string)
| ERestoreCheckpoint (t : string) (messageId : nat)
| ECreatePRIfUserEnabled (t : string) (messageId : nat)
| ECreateCheckpoint (t : string) (messageId : nat)
(* hand-over of a dequeued action *)
| EProcessQueuedMessage (t : string) (a : QueuedAction)
| EProcessQueuedStackedPR (t : string) (a : QueuedAction).

(** ** The monad: state, exceptions, trace *)

Inductive Result (A : Type) :=
| Ok (a : A)
| Throw (e : string).
Arguments Ok {A} a.
Arguments Throw {A} e.

Definition M (A : Type) : Type := World → Result A * World * list Effect.

Definition ret {A} (a : A) : M A := λ w, (Ok a, w, []).

Definition bind {A B} (m : M A) (k : A → M B) : M B := λ w,
  match m w with
  | (Ok a, w1, e1) =>
      match k a w1 with
      | (r, w2, e2) => (r, w2, e1 ++ e2)
      end
  | (Throw e, w1, e1) => (Throw e, w1, e1)
  end.

Definition throw {A} (e : string) : M A := λ w, (Throw e, w, []).

(** [try { m } catch (e) { h e }]. *)
Definition try_catch {A} (m : M A) (h : string → M A) : M A := λ w,
  match m w with
  | (Ok a, w1, e1) => (Ok a, w1, e1)
  | (Throw e, w1, e1) =>
      match h e w1 with
      | (r, w2, e2) => (r, w2, e1 ++ e2)
      end
  end.

Definition gets {A} (f : World → A) : M A := λ w, (Ok (f w), w, []).
Definition modify (f : World → World) : M unit := λ w, (Ok tt, f w, []).
Definition emit (e : Effect) : M unit := λ w, (Ok tt, w, [e]).

Notation "x <- m ;; k" := (bind m (λ x, k))
  (at level 100, m at next level, right associativity).
Notation "m ;;; k" := (bind m (λ _, k))
  (at level 100, right associativity).

Definition result {A} (r : Result A * World * list Effect) : Result A := r.1.1.
Definition world {A} (r : Result A * World * list Effect) : World := r.1.2.
Definition events {A} (r : Result A * World * list Effect) : list Effect := r.2.

(** ** Message store *)

(** [findFirst({ where: { taskId }, orderBy: { sequence: "desc" } })]: the
    largest sequence among the rows of the task, if it has any. *)
Definition taskSequences (t : string) (rows : gmap nat ChatMessage) : list Z :=
  sequence <$> filter (λ r, taskId r = t) (map_to_list rows).*2.

Definition lastSequence (t : string) (rows : gmap nat ChatMessage) : option Z :=
  foldr (λ s acc, Some (match acc with Some m => Z.max s m | None => s end))
        None (taskSequences t rows).

(** [(lastMessage?.sequence || 0) + 1].  The sequence is a JavaScript
    number and the addition that of the doubles: it is the addition of the
    integers as long as the last sequence lies between -2^53 and 2^53 - 1,
    and above that range it rounds (at 2^53 the code hands out 2^53 again).
    The definition agrees with the code on that range; the statements on
    the numbering below assume that the stored sequences lie in it
    ([safeSequences]). *)
Definition nextSequenceOf (t : string) (rows : gmap nat ChatMessage) : Z :=
  match lastSequence t rows with
  | Some s => (if s =? 0 then 0 else s) + 1
  | None => 0 + 1
  end.

(** The sequences of the task leave room for [n] allocations in a row: on
    each of them, and on the [n - 1] numbers that follow it, the addition of
    1 is exact, and so it is on the numbers from 0 on when the task has no
    row. *)
Definition safeSequences (t : string) (n : nat) (rows : gmap nat ChatMessage) : Prop :=
  Z.of_nat n ≤ 2 ^ 53 ∧
  Forall (λ s, - 2 ^ 53 ≤ s ∧ s + Z.of_nat n ≤ 2 ^ 53) (taskSequences t rows).

(** [prisma.chatMessage.create]: the store picks the identifier. *)
Definition chatMessage_create (row : ChatMessage) : M nat :=
  id <- gets nextMessageId ;;
  modify (set_chatMessage (insert id row)) ;;;
  modify (set_nextMessageId S) ;;;
  emit (EMessageCreate id row) ;;;
  ret id.

(** [prisma.chatMessage.update({ where: { id } , data })]: rejects when no
    row has the identifier. *)
Definition chatMessage_update (id : nat) (f : ChatMessage → ChatMessage) : M unit :=
  rows <- gets chatMessage ;;
  match rows !! id with
  | Some row =>
      modify (set_chatMessage (insert id (f row))) ;;;
      emit (EMessageUpdate id (f row))
  | None => throw "Record to update not found"
  end.

(** [prisma.chatMessage.deleteMany({ where: { taskId, sequence: { gt } } })]. *)
Definition chatMessage_deleteMany (t : string) (gt : Z) : M unit :=
  modify (set_chatMessage
            (filter (λ kr, ¬ (taskId kr.2 = t ∧ gt < sequence kr.2)))) ;;;
  emit (EMessageDeleteMany t gt).

(** Modelled from the spec: [updateTaskStatus], [updateTaskActivity] and
    [scheduleTaskCleanup] of the task-status utilities, which are not part of
    the fragment.  The first records the status of the task; the other two
    touch nothing that is modelled here. *)
Definition updateTaskStatus (t : string) (s : TaskStatus) : M unit :=
  modify (set_taskStatus (insert t s)) ;;;
  emit (EUpdateTaskStatus t s).

Definition updateTaskActivity (t : string) : M unit := emit (EUpdateTaskActivity t).
Definition scheduleTaskCleanup (t : string) : M unit := emit (EScheduleTaskCleanup t).

(** ** Sequence allocator *)

(** [getNextSequence]: the transaction only reads. *)
Definition getNextSequence (t : string) : M Z :=
  gets (λ w, nextSequenceOf t (chatMessage w)).

Record MessageData := {
  d_content : string;
  d_role : MessageRole;
  d_llmModel : string;
  d_metadata : option MessageMetadata;
  d_finishReason : option string;
  d_promptTokens : option Z;
  d_completionTokens : option Z;
  d_totalTokens : option Z;
}.

(** [createMessageWithAtomicSequence]: one transaction reads the maximum and
    inserts the row. *)
Definition createMessageWithAtomicSequence (t : string) (d : MessageData) : M (nat * ChatMessage) :=
  seq <- gets (λ w, nextSequenceOf t (chatMessage w)) ;;
  let row :=
    {| taskId := t; content := d_content d; role := d_role d; sequence := seq;
       llmModel := d_llmModel d; metadata := d_metadata d;
       msg_promptTokens := d_promptTokens d;
       msg_completionTokens := d_completionTokens d;
       msg_totalTokens := d_totalTokens d;
       msg_finishReason := d_finishReason d;
       stackedTaskId := None; editedAt := None |} in
  id <- chatMessage_create row ;;
  ret (id, row).

Definition saveUserMessage (t content llmModel : string) (md : option MessageMetadata)
    : M (nat * ChatMessage) :=
  m <- createMessageWithAtomicSequence t
         {| d_content := content; d_role := USER; d_llmModel := llmModel;
            d_metadata := md; d_finishReason := None; d_promptTokens := None;
            d_completionTokens := None; d_totalTokens := None |} ;;
  updateTaskActivity t ;;;
  ret m.

Definition saveAssistantMessage (t content llmModel : string) (seq : option Z)
    (md : option MessageMetadata) : M (nat * ChatMessage) :=
  let u := md ≫= usage in
  match seq with
  | None =>
      createMessageWithAtomicSequence t
        {| d_content := content; d_role := ASSISTANT; d_llmModel := llmModel;
           d_metadata := md; d_finishReason := md ≫= md_finishReason;
           d_promptTokens := promptTokens <$> u;
           d_completionTokens := completionTokens <$> u;
           d_totalTokens := totalTokens <$> u |}
  | Some s =>
      let row :=
        {| taskId := t; content := content; role := ASSISTANT; sequence := s;
           llmModel := llmModel; metadata := md;
           msg_promptTokens := promptTokens <$> u;
           msg_completionTokens := completionTokens <$> u;
           msg_totalTokens := totalTokens <$> u;
           msg_finishReason := md ≫= md_finishReason;
           stackedTaskId := None; editedAt := None |} in
      id <- chatMessage_create row ;;
      ret (id, row)
  end.

Definition saveSystemMessage (t content llmModel : string) (seq : option Z)
    (md : option MessageMetadata) : M (nat * ChatMessage) :=
  match seq with
  | None =>
      createMessageWithAtomicSequence t
        {| d_content := content; d_role := SYSTEM; d_llmModel := llmModel;
           d_metadata := md; d_finishReason := None; d_promptTokens := None;
           d_completionTokens := None; d_totalTokens := None |}
  | Some s =>
      let row :=
        {| taskId := t; content := content; role := SYSTEM; sequence := s;
           llmModel := llmModel; metadata := md;
           msg_promptTokens := None; msg_completionTokens := None;
           msg_totalTokens := None; msg_finishReason := None;
           stackedTaskId := None; editedAt := None |} in
      id <- chatMessage_create row ;;
      ret (id, row)
  end.

(** ** Concurrent callers of the allocator

    A caller of the standalone allocator first runs the read-only transaction
    of [getNextSequence] and later inserts a row that carries the number it
    was given (as the reducer does for the assistant row and
    [_createStackedTaskInternal] does for the parent task).  A caller of the
    fused operation runs one transaction.  Transactions are the atomic steps;
    a concurrent execution is an interleaving of the callers' steps.

    That a transaction is one step is an assumption on the database:
    [prisma.$transaction] is called without an isolation level, and what the
    database guarantees for the read followed by the insert of the fused
    operation is not in the source.  The step [FusedCreate] below is the
    fused operation run alone, from its read to its insert; the model says
    nothing on two fused transactions that overlap in time. *)

Inductive AllocStep :=
| StandaloneRead (caller : nat)
| StandaloneInsert (caller : nat)
| FusedCreate (caller : nat).

Record AllocState := {
  al_world : World;
  al_held : gmap nat Z;
  al_allocated : list (nat * Z);
}.

Definition allocRow (t : string) (s : Z) : ChatMessage :=
  {| taskId := t; content := ""; role := ASSISTANT; sequence := s;
     llmModel := ""; metadata := None; msg_promptTokens := None;
     msg_completionTokens := None; msg_totalTokens := None;
     msg_finishReason := None; stackedTaskId := None; editedAt := None |}.

Definition allocData : MessageData :=
  {| d_content := ""; d_role := ASSISTANT; d_llmModel := ""; d_metadata := None;
     d_finishReason := None; d_promptTokens := None;
     d_completionTokens := None; d_totalTokens := None |}.

Definition allocStep (t : string) (st : AllocState) (c : AllocStep) : AllocState :=
  match c with
  | StandaloneRead p =>
      match getNextSequence t (al_world st) with
      | (Ok s, w, _) =>
          {| al_world := w; al_held := <[p := s]> (al_held st);
             al_allocated := al_allocated st ++ [(p, s)] |}
      | (Throw _, w, _) =>
          {| al_world := w; al_held := al_held st;
             al_allocated := al_allocated st |}
      end
  | StandaloneInsert p =>
      match al_held st !! p with
      | Some s =>
          {| al_world := world (chatMessage_create (allocRow t s) (al_world st));
             al_held := al_held st; al_allocated := al_allocated st |}
      | None => st
      end
  | FusedCreate p =>
      match createMessageWithAtomicSequence t allocData (al_world st) with
      | (Ok (_, row), w, _) =>
          {| al_world := w; al_held := al_held st;
             al_allocated := al_allocated st ++ [(p, sequence row)] |}
      | (Throw _, w, _) =>
          {| al_world := w; al_held := al_held st;
             al_allocated := al_allocated st |}
      end
  end.

Definition runAllocations (t : string) (w : World) (steps : list AllocStep) : AllocState :=
  fold_left (allocStep t) steps
    {| al_world := w; al_held := ∅; al_allocated := [] |}.

Definition isFused (c : AllocStep) : bool :=
  match c with FusedCreate _ => true | _ => false end.

(** The sequence numbers handed out, in the order the transactions commit. *)
Definition allocatedSequences (st : AllocState) : list Z := (al_allocated st).*2.

(** ** The local state of one turn *)

(** A value of [activeReasoningParts]. *)
Record ReasoningBlock := {
  rb_text : string;
  rb_signature : option string;
}.

Definition reasoningPart (b : ReasoningBlock) : AssistantMessagePart :=
  ReasoningPart (rb_text b) (rb_signature b).

(** A JavaScript [Map<number, V>]: its entries in insertion order. *)
Fixpoint Map_get {V} (k : nat) (m : list (nat * V)) : option V :=
  match m with
  | [] => None
  | (k', v) :: m' => if Nat.eqb k' k then Some v else Map_get k m'
  end.

Fixpoint Map_set {V} (k : nat) (v : V) (m : list (nat * V)) : list (nat * V) :=
  match m with
  | [] => [(k, v)]
  | (k', v') :: m' =>
      if Nat.eqb k' k then (k, v) :: m' else (k', v') :: Map_set k v m'
  end.

Fixpoint Map_delete {V} (k : nat) (m : list (nat * V)) : list (nat * V) :=
  match m with
  | [] => []
  | (k', v) :: m' =>
      if Nat.eqb k' k then Map_delete k m' else (k', v) :: Map_delete k m'
  end.

Definition Map_values {V} (m : list (nat * V)) : list V := m.*2.

Record Turn := {
  assistantSequence : option Z;
  assistantMessageId : option nat;
  assistantParts : list AssistantMessagePart;
  usageMetadata : option Usage;
  finishReason : option string;
  hasError : bool;
  activeReasoningParts : list (nat * ReasoningBlock);
  reasoningCounter : nat;
}.

Definition initialTurn : Turn :=
  {| assistantSequence := None; assistantMessageId := None;
     assistantParts := []; usageMetadata := None; finishReason := None;
     hasError := false; activeReasoningParts := []; reasoningCounter := 0%nat |}.

(** [assistantParts.push(p)]. *)
Definition push (p : AssistantMessagePart) (turn : Turn) : Turn :=
  {| assistantSequence := assistantSequence turn;
     assistantMessageId := assistantMessageId turn;
     assistantParts := assistantParts turn ++ [p];
     usageMetadata := usageMetadata turn; finishReason := finishReason turn;
     hasError := hasError turn;
     activeReasoningParts := activeReasoningParts turn;
     reasoningCounter := reasoningCounter turn |}.

Definition set_created (seq : Z) (id : nat) (turn : Turn) : Turn :=
  {| assistantSequence := Some seq; assistantMessageId := Some id;
     assistantParts := assistantParts turn;
     usageMetadata := usageMetadata turn; finishReason := finishReason turn;
     hasError := hasError turn;
     activeReasoningParts := activeReasoningParts turn;
     reasoningCounter := reasoningCounter turn |}.

Definition set_reasoning (m : list (nat * ReasoningBlock)) (n : nat) (turn : Turn) : Turn :=
  {| assistantSequence := assistantSequence turn;
     assistantMessageId := assistantMessageId turn;
     assistantParts := assistantParts turn;
     usageMetadata := usageMetadata turn; finishReason := finishReason turn;
     hasError := hasError turn;
     activeReasoningParts := m; reasoningCounter := n |}.

Definition set_usageMetadata (u : Usage) (turn : Turn) : Turn :=
  {| assistantSequence := assistantSequence turn;
     assistantMessageId := assistantMessageId turn;
     assistantParts := assistantParts turn;
     usageMetadata := Some u; finishReason := finishReason turn;
     hasError := hasError turn;
     activeReasoningParts := activeReasoningParts turn;
     reasoningCounter := reasoningCounter turn |}.

Definition set_failed (fr : string) (turn : Turn) : Turn :=
  {| assistantSequence := assistantSequence turn;
     assistantMessageId := assistantMessageId turn;
     assistantParts := assistantParts turn;
     usageMetadata := usageMetadata turn; finishReason := Some fr;
     hasError := true;
     activeReasoningParts := activeReasoningParts turn;
     reasoningCounter := reasoningCounter turn |}.

(** [parts.filter(p => p.type === "text").map(p => p.text).join("")]. *)
Definition textOf (p : AssistantMessagePart) : option string :=
  match p with TextPart s => Some s | _ => None end.

Definition fullContent (ps : list AssistantMessagePart) : string :=
  join (omap textOf ps).

(** [parts.find(p => p.type === "tool-call" && p.toolCallId === id)]. *)
Definition isToolCallFor (id : string) (p : AssistantMessagePart) : bool :=
  match p with
  | ToolCallPart i _ _ => bool_decide (i = id)
  | _ => false
  end.

Definition correspondingCall (id : string) (ps : list AssistantMessagePart)
    : option AssistantMessagePart :=
  find (isToolCallFor id) ps.

Definition toolNameOf (call : option AssistantMessagePart) : string :=
  match call with
  | Some (ToolCallPart _ name _) => name
  | _ => ""
  end.

(** The rewriting of rate-limit and retry-exhaustion errors. *)
Definition userFriendlyError (err : option string) : string :=
  let e := js_or err "Unknown error occurred" in
  if includes e "Too Many Requests" || includes e "rate limit" then
    "The model is currently experiencing high demand. Please try again in a few moments or switch to a different model."
  else if includes e "Failed after 3 attempts" then
    "The model is temporarily unavailable. Please try again or switch to a different model."
  else e.

(** ** Computations that record the calls they make *)

(** The functions below the turn (commit, change proposal) only talk to
    collaborators.  They are modelled as computations that may reject and that
    record, in order, the calls of interest they make. *)
Definition Calls (C A : Type) : Type := (Result A * list C)%type.

Definition c_ret {C A} (a : A) : Calls C A := (Ok a, []).

Definition c_bind {C A B} (m : Calls C A) (k : A → Calls C B) : Calls C B :=
  match m with
  | (Ok a, l) => ((k a).1, l ++ (k a).2)
  | (Throw e, l) => (Throw e, l)
  end.

(** [await] of a collaborator's answer; [c_call c r] records the call. *)
Definition c_await {C A} (r : Result A) : Calls C A := (r, []).
Definition c_call {C A} (c : C) (r : Result A) : Calls C A := (r, [c]).

Definition c_catch {C A} (m : Calls C A) (h : string → Calls C A) : Calls C A :=
  match m with
  | (Ok a, l) => (Ok a, l)
  | (Throw e, l) => ((h e).1, l ++ (h e).2)
  end.

Notation "x <~ m ;; k" := (c_bind m (λ x, k))
  (at level 100, m at next level, right associativity).

(** Truthiness of an optional string: neither [null] nor empty. *)
Definition present (s : option string) : bool :=
  match s with Some s => truthy s | None => false end.

(** ** Version control after a completed turn *)

Module Git.

(** The answers of the workspace's tool executor; [diff] may be absent or
    empty. *)
Record GitStatusResponse := { status_success : bool; hasChanges : bool }.
Record GitDiffResponse := { diff_success : bool; diff : option string }.

(** What the tool executor answers: each call may reject.
    [generateCommitMessage] is given the diff, [commitChanges] the commit
    message and [pushBranch] the branch name; the two last answer with their
    [success] flag. *)
Record ToolExecutor := {
  getGitStatus : Result GitStatusResponse;
  getGitDiff : Result GitDiffResponse;
  generateCommitMessage : string → Result string;
  commitChanges : string → Result bool;
  pushBranch : string → Result bool;
}.

(** The local [GitManager]. *)
Record GitManager := {
  gm_hasChanges : Result bool;
  gm_commitChangesIfAny : Result bool;
}.

(** The columns of the task row the commit step reads. *)
Record Task := {
  shadowBranch : option string;
  task_workspacePath : option string;
}.

Inductive AgentMode := local | remote.

(** The calls that change the repository. *)
Inductive GitCall :=
| CommitChanges (message : string)
| PushBranch (branchName : string)
| LocalCommit (workspacePath : string).

(** [commitChangesRemoteMode]; [executor] is the outcome of
    [createToolExecutor]. *)
Definition commitChangesRemoteMode (executor : Result ToolExecutor) (task : Task)
    : Calls GitCall bool :=
  c_catch
    (toolExecutor <~ c_await executor ;;
     statusResponse <~ c_await (getGitStatus toolExecutor) ;;
     if negb (status_success statusResponse) then c_ret false
     else if negb (hasChanges statusResponse) then c_ret false
     else
       diffResponse <~ c_await (getGitDiff toolExecutor) ;;
       commitMessage <~
         (if diff_success diffResponse && present (diff diffResponse) then
            c_await (generateCommitMessage toolExecutor
                       (default "" (diff diffResponse)))
          else c_ret "Update code via Shadow agent") ;;
       commitResponse <~
         c_call (CommitChanges commitMessage)
                (commitChanges toolExecutor commitMessage) ;;
       if negb (commitResponse : bool) then c_ret false
       else if negb (present (shadowBranch task)) then c_ret false
       else
         _ <~ c_call (PushBranch (default "" (shadowBranch task)))
                     (pushBranch toolExecutor (default "" (shadowBranch task))) ;;
         c_ret true)
    (λ _, c_ret false).

(** [commitChangesIfAny]; [task] is the outcome of [prisma.task.findUnique],
    [gitManager] the manager made for a workspace path.  The handler logs
    and throws again. *)
Definition commitChangesIfAny (agentMode : AgentMode)
    (task : Result (option Task)) (gitManager : string → GitManager)
    (executor : Result ToolExecutor) (workspacePath : option string)
    : Calls GitCall bool :=
  c_catch
    (task <~ c_await task ;;
     match task with
     | None => c_ret false
     | Some task =>
         if negb (present (shadowBranch task)) then c_ret false
         else
           let resolvedWorkspacePath :=
             if present workspacePath then workspacePath
             else task_workspacePath task in
           if negb (present resolvedWorkspacePath) then c_ret false
           else
             match agentMode with
             | local =>
                 let gm := gitManager (default "" resolvedWorkspacePath) in
                 hasChanges <~ c_await (gm_hasChanges gm) ;;
                 if negb (hasChanges : bool) then c_ret false
                 else
                   c_call (LocalCommit (default "" resolvedWorkspacePath))
                          (gm_commitChangesIfAny gm)
             | remote => commitChangesRemoteMode executor task
             end
     end)
    (λ error, (Throw error, [])).

(** The answers of the collaborators under which the remote commit goes
    through, with commit message [msg] and branch [br]: the executor was
    created, the status call succeeded and reported changes, the diff call
    returned, the commit message was obtained (generated from the diff when
    there is one, the default text otherwise), the commit succeeded, the task
    has a shadow branch and the push call returned, with whichever answer. *)
Definition remoteCommitGoesThrough (executor : Result ToolExecutor) (task : Task)
    (msg br : string) : Prop :=
  ∃ ex st df pushed,
    executor = Ok ex ∧
    getGitStatus ex = Ok st ∧ status_success st = true ∧ hasChanges st = true ∧
    getGitDiff ex = Ok df ∧
    (if diff_success df && present (diff df)
     then generateCommitMessage ex (default "" (diff df)) = Ok msg
     else msg = "Update code via Shadow agent") ∧
    commitChanges ex msg = Ok true ∧
    shadowBranch task = Some br ∧ truthy br = true ∧
    pushBranch ex br = Ok pushed.

Definition isCommit (c : GitCall) : bool :=
  match c with CommitChanges _ | LocalCommit _ => true | PushBranch _ => false end.

Definition isPush (c : GitCall) : bool :=
  match c with PushBranch _ => true | _ => false end.

End Git.

(** ** Change proposals after a commit *)

Module PullRequest.

(** The columns of the task row that the proposal step reads. *)
Record Task := {
  shadowBranch : option string;
  task_workspacePath : option string;
  status : TaskStatus;
}.

(** The options handed to [prManager.createPRIfNeeded]. *)
Record PROptions := {
  pr_taskId : string;
  pr_shadowBranch : string;
  pr_workspacePath : string;
  pr_wasTaskCompleted : bool;
  pr_messageId : string;
  pr_context : TaskModelContext;
}.

(** What the collaborators answer.  [findTaskSettings] is the lookup of
    [createPRIfUserEnabled]: the [autoPullRequest] setting of the task's user,
    if the task exists and the user has settings; [findTask] is the lookup
    of [_createPRIfNeededInternal]; [getContextForTask] is the answer of the
    model-context service; [prManager] the outcome of the proposal
    manager. *)
Record Env := {
  findTaskSettings : Result (option (option bool));
  findTask : Result (option Task);
  getContextForTask : Result (option TaskModelContext);
  prManager : PROptions → Result unit;
}.

Definition isCompleted (s : TaskStatus) : bool :=
  match s with COMPLETED => true | _ => false end.

(** [_createPRIfNeededInternal]: a rejection is logged and swallowed. *)
Definition _createPRIfNeededInternal (env : Env) (taskId : string)
    (workspacePath messageId : option string) (context : option TaskModelContext)
    : Calls PROptions unit :=
  c_catch
    (task <~ c_await (findTask env) ;;
     match task with
     | None => c_ret tt
     | Some task =>
         if negb (present (shadowBranch task)) then c_ret tt
         else
           let resolvedWorkspacePath :=
             if present workspacePath then workspacePath
             else task_workspacePath task in
           if negb (present resolvedWorkspacePath) then c_ret tt
           else if negb (present messageId) then c_ret tt
           else
             match context with
             | None => c_ret tt
             | Some context =>
                 let options :=
                   {| pr_taskId := taskId;
                      pr_shadowBranch := default "" (shadowBranch task);
                      pr_workspacePath := default "" resolvedWorkspacePath;
                      pr_wasTaskCompleted := isCompleted (status task);
                      pr_messageId := default "" messageId;
                      pr_context := context |} in
                 c_call options (prManager env options)
             end
     end)
    (λ _, c_ret tt).

(** [createPRIfNeeded]: the context is the one given or the one of the
    task. *)
Definition createPRIfNeeded (env : Env) (taskId : string)
    (workspacePath messageId : option string) (context : option TaskModelContext)
    : Calls PROptions unit :=
  match context with
  | Some context =>
      _createPRIfNeededInternal env taskId workspacePath messageId (Some context)
  | None =>
      taskContext <~ c_await (getContextForTask env) ;;
      match taskContext with
      | None => c_ret tt
      | Some taskContext =>
          _createPRIfNeededInternal env taskId workspacePath messageId
            (Some taskContext)
      end
  end.

(** [createPRIfUserEnabled]: [autoPullRequest ?? true]. *)
Definition createPRIfUserEnabled (env : Env) (taskId : string)
    (workspacePath messageId : option string) (context : option TaskModelContext)
    : Calls PROptions unit :=
  c_catch
    (task <~ c_await (findTaskSettings env) ;;
     match task with
     | None => c_ret tt
     | Some autoPullRequest =>
         let autoPREnabled := default true autoPullRequest in
         if negb autoPREnabled then c_ret tt
         else createPRIfNeeded env taskId workspacePath messageId context
     end)
    (λ _, c_ret tt).

End PullRequest.

(** ** Sidebar of the interface *)

Module Sidebar.

Inductive SidebarView := tasks | agent | codebase.

(** What the sidebar shows: the text of the header, when there is one, and
    the view. *)
Inductive Body :=
| SidebarCodebaseView (taskId : string)
| SidebarAgentView (taskId : string)
| SidebarTasksView.

Record Rendered := { header : option string; body : Body }.

(** The view of the sidebar context and the [isInitialRender] reference. *)
Record State := {
  sidebarView : SidebarView;
  isInitialRender : bool;
}.

(** The effect that runs after the first render and after each change of
    [currentTaskId]. *)
Definition onTaskChange (currentTaskId : option string) (s : State) : State :=
  if isInitialRender s then
    {| sidebarView := sidebarView s; isInitialRender := false |}
  else if present currentTaskId then
    {| sidebarView := agent; isInitialRender := false |}
  else
    {| sidebarView := tasks; isInitialRender := false |}.

(** What [SidebarViewsContent] renders inside the sidebar. *)
Definition render (currentTaskId : option string) (view : SidebarView) : Rendered :=
  if present currentTaskId &&
     match view with codebase => true | _ => false end
  then
    {| header := None;
       body := SidebarCodebaseView (default "" currentTaskId) |}
  else
    {| header :=
         Some (match view with tasks => "Tasks" | _ => "Agent Environment" end);
       body :=
         if present currentTaskId &&
            match view with agent => true | _ => false end
         then SidebarAgentView (default "" currentTaskId)
         else SidebarTasksView |}.

End Sidebar.

(** ** Stacked tasks *)

(** [await] of a collaborator's answer inside the service. *)
Definition await {A} (r : Result A) : M A :=
  match r with Ok a => ret a | Throw e => throw e end.

Module Stacked.

(** What the collaborators answer: the parent task ([userId] is the column
    that is checked), the identifier [generateTaskId] gives, the outcome of
    the steps before the task is created (the copy of the parent's context
    and the generation of title and branch), and, for the initialisation,
    the outcome of the construction of the initialisation engine, whether
    the update of the status returns, the context of the parent and the
    outcome of [createContextWithInheritedKeys]. *)
Record Env := {
  findParent : Result (option string);
  newTaskId : string;
  prepare : Result unit;
  newEngine : Result unit;
  statusUpdate : Result unit;
  parentContext : Result (option TaskModelContext);
  createContext : Result unit;
}.

(** [initializeStackedTask], up to the start of the background work: a
    rejection, also of the construction of the engine or of the update of
    the status, is logged and swallowed.  A status update that rejects
    records nothing. *)
Definition initializeStackedTask (env : Env) (taskId : string) : M unit :=
  try_catch
    (await (newEngine env) ;;;
     await (statusUpdate env) ;;;
     updateTaskStatus taskId RUNNING ;;;
     parentContext <- await (parentContext env) ;;
     match parentContext with
     | None => throw "Parent task context not found"
     | Some _ => await (createContext env)
     end)
    (λ _, ret tt).

(** The first message of the new task and the message of the parent task
    that refers to it. *)
Definition firstMessage (env : Env) (message model : string) : ChatMessage :=
  {| taskId := newTaskId env; content := message; role := USER; sequence := 1;
     llmModel := model; metadata := None; msg_promptTokens := None;
     msg_completionTokens := None; msg_totalTokens := None;
     msg_finishReason := None; stackedTaskId := None; editedAt := None |}.

Definition parentMessage (env : Env) (parentTaskId message model : string)
    (seq : Z) : ChatMessage :=
  {| taskId := parentTaskId; content := message; role := USER; sequence := seq;
     llmModel := model; metadata := None; msg_promptTokens := None;
     msg_completionTokens := None; msg_totalTokens := None;
     msg_finishReason := None; stackedTaskId := Some (newTaskId env);
     editedAt := None |}.

(** [_createStackedTaskInternal]; its handler logs and throws again.  The
    new task is created with the status INITIALIZING and its first message;
    of the announcement to the interface, the task, the message and the model
    are recorded. *)
Definition _createStackedTaskInternal (env : Env)
    (parentTaskId message model userId : string) : M unit :=
  parentTask <- await (findParent env) ;;
  match parentTask with
  | None => throw "Parent task not found"
  | Some parentUserId =>
      if negb (bool_decide (parentUserId = userId)) then
        throw "Unauthorized to create stacked task"
      else
        await (prepare env) ;;;
        modify (set_taskStatus (insert (newTaskId env) INITIALIZING)) ;;;
        chatMessage_create (firstMessage env message model) ;;;
        parentNextSequence <- getNextSequence parentTaskId ;;
        chatMessage_create
          (parentMessage env parentTaskId message model parentNextSequence) ;;;
        initializeStackedTask env (newTaskId env) ;;;
        emit (EQueuedActionProcessing parentTaskId message model)
  end.

End Stacked.

(** ** Sample inputs *)

Definition sampleContext : TaskModelContext :=
  {| mainModel := "model"; apiKeys := [] |}.

Definition sampleUsage : Usage :=
  {| promptTokens := 10; completionTokens := 2; totalTokens := 12 |}.

Definition sampleAction : QueuedAction :=
  QueuedMessageAction "next" sampleContext None.

Definition sampleStream : list StreamChunk :=
  [reasoning_chunk "think"; reasoning_signature_chunk "sig"; content_chunk "a";
   tool_call_chunk "c1" "read" "{}"; tool_result_chunk "c1" "ok";
   content_chunk "b"; usage_chunk sampleUsage].

(** Task "t" has an action in its queue slot. *)
Definition queuedWorld : World :=
  set_queuedActions (insert "t" sampleAction) emptyWorld.

(** Task "t" has an active stream, under controller 0, and a queued action. *)
Definition streamingWorld : World :=
  set_activeStreams (insert "t" 0%nat) (set_nextController S queuedWorld).

Definition sampleRow (t : string) (seq : Z) (r : MessageRole) (c : string) : ChatMessage :=
  {| taskId := t; content := c; role := r; sequence := seq; llmModel := "model";
     metadata := None; msg_promptTokens := None; msg_completionTokens := None;
     msg_totalTokens := None; msg_finishReason := None; stackedTaskId := None;
     editedAt := None |}.

(** Three messages of task "t" and one of task "u". *)
Definition historyWorld : World :=
  set_nextMessageId (λ _, 4%nat)
    (set_chatMessage
       (λ _, list_to_map
               [(0%nat, sampleRow "t" 1 USER "hi");
                (1%nat, sampleRow "t" 2 ASSISTANT "hello");
                (2%nat, sampleRow "t" 3 USER "again");
                (3%nat, sampleRow "u" 5 USER "other")])
       emptyWorld).

(** Collaborators that do nothing, and a hand-over that rejects. *)
Definition neverFails : string → bool := λ _, false.
Definition noCommit : string → TaskModelContext → option string → Result bool :=
  λ _ _ _, Ok false.
Definition noQueuedMessage : string → TaskModelContext → option string → string → M unit :=
  λ _ _ _ _, ret tt.
Definition rejectingQueuedMessage
    : string → TaskModelContext → option string → string → M unit :=
  λ _ _ _ _, throw "failed".
Definition noStackedTask : string → string → string → string → M unit :=
  λ _ _ _ _, ret tt.

(** A task whose workspace is up, and one whose workspace is inactive and due
    for cleanup. *)
Definition activeWorkspace : string → Result (option FollowUpTask) :=
  λ _, Ok (Some {| initStatusInactive := false; hasScheduledCleanup := false |}).
Definition inactiveWorkspace : string → Result (option FollowUpTask) :=
  λ _, Ok (Some {| initStatusInactive := true; hasScheduledCleanup := true |}).

(** A parent task of user "u", and collaborators that answer. *)
Definition stackedEnv : Stacked.Env :=
  {| Stacked.findParent := Ok (Some "u"); Stacked.newTaskId := "t2";
     Stacked.prepare := Ok tt;
     Stacked.newEngine := Ok tt; Stacked.statusUpdate := Ok tt;
     Stacked.parentContext := Ok (Some sampleContext);
     Stacked.createContext := Ok tt |}.

(** A commit step that reports committed changes. *)
Definition alwaysCommits : string → TaskModelContext → option string → Result bool :=
  λ _ _ _, Ok true.

(** A stream of tool calls and results, with usage, and no text. *)
Definition toolOnlyStream : list StreamChunk :=
  [tool_call_chunk "c1" "read" "{}"; tool_result_chunk "c1" "ok";
   usage_chunk sampleUsage].

(** A stream that is cut by an error after its first text. *)
Definition failingStream : list StreamChunk :=
  [content_chunk "a"; tool_call_chunk "c1" "read" "{}";
   error_chunk (Some "rate limit") None; content_chunk "late"].

(** ** The service *)

Section ChatService.

(** What the collaborators answer.  [stopMCPManagerFails t] tells whether
    [stopMCPManager(t)] rejects; [commitChangesIfAny] is the outcome of the
    commit step of the post-completion pipeline; [_processQueuedMessage]
    re-enters [processUserMessage] for a dequeued message and
    [_createStackedTaskInternal] creates the derived task. *)
Variable clearWritesPending : bool.
Variable stopMCPManagerFails : string → bool.
Variable commitChangesIfAny : string → TaskModelContext → option string → Result bool.
Variable _processQueuedMessage :
  string → TaskModelContext → option string → string → M unit.
Variable _createStackedTaskInternal : string → string → string → string → M unit.

(** [task_findUnique t] is what the task table answers when
    [handleFollowUpLogic] looks the task up, [cancelTaskCleanupFails t] tells
    whether [cancelTaskCleanup(t)] rejects. *)
Variable task_findUnique : string → Result (option FollowUpTask).
Variable cancelTaskCleanupFails : string → bool.

(** *** Batch service *)

(** Modelled from the spec: [databaseBatchService], whose source is not part
    of the fragment.  It keeps one pending write per task ("an explicit
    per-task pending-write slot"); scheduling replaces the slot; a flush
    performs the pending write, which carries the parts, the usage and the
    terminal-reason snapshot, and empties the slot. *)
Definition batchedRow (u : PendingUpdate) (row : ChatMessage) : ChatMessage :=
  {| taskId := taskId row; content := content row; role := role row;
     sequence := sequence row; llmModel := llmModel row;
     metadata :=
       Some {| isStreaming :=
                 match metadata row with Some md => isStreaming md | None => true end;
               parts := pu_assistantParts u; usage := pu_usageMetadata u;
               md_finishReason := pu_finishReason u |};
     msg_promptTokens := msg_promptTokens row;
     msg_completionTokens := msg_completionTokens row;
     msg_totalTokens := msg_totalTokens row;
     msg_finishReason := msg_finishReason row;
     stackedTaskId := stackedTaskId row; editedAt := editedAt row |}.

(** Modelled from the spec: scheduling replaces the pending write of the
    task. *)
Definition scheduleAssistantUpdate (t : string) (u : PendingUpdate) : M unit :=
  modify (set_pendingUpdates (insert t u)) ;;;
  emit (EScheduleAssistantUpdate t u).

(** Modelled from the spec: the pending write of the task, if any, is
    performed on the row it names and the slot is emptied. *)
Definition writePending (t : string) : M unit :=
  p <- gets (λ w, pendingUpdates w !! t) ;;
  match p with
  | Some u =>
      modify (set_pendingUpdates (delete t)) ;;;
      modify (set_chatMessage (alter (batchedRow u) (pu_messageId u))) ;;;
      emit (EBatchWrite t u)
  | None => ret tt
  end.

(** Modelled from the spec: [databaseBatchService.flushAssistantUpdate], the
    forced flush. *)
Definition flushAssistantUpdate (t : string) : M unit :=
  emit (EBatchFlush t) ;;;
  writePending t.

(** Modelled from the spec: [databaseBatchService.clear] empties the slot of
    the task.  The spec calls it a flush, the service's comments a clearing
    of the timer; [clearWritesPending] tells which: whether the pending write
    is performed or dropped. *)
Definition clear (t : string) : M unit :=
  emit (EBatchClear t) ;;;
  (if clearWritesPending then writePending t
   else modify (set_pendingUpdates (delete t))).

(** *** Cancellation *)

Definition abort (c : nat) : M unit :=
  modify (set_aborted (union {[c]})) ;;;
  emit (EAbort c).

(** [stopMCPManager] of the tool runtime: it may reject. *)
Definition stopMCPManager (t : string) : M unit :=
  emit (EStopMCPManager t) ;;;
  (if stopMCPManagerFails t then throw "stopMCPManager failed" else ret tt).

(** [try { await stopMCPManager(taskId) } catch (e) { console.error(...) }]. *)
Definition tryStopMCPManager (t : string) : M unit :=
  try_catch (stopMCPManager t) (λ _, ret tt).

Definition clearQueuedAction (t : string) : M unit :=
  modify (set_queuedActions (delete t)).

Definition stopStream (t : string) : M unit :=
  modify (set_stopRequested (union {[t]})) ;;;
  c <- gets (λ w, activeStreams w !! t) ;;
  match c with
  | Some c => abort c ;;; modify (set_activeStreams (delete t))
  | None => ret tt
  end ;;;
  flushAssistantUpdate t ;;;
  tryStopMCPManager t ;;;
  updateTaskStatus t STOPPED.

(** *** Streaming reducer *)

(** [if (assistantMessageId) databaseBatchService.scheduleAssistantUpdate(...)]
    with a copy of the parts. *)
Definition scheduleUpdate (t : string) (ctx : TaskModelContext) (turn : Turn) : M unit :=
  match assistantMessageId turn with
  | Some id =>
      now <- gets clock ;;
      scheduleAssistantUpdate t
        {| pu_messageId := id; pu_assistantParts := assistantParts turn;
           pu_context := ctx; pu_usageMetadata := usageMetadata turn;
           pu_finishReason := finishReason turn; pu_lastUpdateTime := now |}
  | None => ret tt
  end.

(** The creation of the assistant row, marked as streaming. *)
Definition createAssistantMessage (t : string) (ctx : TaskModelContext)
    (c : string) (turn : Turn) : M Turn :=
  seq <- getNextSequence t ;;
  m <- saveAssistantMessage t c (mainModel ctx) (Some seq)
         (Some {| isStreaming := true; parts := assistantParts turn;
                  usage := None; md_finishReason := None |}) ;;
  ret (set_created seq m.1 turn).

(** The body of the loop after the stop check, for one event.  The boolean
    tells whether the loop is left. *)
Definition reduceChunk (t : string) (ctx : TaskModelContext) (chunk : StreamChunk)
    (turn : Turn) : M (Turn * bool) :=
  match chunk with
  | content_chunk c =>
      if truthy c then
        let turn1 := push (TextPart c) turn in
        match assistantSequence turn1 with
        | None =>
            turn2 <- createAssistantMessage t ctx c turn1 ;; ret (turn2, false)
        | Some _ => scheduleUpdate t ctx turn1 ;;; ret (turn1, false)
        end
      else ret (turn, false)
  | reasoning_chunk r =>
      if truthy r then
        let current :=
          default {| rb_text := ""; rb_signature := None |}
                  (Map_get (reasoningCounter turn) (activeReasoningParts turn)) in
        let updated :=
          {| rb_text := rb_text current +:+ r;
             rb_signature := rb_signature current |} in
        let turn1 :=
          set_reasoning
            (Map_set (reasoningCounter turn) updated (activeReasoningParts turn))
            (reasoningCounter turn) turn in
        match assistantSequence turn1 with
        | None =>
            turn2 <- createAssistantMessage t ctx r turn1 ;; ret (turn2, false)
        | Some _ => ret (turn1, false)
        end
      else ret (turn, false)
  | reasoning_signature_chunk s =>
      if truthy s then
        match Map_get (reasoningCounter turn) (activeReasoningParts turn) with
        | Some current =>
            let signed :=
              {| rb_text := rb_text current; rb_signature := Some s |} in
            let turn1 :=
              set_reasoning
                (Map_delete (reasoningCounter turn) (activeReasoningParts turn))
                (S (reasoningCounter turn))
                (push (reasoningPart signed) turn) in
            scheduleUpdate t ctx turn1 ;;; ret (turn1, false)
        | None => ret (turn, false)
        end
      else ret (turn, false)
  | redacted_reasoning_chunk d =>
      if truthy d then
        let turn1 := push (RedactedReasoningPart d) turn in
        match assistantSequence turn1 with
        | None =>
            turn2 <- createAssistantMessage t ctx "[Redacted reasoning]" turn1 ;;
            ret (turn2, false)
        | Some _ => scheduleUpdate t ctx turn1 ;;; ret (turn1, false)
        end
      else ret (turn, false)
  | tool_call_chunk id name args =>
      let turn1 := push (ToolCallPart id name args) turn in
      scheduleUpdate t ctx turn1 ;;; ret (turn1, false)
  | tool_result_chunk id res =>
      let name := toolNameOf (correspondingCall id (assistantParts turn)) in
      let turn1 := push (ToolResultPart id name res) turn in
      scheduleUpdate t ctx turn1 ;;; ret (turn1, false)
  | error_chunk err fr =>
      let turn1 :=
        push (ErrorPart (userFriendlyError err) fr)
             (set_failed (js_or fr "error") turn) in
      match assistantMessageId turn1 with
      | Some id =>
          clear t ;;;
          chatMessage_update id (λ row,
            {| taskId := taskId row;
               content := fullContent (assistantParts turn1);
               role := role row; sequence := sequence row;
               llmModel := llmModel row;
               metadata :=
                 Some {| isStreaming := false; parts := assistantParts turn1;
                         usage := None;
                         md_finishReason := finishReason turn1 |};
               msg_promptTokens := msg_promptTokens row;
               msg_completionTokens := msg_completionTokens row;
               msg_totalTokens := msg_totalTokens row;
               msg_finishReason := msg_finishReason row;
               stackedTaskId := stackedTaskId row; editedAt := editedAt row |})
      | None => ret tt
      end ;;;
      updateTaskStatus t FAILED ;;;
      modify (set_activeStreams (delete t)) ;;;
      modify (set_stopRequested (λ s, s ∖ {[t]})) ;;;
      emit (EEndStream t) ;;;
      tryStopMCPManager t ;;;
      clearQueuedAction t ;;;
      ret (turn1, true)
  | usage_chunk u => ret (set_usageMetadata u turn, false)
  | other_chunk => ret (turn, false)
  end.

(** [for await (const chunk of stream) { if (stopRequested.has(t)) break; ... }]
    over the events the completion engine yields.  The stream is the finite
    list of the events it yields before it ends: a stream whose iterator
    rejects, and collaborators that reject where the code awaits them
    outside a handler, are not part of the model, which is of the runs in
    which every awaited call returns.  The statements below are about these
    runs. *)
Fixpoint reduceStream (t : string) (ctx : TaskModelContext)
    (chunks : list StreamChunk) (turn : Turn) : M Turn :=
  match chunks with
  | [] => ret turn
  | chunk :: rest =>
      stop <- gets (λ w, bool_decide (t ∈ stopRequested w)) ;;
      if (stop : bool) then ret turn
      else
        emit (EEmitStreamChunk t chunk) ;;;
        r <- reduceChunk t ctx chunk turn ;;
        if (r.2 : bool) then ret r.1 else reduceStream t ctx rest r.1
  end.

(** The reasoning blocks that received no signature are appended. *)
Definition finalizeReasoning (turn : Turn) : Turn :=
  {| assistantSequence := assistantSequence turn;
     assistantMessageId := assistantMessageId turn;
     assistantParts :=
       assistantParts turn ++
       (reasoningPart <$> Map_values (activeReasoningParts turn));
     usageMetadata := usageMetadata turn; finishReason := finishReason turn;
     hasError := hasError turn;
     activeReasoningParts := []; reasoningCounter := reasoningCounter turn |}.

(** The final write, when usage was observed. *)
Definition finalRow (turn : Turn) (u : Usage) (row : ChatMessage) : ChatMessage :=
  {| taskId := taskId row;
     content := fullContent (assistantParts turn);
     role := role row; sequence := sequence row; llmModel := llmModel row;
     metadata :=
       Some {| isStreaming := false; parts := assistantParts turn;
               usage := Some u; md_finishReason := finishReason turn |};
     msg_promptTokens := Some (promptTokens u);
     msg_completionTokens := Some (completionTokens u);
     msg_totalTokens := Some (totalTokens u);
     msg_finishReason := finishReason turn;
     stackedTaskId := stackedTaskId row; editedAt := editedAt row |}.

Definition liftResult {A} (r : Result A) : M A :=
  match r with Ok a => ret a | Throw e => throw e end.

(** The post-completion pipeline: commit, change proposal, checkpoint. *)
Definition postCompletion (t : string) (ctx : TaskModelContext)
    (workspacePath : option string) (turn : Turn) : M unit :=
  try_catch
    (changesCommitted <- liftResult (commitChangesIfAny t ctx workspacePath) ;;
     match (changesCommitted : bool), assistantMessageId turn with
     | true, Some id => emit (ECreatePRIfUserEnabled t id) ;;; emit (ECreateCheckpoint t id)
     | _, _ => ret tt
     end)
    (λ _, ret tt).

(** The final write: the pending batched write is cleared, then the row is
    written in full when usage was observed, and otherwise only flushed. *)
Definition persistFinal (t : string) (turn : Turn) : M unit :=
  match assistantMessageId turn with
  | Some id =>
      clear t ;;;
      match usageMetadata turn with
      | Some u => chatMessage_update id (finalRow turn u)
      | None => flushAssistantUpdate t
      end
  | None => ret tt
  end.

(** The classification of the outcome and what follows from it. *)
Definition concludeTurn (t : string) (ctx : TaskModelContext)
    (workspacePath : option string) (wasStoppedEarly : bool) (turn : Turn) : M unit :=
  if hasError turn then scheduleTaskCleanup t
  else if wasStoppedEarly then
    updateTaskStatus t STOPPED ;;; scheduleTaskCleanup t
  else
    updateTaskStatus t COMPLETED ;;;
    scheduleTaskCleanup t ;;;
    updateTaskActivity t ;;;
    postCompletion t ctx workspacePath turn.

(** The release of the stream tracking. *)
Definition releaseStream (t : string) : M unit :=
  modify (set_activeStreams (delete t)) ;;;
  modify (set_stopRequested (λ s, s ∖ {[t]})) ;;;
  emit (EEndStream t) ;;;
  tryStopMCPManager t.

(** From the end of the loop to the release of the session's handles. *)
Definition finalizeTurn (t : string) (ctx : TaskModelContext)
    (workspacePath : option string) (turn0 : Turn) : M Turn :=
  wasStoppedEarly <- gets (λ w, bool_decide (t ∈ stopRequested w)) ;;
  let turn := finalizeReasoning turn0 in
  persistFinal t turn ;;;
  concludeTurn t ctx workspacePath wasStoppedEarly turn ;;;
  releaseStream t ;;;
  ret turn.

(** *** Queued actions *)

Definition _processQueuedStackedPR (message parentTaskId model userId : string) : M unit :=
  _createStackedTaskInternal parentTaskId message model userId.

(** [switch (queuedAction.type)] of [processQueuedActions]: the hand-over of
    an action that has been taken out of the queue. *)
Definition dispatchQueuedAction (t : string) (a : QueuedAction) : M unit :=
  match a with
  | QueuedMessageAction message context workspacePath =>
      emit (EQueuedActionProcessing t message (mainModel context)) ;;;
      emit (EProcessQueuedMessage t a) ;;;
      _processQueuedMessage message context workspacePath t
  | QueuedStackedPRAction message parentTaskId model userId _ =>
      emit (EProcessQueuedStackedPR t a) ;;;
      _processQueuedStackedPR message parentTaskId model userId
  end.

Definition processQueuedActions (t : string) : M unit :=
  queuedAction <- gets (λ w, queuedActions w !! t) ;;
  match queuedAction with
  | None => ret tt
  | Some a =>
      modify (set_queuedActions (delete t)) ;;;
      try_catch (dispatchQueuedAction t a) (λ _, ret tt)
  end.

(** *** One turn: from [startStream] to the end of [_processUserMessageInternal] *)

Definition streamTurnBody (t : string) (ctx : TaskModelContext)
    (workspacePath : option string) (chunks : list StreamChunk) : M Turn :=
  turn <- reduceStream t ctx chunks initialTurn ;;
  finalizeTurn t ctx workspacePath turn.

Definition streamTurn (t : string) (ctx : TaskModelContext)
    (workspacePath : option string) (chunks : list StreamChunk) : M unit :=
  emit (EStartStream t) ;;;
  c <- gets nextController ;;
  modify (set_nextController S) ;;;
  modify (set_activeStreams (insert t c)) ;;;
  try_catch
    (streamTurnBody t ctx workspacePath chunks ;;;
     processQueuedActions t)
    (λ e,
       updateTaskStatus t FAILED ;;;
       emit (EEmitStreamChunk t (error_chunk (Some e) (Some "error"))) ;;;
       modify (set_activeStreams (delete t)) ;;;
       modify (set_stopRequested (λ s, s ∖ {[t]})) ;;;
       emit (EHandleStreamError t e) ;;;
       tryStopMCPManager t ;;;
       clearQueuedAction t ;;;
       throw e).


(** *** Message intake *)

Definition cancelTaskCleanup (t : string) : M unit :=
  emit (ECancelTaskCleanup t) ;;;
  if cancelTaskCleanupFails t then throw "cancelTaskCleanup failed" else ret tt.

(** [handleFollowUpLogic]: a task whose workspace is inactive is set to
    INITIALIZING, after its scheduled cleanup, if any, is cancelled.  The
    whole body sits in a [try] whose handler only logs. *)
Definition handleFollowUpLogic (t : string) : M unit :=
  try_catch
    (task <- await (task_findUnique t) ;;
     match task with
     | None => ret tt
     | Some task =>
         if initStatusInactive task then
           (if hasScheduledCleanup task then cancelTaskCleanup t else ret tt) ;;;
           updateTaskStatus t INITIALIZING ;;;
           emit (ETaskUpdateInitStatus t)
         else ret tt
     end)
    (λ _, ret tt).

(** What the rest of the service does while a call is suspended at an
    [await]: a rejection of it is not a rejection of the call. *)
Definition suspended (m : M unit) : M unit := try_catch m (λ _, ret tt).

(** Nothing runs meanwhile; [m] runs at the await numbered [p] and nothing
    at the others. *)
Definition nothingMeanwhile : nat → M unit := λ _, ret tt.


(** [stopStream] as an immediate message awaits it.  The call is suspended
    where the code awaits, and the rest of the service runs meanwhile:
    [meanwhile 0] between the removal of the stream from the registry and
    the flush, [meanwhile 1] between the flush and the stop of the tool
    runtime, [meanwhile 2] between that and the update of the status,
    [meanwhile 3] between the update of the status and the return to the
    caller.  With [nothingMeanwhile] it is [stopStream]. *)
Definition stopStreamMeanwhile (t : string) (meanwhile : nat → M unit) : M unit :=
  modify (set_stopRequested (union {[t]})) ;;;
  c <- gets (λ w, activeStreams w !! t) ;;
  match c with
  | Some c => abort c ;;; modify (set_activeStreams (delete t))
  | None => ret tt
  end ;;;
  suspended (meanwhile 0%nat) ;;;
  flushAssistantUpdate t ;;;
  suspended (meanwhile 1%nat) ;;;
  tryStopMCPManager t ;;;
  suspended (meanwhile 2%nat) ;;;
  updateTaskStatus t STOPPED ;;;
  suspended (meanwhile 3%nat).

(** The outcome of the queue-or-interrupt step. *)
Inductive Intake := Queued | Proceed.

(** The second step of [_processUserMessageInternal]: a message that is to
    be queued while a stream is active takes the one queue slot; an immediate
    message stops the active stream, empties the slot and waits 100 ms.
    [meanwhile] is what the rest of the service does while the call is
    suspended: at the awaits of [stopStream], numbered 0 to 3, and during the
    wait of 100 ms, numbered 4.  It is the interrupted turn, where it is
    resumed, and nothing elsewhere. *)
Definition interruptOrQueue (t userMessage : string) (ctx : TaskModelContext)
    (workspacePath : option string) (queue : bool) (meanwhile : nat → M unit)
    : M Intake :=
  active <- gets (λ w, activeStreams w !! t) ;;
  if queue then
    match active with
    | Some _ =>
        modify (set_queuedActions
                  (insert t (QueuedMessageAction userMessage ctx workspacePath))) ;;;
        ret Queued
    | None => ret Proceed
    end
  else
    match active with
    | Some _ =>
        stopStreamMeanwhile t meanwhile ;;;
        q <- gets (λ w, queuedActions w !! t) ;;
        match q with
        | Some _ => modify (set_queuedActions (delete t))
        | None => ret tt
        end ;;;
        suspended (meanwhile 4%nat) ;;;
        ret Proceed
    | None => ret Proceed
    end.

(** The turn of a message that goes ahead: the user row, the system rows
    of the first turn, the stream.  [systemMessages] are the contents of the
    system rows the prompt assembly inserts on the first turn of a task (the
    repository overview and the memories), [chunks] the events the completion
    engine yields for this turn. *)
Definition beginTurn (t userMessage : string) (ctx : TaskModelContext)
    (skipUserMessageSave : bool) (workspacePath : option string)
    (systemMessages : list string) (chunks : list StreamChunk) : M unit :=
  (if skipUserMessageSave then ret tt
   else saveUserMessage t userMessage (mainModel ctx) None ;;; ret tt) ;;;
  foldr (λ c k,
           seq <- getNextSequence t ;;
           saveSystemMessage t c (mainModel ctx) (Some seq) None ;;;
           k)
        (ret tt) systemMessages ;;;
  streamTurn t ctx workspacePath chunks.

(** [_processUserMessageInternal].  The reading of the history, the
    creation of the tools and the assembly of the system prompt do not touch
    the state modelled here; they are taken to return (the two last are
    awaited after the stream is registered and outside the [try]). *)
Definition _processUserMessageInternal (t userMessage : string)
    (ctx : TaskModelContext) (skipUserMessageSave : bool)
    (workspacePath : option string) (queue : bool) (meanwhile : nat → M unit)
    (systemMessages : list string) (chunks : list StreamChunk) : M unit :=
  handleFollowUpLogic t ;;;
  a <- interruptOrQueue t userMessage ctx workspacePath queue meanwhile ;;
  match a with
  | Queued => ret tt
  | Proceed =>
      beginTurn t userMessage ctx skipUserMessageSave workspacePath
        systemMessages chunks
  end.

(** [processUserMessage] records the main model of the task with the model
    context service and hands over to [_processUserMessageInternal]. *)
Definition processUserMessage := _processUserMessageInternal.

(** *** Edit and replay *)

Definition editedRow (newContent newModel : string) (now : nat) (row : ChatMessage)
    : ChatMessage :=
  {| taskId := taskId row; content := newContent; role := role row;
     sequence := sequence row; llmModel := newModel; metadata := metadata row;
     msg_promptTokens := msg_promptTokens row;
     msg_completionTokens := msg_completionTokens row;
     msg_totalTokens := msg_totalTokens row;
     msg_finishReason := msg_finishReason row;
     stackedTaskId := stackedTaskId row; editedAt := Some now |}.

(** The store operations of [editUserMessage], up to the deletion. *)
Definition editStore (t : string) (messageId : nat) (newContent newModel : string)
    : M unit :=
  active <- gets (λ w, activeStreams w !! t) ;;
  match active with
  | Some _ => stopStream t
  | None => ret tt
  end ;;;
  clearQueuedAction t ;;;
  now <- gets clock ;;
  chatMessage_update messageId (editedRow newContent newModel now) ;;;
  updateTaskActivity t ;;;
  editedMessage <- gets (λ w, chatMessage w !! messageId) ;;
  match editedMessage with
  | None => throw "Edited message not found"
  | Some m =>
      emit (ERestoreCheckpoint t messageId) ;;;
      chatMessage_deleteMany t (sequence m)
  end.

(** [editUserMessage].  When [processUserMessage] is reached no stream is
    registered for the task, so the interruption is not entered. *)
Definition editUserMessage (t : string) (messageId : nat) (newContent newModel : string)
    (ctx : TaskModelContext) (workspacePath : option string)
    (systemMessages : list string) (chunks : list StreamChunk) : M unit :=
  editStore t messageId newContent newModel ;;;
  let ctx' :=
    if bool_decide (mainModel ctx = newModel) then ctx
    else {| mainModel := newModel; apiKeys := apiKeys ctx |} in
  processUserMessage t newContent ctx' true workspacePath false nothingMeanwhile
    systemMessages chunks.

(** *** Stacked tasks *)

Definition createStackedPR (parentTaskId message model userId : string)
    (queue : bool) (socket : nat) : M unit :=
  try_catch
    (active <- gets (λ w, activeStreams w !! parentTaskId) ;;
     if bool_decide (is_Some active) && queue then
       modify (set_queuedActions
                 (insert parentTaskId
                    (QueuedStackedPRAction message parentTaskId model userId socket)))
     else _createStackedTaskInternal parentTaskId message model userId)
    (λ _, ret tt).

(** *** Cleanup *)

Definition cleanupTask (t : string) : M unit :=
  try_catch
    (c <- gets (λ w, activeStreams w !! t) ;;
     match c with
     | Some c => abort c ;;; modify (set_activeStreams (delete t))
     | None => ret tt
     end ;;;
     tryStopMCPManager t ;;;
     modify (set_queuedActions (delete t)) ;;;
     clear t)
    (λ _, ret tt).

(** ** Observations on a run *)

(** The parts snapshot an event hands to the persistence layer, if any. *)
Definition snapshotOf (e : Effect) : option (list AssistantMessagePart) :=
  match e with
  | EMessageCreate _ row => parts <$> metadata row
  | EMessageUpdate _ row => parts <$> metadata row
  | EScheduleAssistantUpdate _ u => Some (pu_assistantParts u)
  | EBatchWrite _ u => Some (pu_assistantParts u)
  | _ => None
  end.

Definition snapshots (evs : list Effect) : list (list AssistantMessagePart) :=
  omap snapshotOf evs.

(** The snapshot of an event, if it has one, is a prefix of [ps]. *)
Definition snapOk (ps : list AssistantMessagePart) (e : Effect) : Prop :=
  ∀ s, snapshotOf e = Some s → s `prefix_of` ps.

(** Immediate writes: direct updates of a row, as opposed to batched ones. *)
Definition isImmediateWrite (e : Effect) : bool :=
  match e with EMessageUpdate _ _ => true | _ => false end.

Definition immediateWrites (evs : list Effect) : list Effect :=
  filter (λ e, isImmediateWrite e = true) evs.

(** The queued actions handed over for processing. *)
Definition isDispatch (e : Effect) : bool :=
  match e with
  | EProcessQueuedMessage _ _ | EProcessQueuedStackedPR _ _
  | EQueuedActionProcessing _ _ _ => true
  | _ => false
  end.

Definition dispatched (evs : list Effect) : list Effect :=
  filter (λ e, isDispatch e = true) evs.

(** The events consumed: those sent on to the realtime channel. *)
Definition isEmit (e : Effect) : bool :=
  match e with EEmitStreamChunk _ _ => true | _ => false end.

Definition isError (c : StreamChunk) : bool :=
  match c with error_chunk _ _ => true | _ => false end.

Definition isUsage (c : StreamChunk) : bool :=
  match c with usage_chunk _ => true | _ => false end.

(** The events that create the assistant row when it does not exist yet. *)
Definition createsRow (c : StreamChunk) : bool :=
  match c with
  | content_chunk s | reasoning_chunk s | redacted_reasoning_chunk s => truthy s
  | _ => false
  end.

(** The text of the reasoning events. *)
Definition reasoningText (c : StreamChunk) : string :=
  match c with reasoning_chunk r => r | _ => "" end.

Definition isSignature (c : StreamChunk) : bool :=
  match c with reasoning_signature_chunk s => truthy s | _ => false end.

Definition isUnsignedReasoning (p : AssistantMessagePart) : bool :=
  match p with ReasoningPart _ None => true | _ => false end.

Definition isReasoningPart (p : AssistantMessagePart) : bool :=
  match p with ReasoningPart _ _ => true | _ => false end.

Definition isTextPart (p : AssistantMessagePart) : bool :=
  match p with TextPart _ => true | _ => false end.

(** The row of the turn exists, at most the current reasoning block is open,
    and the parts hold no unsigned reasoning. *)
Record TurnInv (turn : Turn) (w : World) : Prop := {
  inv_ids : assistantSequence turn = None ↔ assistantMessageId turn = None;
  inv_row : ∀ id, assistantMessageId turn = Some id →
            is_Some (chatMessage w !! id);
  inv_reasoning :
    activeReasoningParts turn = [] ∨
    ∃ b, activeReasoningParts turn = [(reasoningCounter turn, b)] ∧
         rb_signature b = None ∧ truthy (rb_text b) = true;
  inv_signed :
    Forall (λ p, isUnsignedReasoning p = false) (assistantParts turn);
}.

(** The write pending for the task, if any, carries a prefix of the parts. *)
Definition PendingOk (t : string) (turn : Turn) (w : World) : Prop :=
  ∀ u, pendingUpdates w !! t = Some u →
       pu_assistantParts u `prefix_of` assistantParts turn.

Definition noSnapshot (e : Effect) : Prop := snapshotOf e = None.

(** Two states of the message table hold the same rows, up to the columns
    other than the task, the sequence and the role. *)
Definition sameShape (A B : gmap nat ChatMessage) : Prop :=
  ∀ k, match A !! k, B !! k with
       | Some a, Some b =>
           taskId a = taskId b ∧ sequence a = sequence b ∧ role a = role b
       | None, None => True
       | _, _ => False
       end.

(** Events that are neither an immediate write nor the hand-over of a queued
    action; [quiet] ones are not the forwarding of a stream event either. *)
Definition calm (e : Effect) : Prop :=
  isImmediateWrite e = false ∧ isDispatch e = false.

Definition quiet (e : Effect) : Prop :=
  isImmediateWrite e = false ∧ isDispatch e = false ∧ isEmit e = false.

(** The reasoning text that is open after the events [chunks], when [acc] was
    open before them: a signature closes the block. *)
Definition pendingText (acc : string) (chunks : list StreamChunk) : string :=
  fold_left (λ acc c, if isSignature c then "" else acc +:+ reasoningText c)
            chunks acc.

(** The text of the reasoning block that is open. *)
Definition openReasoning (turn : Turn) : string :=
  match Map_get (reasoningCounter turn) (activeReasoningParts turn) with
  | Some b => rb_text b
  | None => ""
  end.

(** ** The parts as the events determine them *)

(** The part an event adds to the list when it arrives, given the parts [ps]
    before it and the text [open] of the reasoning block that is open.  A
    reasoning event adds none: its text joins the open block. *)
Definition arrivalPart (ps : list AssistantMessagePart) (open : string)
    (c : StreamChunk) : list AssistantMessagePart :=
  match c with
  | content_chunk s => if truthy s then [TextPart s] else []
  | reasoning_chunk _ => []
  | reasoning_signature_chunk s =>
      if truthy s && truthy open then [ReasoningPart open (Some s)] else []
  | redacted_reasoning_chunk d =>
      if truthy d then [RedactedReasoningPart d] else []
  | tool_call_chunk id name args => [ToolCallPart id name args]
  | tool_result_chunk id res =>
      [ToolResultPart id (toolNameOf (correspondingCall id ps)) res]
  | error_chunk err fr => [ErrorPart (userFriendlyError err) fr]
  | usage_chunk _ | other_chunk => []
  end.

(** The parts, and the text of the open reasoning block, after the events
    [chunks] have arrived one after the other. *)
Fixpoint arrivalParts (ps : list AssistantMessagePart) (open : string)
    (chunks : list StreamChunk) : list AssistantMessagePart * string :=
  match chunks with
  | [] => (ps, open)
  | c :: rest =>
      arrivalParts (ps ++ arrivalPart ps open c)
        (if isSignature c then "" else open +:+ reasoningText c) rest
  end.

(** The events a turn consumes when no stop is requested: those up to the
    first error event, which is the last. *)
Fixpoint consumed (chunks : list StreamChunk) : list StreamChunk :=
  match chunks with
  | [] => []
  | c :: rest => c :: (if isError c then [] else consumed rest)
  end.

(** The parts at the end of the turn: the parts in the order of arrival,
    then the reasoning block that is still open, unsigned. *)
Definition finalParts (chunks : list StreamChunk) : list AssistantMessagePart :=
  let r := arrivalParts [] "" (consumed chunks) in
  r.1 ++ (if truthy r.2 then [ReasoningPart r.2 None] else []).

(** ** Further operations *)

(** What [getQueuedAction] hands to the interface. *)
Record QueuedActionUI := {
  ui_type : string;
  ui_message : string;
  ui_model : string;
}.

Definition getQueuedAction (t : string) (w : World) : option QueuedActionUI :=
  match queuedActions w !! t with
  | None => None
  | Some action =>
      let model :=
        match action with
        | QueuedStackedPRAction _ _ model _ _ => model
        | QueuedMessageAction _ context _ => mainModel context
        end in
      if negb (truthy model) then None
      else
        Some {| ui_type :=
                  match action with
                  | QueuedMessageAction _ _ _ => "message"
                  | QueuedStackedPRAction _ _ _ _ _ => "stacked-pr"
                  end;
                ui_message :=
                  match action with
                  | QueuedMessageAction message _ _ => message
                  | QueuedStackedPRAction message _ _ _ _ => message
                  end;
                ui_model := model |}
  end.

(** ** Further observations on a run *)

(** The text of the content events. *)
Definition contentText (c : StreamChunk) : string :=
  match c with content_chunk s => s | _ => "" end.

(** The content the assistant row is created with by the event that creates
    it. *)
Definition creationText (c : StreamChunk) : string :=
  match c with
  | content_chunk s => s
  | reasoning_chunk r => r
  | redacted_reasoning_chunk _ => "[Redacted reasoning]"
  | _ => ""
  end.

Definition isCreate (e : Effect) : bool :=
  match e with EMessageCreate _ _ => true | _ => false end.

Definition creations (evs : list Effect) : list Effect :=
  filter (λ e, isCreate e = true) evs.

(** The row a call to the message store or to the batch service is about. *)
Definition targetOf (e : Effect) : option nat :=
  match e with
  | EMessageCreate id _ | EMessageUpdate id _ => Some id
  | EScheduleAssistantUpdate _ u | EBatchWrite _ u => Some (pu_messageId u)
  | _ => None
  end.

Definition targets (i : nat) (e : Effect) : Prop :=
  ∀ j, targetOf e = Some j → j = i.

(** The calls to the message store and to the batch service. *)
Definition isStoreCall (e : Effect) : bool :=
  match e with
  | EMessageCreate _ _ | EMessageUpdate _ _ | EMessageDeleteMany _ _
  | EScheduleAssistantUpdate _ _ | EBatchClear _ | EBatchFlush _
  | EBatchWrite _ _ => true
  | _ => false
  end.

(** The steps of the post-completion pipeline that follow a commit. *)
Definition isPipeline (e : Effect) : bool :=
  match e with
  | ECreatePRIfUserEnabled _ _ | ECreateCheckpoint _ _ => true
  | _ => false
  end.

Definition pipeline (evs : list Effect) : list Effect :=
  filter (λ e, isPipeline e = true) evs.

(** The turn writes to one row only: [i0] is the identifier the store hands
    out next when the turn starts, [rows0] the table at that time.  Before
    the row exists the table and the pending write of the task are as they
    were; afterwards the other rows are, and a pending write is about the
    row. *)
Definition Owned (t : string) (i0 : nat) (rows0 : gmap nat ChatMessage)
    (turn : Turn) (w : World) : Prop :=
  match assistantMessageId turn with
  | None =>
      chatMessage w = rows0 ∧ pendingUpdates w !! t = None ∧
      nextMessageId w = i0
  | Some i =>
      i = i0 ∧
      (∀ k, k ≠ i0 → chatMessage w !! k = rows0 !! k) ∧
      (∀ u, pendingUpdates w !! t = Some u → pu_messageId u = i0)
  end.

(** The usage the turn holds after the events [chunks], when it held [acc]
    before them: each usage event replaces it. *)
Definition lastUsage (acc : option Usage) (chunks : list StreamChunk) : option Usage :=
  fold_left (λ acc c, match c with usage_chunk u => Some u | _ => acc end)
            chunks acc.

(** The rows created, in the order of their creation. *)
Definition createdRows (evs : list Effect) : list ChatMessage :=
  omap (λ e, match e with EMessageCreate _ row => Some row | _ => None end) evs.

(** The row [saveSystemMessage] creates when it is given a sequence. *)
Definition systemRow (t c model : string) (seq : Z) : ChatMessage :=
  {| taskId := t; content := c; role := SYSTEM; sequence := seq;
     llmModel := model; metadata := None;
     msg_promptTokens := None; msg_completionTokens := None;
     msg_totalTokens := None; msg_finishReason := None;
     stackedTaskId := None; editedAt := None |}.

(** ** An interruption under way *)




(** * Properties *)

Set Default Proof Using "Type".

(** Unfolding of the monad's operations. *)
Ltac munfold := unfold bind, ret, gets, modify, emit, throw, try_catch.

Lemma tryStopMCPManager_run t w :
  tryStopMCPManager t w = (Ok tt, w, [EStopMCPManager t]).
Proof.
  unfold tryStopMCPManager, stopMCPManager. munfold. simpl.
  destruct (stopMCPManagerFails t); reflexivity.
Qed.

Lemma writePending_run t w :
  writePending t w =
  (Ok tt,
   match pendingUpdates w !! t with
   | Some u => set_chatMessage (alter (batchedRow u) (pu_messageId u))
                 (set_pendingUpdates (delete t) w)
   | None => w
   end,
   match pendingUpdates w !! t with
   | Some u => [EBatchWrite t u]
   | None => []
   end).
Proof. unfold writePending. munfold. simpl. destruct (pendingUpdates w !! t); reflexivity. Qed.

Lemma clear_run t w :
  clear t w =
  (Ok tt,
   if clearWritesPending then world (writePending t w)
   else set_pendingUpdates (delete t) w,
   EBatchClear t :: (if clearWritesPending then events (writePending t w) else [])).
Proof.
  unfold clear. munfold. simpl. destruct clearWritesPending; [|reflexivity].
  rewrite writePending_run. reflexivity.
Qed.

Lemma flushAssistantUpdate_run t w :
  flushAssistantUpdate t w =
  (Ok tt, world (writePending t w), EBatchFlush t :: events (writePending t w)).
Proof.
  unfold flushAssistantUpdate. munfold. simpl. rewrite writePending_run. reflexivity.
Qed.

(** Frame of the batch service. *)
Lemma writePending_frame t w :
  let w' := world (writePending t w) in
  activeStreams w' = activeStreams w ∧ stopRequested w' = stopRequested w ∧
  queuedActions w' = queuedActions w ∧ taskStatus w' = taskStatus w ∧
  aborted w' = aborted w ∧ nextMessageId w' = nextMessageId w ∧
  pendingUpdates w' = delete t (pendingUpdates w) ∧
  (∀ id, is_Some (chatMessage w' !! id) ↔ is_Some (chatMessage w !! id)).
Proof.
  rewrite writePending_run. unfold world. simpl.
  destruct (pendingUpdates w !! t) eqn:E; simpl.
  - repeat split; try apply lookup_alter_is_Some; try (rewrite lookup_alter_is_Some; done).
  - repeat split; try done. symmetry. by apply delete_id.
Qed.

Lemma clear_frame t w :
  let w' := world (clear t w) in
  activeStreams w' = activeStreams w ∧ stopRequested w' = stopRequested w ∧
  queuedActions w' = queuedActions w ∧ taskStatus w' = taskStatus w ∧
  aborted w' = aborted w ∧ nextMessageId w' = nextMessageId w ∧
  pendingUpdates w' = delete t (pendingUpdates w) ∧
  (∀ id, is_Some (chatMessage w' !! id) ↔ is_Some (chatMessage w !! id)).
Proof.
  rewrite clear_run. unfold world at 1. simpl.
  destruct clearWritesPending; [apply writePending_frame|].
  simpl. repeat split; done.
Qed.

(** *** Preservation of the invariant *)

Lemma TurnInv_world turn w w' :
  TurnInv turn w →
  (∀ id, is_Some (chatMessage w !! id) → is_Some (chatMessage w' !! id)) →
  TurnInv turn w'.
Proof. intros [Hids Hrow Hreas Hsig] Hc. constructor; auto. Qed.

Lemma TurnInv_push turn w p :
  TurnInv turn w → isUnsignedReasoning p = false → TurnInv (push p turn) w.
Proof.
  intros [Hids Hrow Hreas Hsig] Hp.
  constructor; simpl; auto.
  apply Forall_app. split; [done|]. by constructor.
Qed.

Lemma TurnInv_created turn w seq row :
  TurnInv turn w →
  TurnInv (set_created seq (nextMessageId w) turn)
    (set_nextMessageId S (set_chatMessage (insert (nextMessageId w) row) w)).
Proof.
  intros [Hids Hrow Hreas Hsig].
  constructor; simpl; auto.
  - split; discriminate.
  - intros id [= <-]. rewrite lookup_insert_eq. eauto.
Qed.

Lemma TurnInv_usage turn w u :
  TurnInv turn w → TurnInv (set_usageMetadata u turn) w.
Proof. intros [Hids Hrow Hreas Hsig]. constructor; simpl; auto. Qed.

Lemma TurnInv_failed turn w fr :
  TurnInv turn w → TurnInv (set_failed fr turn) w.
Proof. intros [Hids Hrow Hreas Hsig]. constructor; simpl; auto. Qed.

Lemma TurnInv_no_reasoning turn w n :
  TurnInv turn w → TurnInv (set_reasoning [] n turn) w.
Proof. intros [Hids Hrow Hreas Hsig]. constructor; simpl; auto. Qed.

Lemma TurnInv_open_reasoning turn w b :
  TurnInv turn w → rb_signature b = None → truthy (rb_text b) = true →
  TurnInv (set_reasoning [(reasoningCounter turn, b)] (reasoningCounter turn) turn) w.
Proof.
  intros [Hids Hrow Hreas Hsig] ??. constructor; simpl; auto.
  right. eauto.
Qed.

Lemma TurnInv_initial w : TurnInv initialTurn w.
Proof. constructor; simpl; auto; done. Qed.

Lemma PendingOk_parts t turn turn' w w' :
  PendingOk t turn w →
  assistantParts turn `prefix_of` assistantParts turn' →
  pendingUpdates w' !! t = pendingUpdates w !! t →
  PendingOk t turn' w'.
Proof. intros H Hp Hw u Hu. rewrite Hw in Hu. etrans; [by apply H|done]. Qed.

Lemma PendingOk_none t turn w : pendingUpdates w !! t = None → PendingOk t turn w.
Proof. intros H u. rewrite H. done. Qed.

(** The reasoning map holds at most the block of the current counter. *)
Lemma open_block_cases turn w :
  TurnInv turn w →
  (activeReasoningParts turn = [] ∧
   Map_get (reasoningCounter turn) (activeReasoningParts turn) = None) ∨
  (∃ b, activeReasoningParts turn = [(reasoningCounter turn, b)] ∧
        Map_get (reasoningCounter turn) (activeReasoningParts turn) = Some b ∧
        rb_signature b = None ∧ truthy (rb_text b) = true).
Proof.
  intros HI. destruct (inv_reasoning _ _ HI) as [E|(b & E & ? & ?)].
  - left. rewrite E. done.
  - right. exists b. rewrite E. simpl. rewrite Nat.eqb_refl. done.
Qed.

Lemma truthy_app_r a b : truthy b = true → truthy (a +:+ b) = true.
Proof. destruct a, b; simpl; done. Qed.

(** *** The rows keep their task, sequence and role *)

Lemma sameShape_refl A : sameShape A A.
Proof. intros k. by destruct (A !! k). Qed.

Lemma sameShape_trans A B C : sameShape A B → sameShape B C → sameShape A C.
Proof.
  intros H1 H2 k. specialize (H1 k). specialize (H2 k).
  destruct (A !! k), (B !! k), (C !! k); try done.
  destruct H1 as (?&?&?), H2 as (?&?&?). split_and!; congruence.
Qed.

Lemma sameShape_alter A f k :
  (∀ r, taskId (f r) = taskId r ∧ sequence (f r) = sequence r ∧ role (f r) = role r) →
  sameShape A (alter f k A).
Proof.
  intros Hf j. destruct (decide (k = j)) as [->|Hne].
  - rewrite lookup_alter_eq. destruct (A !! j) as [r|]; simpl; [|done].
    destruct (Hf r) as (?&?&?). by split_and!.
  - rewrite lookup_alter_ne by done. by destruct (A !! j).
Qed.

Lemma sameShape_insert A k r r' :
  A !! k = Some r → taskId r' = taskId r → sequence r' = sequence r →
  role r' = role r →
  sameShape A (<[k := r']> A).
Proof.
  intros Hk Ht Hs Hr j. destruct (decide (k = j)) as [->|Hne].
  - rewrite lookup_insert_eq, Hk. by split_and!.
  - rewrite lookup_insert_ne by done. by destruct (A !! j).
Qed.

Lemma writePending_shape t w :
  sameShape (chatMessage w) (chatMessage (world (writePending t w))).
Proof.
  rewrite writePending_run. unfold world. simpl.
  destruct (pendingUpdates w !! t) as [u|]; simpl; [|apply sameShape_refl].
  apply sameShape_alter. intros r. done.
Qed.

Lemma clear_shape t w :
  sameShape (chatMessage w) (chatMessage (world (clear t w))).
Proof.
  rewrite clear_run. unfold world at 1. simpl.
  destruct clearWritesPending; [apply writePending_shape|apply sameShape_refl].
Qed.

(** Stepping through the simple operations of the service. *)
Ltac mstep :=
  repeat progress
    (unfold updateTaskStatus, updateTaskActivity, scheduleTaskCleanup,
       clearQueuedAction, abort;
     munfold; cbv beta iota;
     try rewrite tryStopMCPManager_run).

Lemma chatMessage_update_run id f w row :
  chatMessage w !! id = Some row →
  chatMessage_update id f w =
  (Ok tt, set_chatMessage (insert id (f row)) w, [EMessageUpdate id (f row)]).
Proof. intros H. unfold chatMessage_update. munfold. simpl. rewrite H. reflexivity. Qed.

Lemma chatMessage_update_missing id f w :
  chatMessage w !! id = None →
  chatMessage_update id f w = (Throw "Record to update not found", w, []).
Proof. intros H. unfold chatMessage_update. munfold. simpl. rewrite H. reflexivity. Qed.

Lemma createAssistantMessage_run t ctx c turn w :
  ∃ row,
    createAssistantMessage t ctx c turn w =
    (Ok (set_created (nextSequenceOf t (chatMessage w)) (nextMessageId w) turn),
     set_nextMessageId S (set_chatMessage (insert (nextMessageId w) row) w),
     [EMessageCreate (nextMessageId w) row]) ∧
    metadata row =
      Some {| isStreaming := true; parts := assistantParts turn;
              usage := None; md_finishReason := None |} ∧
    taskId row = t ∧ content row = c ∧ role row = ASSISTANT ∧
    sequence row = nextSequenceOf t (chatMessage w).
Proof.
  eexists. split; [reflexivity|]. simpl. done.
Qed.

Lemma scheduleUpdate_run t ctx turn w :
  scheduleUpdate t ctx turn w =
  match assistantMessageId turn with
  | Some id =>
      let u := {| pu_messageId := id; pu_assistantParts := assistantParts turn;
                  pu_context := ctx; pu_usageMetadata := usageMetadata turn;
                  pu_finishReason := finishReason turn;
                  pu_lastUpdateTime := clock w |} in
      (Ok tt, set_pendingUpdates (insert t u) w, [EScheduleAssistantUpdate t u])
  | None => (Ok tt, w, [])
  end.
Proof. unfold scheduleUpdate. destruct (assistantMessageId turn); reflexivity. Qed.


Lemma scheduleUpdate_inv t ctx turn w :
  TurnInv turn w →
  ∃ w' evs, scheduleUpdate t ctx turn w = (Ok tt, w', evs) ∧
    TurnInv turn w' ∧ Forall (snapOk (assistantParts turn)) evs ∧
    (PendingOk t turn w → PendingOk t turn w').
Proof.
  intros HI. rewrite scheduleUpdate_run.
  destruct (assistantMessageId turn); simpl.
  - do 2 eexists. split; [reflexivity|]. split; [|split].
    + eapply TurnInv_world; [done|]. done.
    + repeat constructor. intros s [= <-]. done.
    + intros _ u. simpl. rewrite lookup_insert_eq. intros [= <-]. done.
  - do 2 eexists. split; [reflexivity|]. split; [done|]. split; [constructor|done].
Qed.

Lemma createAssistantMessage_inv t ctx c turn w :
  TurnInv turn w →
  ∃ turn' w' evs, createAssistantMessage t ctx c turn w = (Ok turn', w', evs) ∧
    TurnInv turn' w' ∧ assistantParts turn' = assistantParts turn ∧
    Forall (snapOk (assistantParts turn)) evs ∧
    (PendingOk t turn w → PendingOk t turn' w').
Proof.
  intros HI. destruct (createAssistantMessage_run t ctx c turn w) as (row & E & Hmd & _).
  rewrite E. do 3 eexists. split; [reflexivity|]. split; [|split; [|split]].
  - by apply TurnInv_created.
  - done.
  - repeat constructor. intros s. simpl. rewrite Hmd. simpl. intros [= <-]. done.
  - intros HP. eapply PendingOk_parts; [done| |]; done.
Qed.

Lemma bind_run {A B} (m : M A) (k : A → M B) w a w1 e1 :
  m w = (Ok a, w1, e1) →
  bind m k w = (result (k a w1), world (k a w1), e1 ++ events (k a w1)).
Proof.
  intros E. unfold bind, result, world, events. rewrite E.
  destruct (k a w1) as [[r w2] e2]. reflexivity.
Qed.

Lemma snapOk_mono ps ps' e : ps `prefix_of` ps' → snapOk ps e → snapOk ps' e.
Proof. intros Hp H s Hs. etrans; [by apply H|done]. Qed.

Lemma snapOk_none ps e : snapshotOf e = None → snapOk ps e.
Proof. intros H s. rewrite H. done. Qed.

(** Push of a part, then a scheduled write. *)
Lemma push_schedule_inv t ctx turn w p :
  TurnInv turn w → isUnsignedReasoning p = false →
  ∃ w' evs,
    (scheduleUpdate t ctx (push p turn) ;;; ret (push p turn, false)) w =
      (Ok (push p turn, false), w', evs) ∧
    TurnInv (push p turn) w' ∧
    (PendingOk t turn w →
     PendingOk t (push p turn) w' ∧
     Forall (snapOk (assistantParts (push p turn))) evs).
Proof.
  intros HI Hp.
  destruct (scheduleUpdate_inv t ctx (push p turn) w) as (w' & evs & E & HI' & Hs & HP).
  { by apply TurnInv_push. }
  rewrite (bind_run _ _ _ _ _ _ E). unfold ret, result, world, events. simpl.
  rewrite app_nil_r. do 2 eexists. split; [reflexivity|]. split; [done|].
  intros HP0. split; [|done]. apply HP.
  eapply PendingOk_parts; [done| |done]. simpl. by apply prefix_app_r.
Qed.

Lemma push_create_inv t ctx c turn w p :
  TurnInv turn w → isUnsignedReasoning p = false →
  ∃ turn' w' evs,
    (turn2 <- createAssistantMessage t ctx c (push p turn) ;; ret (turn2, false)) w =
      (Ok (turn', false), w', evs) ∧
    TurnInv turn' w' ∧
    assistantParts turn' = assistantParts turn ++ [p] ∧
    (PendingOk t turn w →
     PendingOk t turn' w' ∧ Forall (snapOk (assistantParts turn')) evs).
Proof.
  intros HI Hp.
  destruct (createAssistantMessage_inv t ctx c (push p turn) w)
    as (turn' & w' & evs & E & HI' & Hparts & Hs & HP).
  { by apply TurnInv_push. }
  rewrite (bind_run _ _ _ _ _ _ E). unfold ret, result, world, events. simpl.
  rewrite app_nil_r. do 3 eexists. split; [reflexivity|].
  rewrite Hparts. simpl. split; [done|]. split; [done|].
  intros HP0. split; [|done]. apply HP.
  eapply PendingOk_parts; [done| |done]. simpl. by apply prefix_app_r.
Qed.

(** The row written at an error event. *)
Lemma reduceChunk_error_run t ctx err fr turn w :
  TurnInv turn w →
  let turn1 :=
    push (ErrorPart (userFriendlyError err) fr) (set_failed (js_or fr "error") turn) in
  ∃ w1 e1,
    reduceChunk t ctx (error_chunk err fr) turn w =
      (Ok (turn1, true),
       set_queuedActions (delete t)
         (set_stopRequested (λ s, s ∖ {[t]})
            (set_activeStreams (delete t)
               (set_taskStatus (insert t FAILED) w1))),
       e1 ++ [EUpdateTaskStatus t FAILED; EEndStream t; EStopMCPManager t]) ∧
    match assistantMessageId turn with
    | Some id =>
        ∃ row,
          w1 = set_chatMessage (insert id row) (world (clear t w)) ∧
          metadata row =
            Some {| isStreaming := false; parts := assistantParts turn1;
                    usage := None; md_finishReason := finishReason turn1 |} ∧
          content row = fullContent (assistantParts turn1) ∧
          e1 = events (clear t w) ++ [EMessageUpdate id row]
    | None => w1 = w ∧ e1 = []
    end.
Proof.
  intros HI turn1. unfold reduceChunk. fold turn1.
  change (assistantMessageId turn1) with (assistantMessageId turn).
  destruct (assistantMessageId turn) as [id|] eqn:Hid.
  - destruct (inv_row _ _ HI id Hid) as [row Hrow].
    destruct (clear_frame t w) as (_ & _ & _ & _ & _ & _ & _ & Hdom).
    destruct (proj2 (Hdom id) (ex_intro _ row Hrow)) as [row' Hrow'].
    pose proof (clear_run t w) as Ec.
    munfold. unfold chatMessage_update. munfold. cbv beta iota.
    destruct (clear t w) as [[rc wc] ec]. injection Ec as -> Hwc Hec.
    unfold world in Hrow'. simpl in Hrow'.
    do 2 eexists. split.
    + rewrite Hrow'. mstep. simpl. reflexivity.
    + eexists. unfold world, events. simpl. split; [reflexivity|]. done.
  - exists w, []. split; [|done]. mstep. reflexivity.
Qed.

Lemma reduceChunk_inv t ctx chunk turn w :
  TurnInv turn w →
  ∃ turn' w' evs,
    reduceChunk t ctx chunk turn w = (Ok (turn', isError chunk), w', evs) ∧
    TurnInv turn' w' ∧
    assistantParts turn `prefix_of` assistantParts turn' ∧
    (PendingOk t turn w →
     PendingOk t turn' w' ∧ Forall (snapOk (assistantParts turn')) evs).
Proof.
  intros HI.
  destruct chunk as [c|r|s|d|id name args|id res|err fr|u|]; unfold reduceChunk, isError.
  - (* content *)
    destruct (truthy c) eqn:Hc; [|by do 3 eexists].
    cbv zeta. change (assistantSequence (push _ turn)) with (assistantSequence turn).
    destruct (assistantSequence turn) eqn:Hseq.
    + destruct (push_schedule_inv t ctx turn w (TextPart c) HI eq_refl)
        as (w' & evs & E & HI' & Hs).
      rewrite E. do 3 eexists. split; [reflexivity|]. split; [done|].
      split; [by apply prefix_app_r|done].
    + destruct (push_create_inv t ctx c turn w (TextPart c) HI eq_refl)
        as (turn' & w' & evs & E & HI' & Hp & Hs).
      rewrite E. do 3 eexists. split; [reflexivity|]. split; [done|].
      split; [|done]. rewrite Hp. by apply prefix_app_r.
  - (* reasoning *)
    destruct (truthy r) eqn:Hr; [|by do 3 eexists].
    cbv zeta. change (assistantSequence (set_reasoning _ _ turn)) with (assistantSequence turn).
    set (b' := {| rb_text := _; rb_signature := _ |}).
    assert (TurnInv
              (set_reasoning (Map_set (reasoningCounter turn) b' (activeReasoningParts turn))
                 (reasoningCounter turn) turn) w) as HI1.
    { destruct (open_block_cases turn w HI) as [[E G]|(b & E & G & Hs & Ht)].
      - rewrite E. simpl. apply TurnInv_open_reasoning; [done| |].
        + subst b'. rewrite G. done.
        + subst b'. rewrite G. simpl. done.
      - rewrite E. simpl. rewrite Nat.eqb_refl. apply TurnInv_open_reasoning; [done| |].
        + subst b'. rewrite G. done.
        + subst b'. rewrite G. simpl. by apply truthy_app_r. }
    destruct (assistantSequence turn) eqn:Hseq.
    + do 3 eexists. split; [reflexivity|]. split; [done|]. split; [done|].
      intros HP. split; [done|constructor].
    + destruct (createAssistantMessage_inv t ctx r _ w HI1)
        as (turn' & w' & evs & E & HI' & Hp & Hs & HP).
      rewrite (bind_run _ _ _ _ _ _ E). unfold ret, result, world, events. simpl.
      rewrite app_nil_r. do 3 eexists. split; [reflexivity|]. split; [done|].
      rewrite Hp. simpl. split; [done|]. simpl in Hs. intros HP0. split; [|done].
      apply HP. done.
  - (* reasoning signature *)
    destruct (truthy s) eqn:Hs; [|by do 3 eexists].
    destruct (open_block_cases turn w HI) as [[E G]|(b & E & G & Hsg & Ht)].
    + rewrite G. by do 3 eexists.
    + rewrite G. cbv zeta. rewrite E. simpl Map_delete. rewrite Nat.eqb_refl.
      set (p := reasoningPart _).
      assert (TurnInv (set_reasoning [] (S (reasoningCounter turn)) (push p turn)) w) as HI1.
      { apply TurnInv_no_reasoning. apply TurnInv_push; done. }
      destruct (scheduleUpdate_inv t ctx _ w HI1) as (w' & evs & E' & HI' & Hsn & HP).
      rewrite (bind_run _ _ _ _ _ _ E'). unfold ret, result, world, events. simpl.
      rewrite app_nil_r. do 3 eexists. split; [reflexivity|]. split; [done|].
      simpl. split; [by apply prefix_app_r|]. simpl in Hsn. intros HP0. split; [|done].
      apply HP. eapply PendingOk_parts; [done| |done]. simpl. by apply prefix_app_r.
  - (* redacted *)
    destruct (truthy d) eqn:Hc; [|by do 3 eexists].
    cbv zeta. change (assistantSequence (push _ turn)) with (assistantSequence turn).
    destruct (assistantSequence turn) eqn:Hseq.
    + destruct (push_schedule_inv t ctx turn w (RedactedReasoningPart d) HI eq_refl)
        as (w' & evs & E & HI' & Hs).
      rewrite E. do 3 eexists. split; [reflexivity|]. split; [done|].
      split; [by apply prefix_app_r|done].
    + destruct (push_create_inv t ctx "[Redacted reasoning]" turn w
                  (RedactedReasoningPart d) HI eq_refl)
        as (turn' & w' & evs & E & HI' & Hp & Hs).
      rewrite E. do 3 eexists. split; [reflexivity|]. split; [done|].
      split; [|done]. rewrite Hp. by apply prefix_app_r.
  - (* tool call *)
    cbv zeta.
    destruct (push_schedule_inv t ctx turn w (ToolCallPart id name args) HI eq_refl)
      as (w' & evs & E & HI' & Hs).
    rewrite E. do 3 eexists. split; [reflexivity|]. split; [done|].
    split; [by apply prefix_app_r|done].
  - (* tool result *)
    cbv zeta.
    destruct (push_schedule_inv t ctx turn w
                (ToolResultPart id (toolNameOf (correspondingCall id (assistantParts turn))) res)
                HI eq_refl)
      as (w' & evs & E & HI' & Hs).
    rewrite E. do 3 eexists. split; [reflexivity|]. split; [done|].
    split; [by apply prefix_app_r|done].
  - (* error *)
    destruct (reduceChunk_error_run t ctx err fr turn w HI) as (w1 & e1 & E & Hw).
    cbv zeta in E. unfold reduceChunk in E. rewrite E. do 3 eexists. split; [reflexivity|].
    assert (TurnInv (push (ErrorPart (userFriendlyError err) fr)
                         (set_failed (js_or fr "error") turn)) w) as HI1.
    { apply TurnInv_push; [|done]. by apply TurnInv_failed. }
    destruct (clear_frame t w) as (_ & _ & _ & _ & _ & _ & Hpend & Hdom).
    destruct (assistantMessageId turn) as [id|] eqn:Hid.
    + destruct Hw as (row & -> & Hmd & Hc & ->).
      split; [|split].
      * eapply TurnInv_world; [exact HI1|]; simpl.
        intros i Hi. rewrite lookup_insert_is_Some. destruct (decide (id = i)); [by left|].
        right. split; [done|]. by apply Hdom.
      * simpl. by apply prefix_app_r.
      * intros HP. split.
        { apply PendingOk_none. simpl. rewrite Hpend, lookup_delete_eq. done. }
        apply Forall_app. split; [apply Forall_app; split|].
        -- rewrite clear_run. unfold events. simpl. constructor; [by apply snapOk_none|].
           destruct clearWritesPending; [|constructor].
           rewrite writePending_run. simpl.
           destruct (pendingUpdates w !! t) as [u|] eqn:Hu; [|constructor].
           repeat constructor. intros s' [= <-]. simpl.
           apply prefix_app_r. by apply HP.
        -- repeat constructor. intros s'. simpl. rewrite Hmd. simpl. intros [= <-]. done.
        -- repeat constructor; by apply snapOk_none.
    + destruct Hw as [-> ->]. split; [|split].
      * eapply TurnInv_world; [exact HI1|]; simpl; auto.
      * simpl. by apply prefix_app_r.
      * intros HP. split.
        { eapply PendingOk_parts; [done| |done]. simpl. by apply prefix_app_r. }
        repeat constructor; by apply snapOk_none.
  - (* usage *)
    do 3 eexists. split; [reflexivity|]. split; [by apply TurnInv_usage|].
    split; [done|]. intros HP. split; [done|constructor].
  - do 3 eexists. split; [reflexivity|]. split; [done|]. split; [done|].
    intros HP. split; [done|constructor].
Qed.

Lemma string_app_nil_r (s : string) : s +:+ "" = s.
Proof.
  induction s as [|a s IH]; [done|].
  change (String a (s +:+ "") = String a s). by rewrite IH.
Qed.

Lemma string_app_assoc (a b c : string) : (a +:+ b) +:+ c = a +:+ (b +:+ c).
Proof.
  induction a as [|x a IH]; [done|].
  change (String x ((a +:+ b) +:+ c) = String x (a +:+ (b +:+ c))). by rewrite IH.
Qed.

Lemma truthy_false s : truthy s = false → s = "".
Proof. by destruct s. Qed.


Ltac chunk_run :=
  unfold reduceChunk, createAssistantMessage, saveAssistantMessage,
    getNextSequence, chatMessage_create, scheduleUpdate, scheduleAssistantUpdate;
  munfold; simpl.

Ltac track_solve Hids :=
  do 3 eexists; (split; [reflexivity|]); simpl;
  try match goal with H : assistantMessageId _ = _ |- _ => rewrite ?H end;
  repeat split; simpl; try done; eauto using string_app_nil_r;
  try (repeat constructor; fail);
  try (intros [?|?]; done); try (intros [[]|?]; done);
  try (by left); try (by right); try (eauto; fail);
  try (exfalso; destruct Hids as [_ Hids]; by specialize (Hids eq_refl)).

(** What an event other than an error leaves unchanged, and how it moves the
    local state of the turn. *)
Lemma reduceChunk_track t ctx chunk turn w :
  isError chunk = false → TurnInv turn w →
  ∃ turn' w' evs,
    reduceChunk t ctx chunk turn w = (Ok (turn', false), w', evs) ∧
    activeStreams w' = activeStreams w ∧ stopRequested w' = stopRequested w ∧
    queuedActions w' = queuedActions w ∧ taskStatus w' = taskStatus w ∧
    aborted w' = aborted w ∧
    Forall quiet evs ∧
    hasError turn' = hasError turn ∧
    (is_Some (assistantMessageId turn') ↔
       is_Some (assistantMessageId turn) ∨ createsRow chunk = true) ∧
    (is_Some (usageMetadata turn') ↔
       is_Some (usageMetadata turn) ∨ isUsage chunk = true) ∧
    openReasoning turn' =
      (if isSignature chunk then "" else openReasoning turn +:+ reasoningText chunk).
Proof.
  intros Herr HI.
  pose proof (inv_ids _ _ HI) as Hids.
  destruct chunk as [c|r|s|d|id name args|id res|err fr|u|]; try discriminate;
    unfold isSignature, createsRow, isUsage, reasoningText.
  - chunk_run. destruct (truthy c) eqn:Hc;
      destruct (assistantSequence turn) eqn:Hseq, (assistantMessageId turn) eqn:Hid;
      simpl; rewrite ?Hid; simpl; track_solve Hids.
  - chunk_run. unfold openReasoning.
    destruct (truthy r) eqn:Hr.
    + destruct (open_block_cases turn w HI) as [[E G]|(b & E & G & Hs & Ht)];
        rewrite G, E; simpl; rewrite ?Nat.eqb_refl;
        destruct (assistantSequence turn) eqn:Hseq, (assistantMessageId turn) eqn:Hid;
        simpl; rewrite ?Nat.eqb_refl; track_solve Hids.
      all: by rewrite Nat.eqb_refl.
    + apply truthy_false in Hr as ->. track_solve Hids.
  - chunk_run. unfold openReasoning.
    destruct (truthy s) eqn:Hs.
    + destruct (open_block_cases turn w HI) as [[E G]|(b & E & G & Hsg & Ht)];
        rewrite G.
      * track_solve Hids.
        by rewrite G.
      * rewrite ?E. simpl. rewrite ?Nat.eqb_refl.
        destruct (assistantMessageId turn) eqn:Hid; simpl; rewrite ?Nat.eqb_refl;
          track_solve Hids.
    + track_solve Hids.
  - chunk_run. destruct (truthy d) eqn:Hc;
      destruct (assistantSequence turn) eqn:Hseq, (assistantMessageId turn) eqn:Hid;
      simpl; rewrite ?Hid; simpl; track_solve Hids.
  - chunk_run. destruct (assistantMessageId turn) eqn:Hid; simpl; track_solve Hids.
  - chunk_run. destruct (assistantMessageId turn) eqn:Hid; simpl; track_solve Hids.
  - chunk_run. track_solve Hids.
  - chunk_run. track_solve Hids.
Qed.

(** *** The loop *)

Lemma reduceStream_cons t ctx chunk rest turn w :
  reduceStream t ctx (chunk :: rest) turn w =
  if bool_decide (t ∈ stopRequested w) then (Ok turn, w, [])
  else
    match reduceChunk t ctx chunk turn w with
    | (Ok (turn1, brk), w1, e1) =>
        if brk then (Ok turn1, w1, EEmitStreamChunk t chunk :: e1)
        else
          (result (reduceStream t ctx rest turn1 w1),
           world (reduceStream t ctx rest turn1 w1),
           EEmitStreamChunk t chunk :: e1 ++ events (reduceStream t ctx rest turn1 w1))
    | (Throw e, w1, e1) => (Throw e, w1, EEmitStreamChunk t chunk :: e1)
    end.
Proof.
  simpl. munfold. simpl.
  destruct (bool_decide (t ∈ stopRequested w)); [reflexivity|].
  destruct (reduceChunk t ctx chunk turn w) as [[[[turn1 brk]|e] w1] e1]; simpl; [|reflexivity].
  destruct brk; simpl.
  - rewrite app_nil_r. reflexivity.
  - unfold result, world, events.
    destruct (reduceStream t ctx rest turn1 w1) as [[r w2] e2]. reflexivity.
Qed.

(** Once a stop is requested, no further event is consumed. *)
Lemma reduceStream_stopped t ctx chunks turn w :
  t ∈ stopRequested w → reduceStream t ctx chunks turn w = (Ok turn, w, []).
Proof.
  intros Hs. destruct chunks as [|c rest]; [reflexivity|].
  rewrite reduceStream_cons. by rewrite bool_decide_eq_true_2.
Qed.

Lemma reduceStream_inv t ctx chunks : ∀ turn w,
  TurnInv turn w →
  ∃ turn' w' evs,
    reduceStream t ctx chunks turn w = (Ok turn', w', evs) ∧
    TurnInv turn' w' ∧
    assistantParts turn `prefix_of` assistantParts turn' ∧
    (PendingOk t turn w →
     PendingOk t turn' w' ∧ Forall (snapOk (assistantParts turn')) evs).
Proof.
  induction chunks as [|c rest IH]; intros turn w HI.
  - do 3 eexists. split; [reflexivity|]. split; [done|]. split; [done|].
    intros HP. split; [done|constructor].
  - rewrite reduceStream_cons.
    destruct (bool_decide (t ∈ stopRequested w)).
    { do 3 eexists. split; [reflexivity|]. split; [done|]. split; [done|].
      intros HP. split; [done|constructor]. }
    destruct (reduceChunk_inv t ctx c turn w HI) as (turn1 & w1 & e1 & E & HI1 & Hp1 & HP1).
    rewrite E. destruct (isError c).
    + do 3 eexists. split; [reflexivity|]. split; [done|]. split; [done|].
      intros HP. destruct (HP1 HP) as [? ?]. split; [done|].
      constructor; [by apply snapOk_none|done].
    + destruct (IH turn1 w1 HI1) as (turn2 & w2 & e2 & E2 & HI2 & Hp2 & HP2).
      rewrite E2. unfold result, world, events. simpl.
      do 3 eexists. split; [reflexivity|]. split; [done|]. split; [by etrans|].
      intros HP. destruct (HP1 HP) as [HPa Hsa]. destruct (HP2 HPa) as [HPb Hsb].
      split; [done|]. constructor; [by apply snapOk_none|].
      apply Forall_app. split; [|done].
      eapply Forall_impl; [exact Hsa|]. intros e. by apply snapOk_mono.
Qed.

Lemma filter_none {A} (P : A → Prop) `{∀ x, Decision (P x)} (l : list A) :
  Forall (λ x, ¬ P x) l → filter P l = [].
Proof.
  induction 1 as [|x l Hx _ IH]; [done|]. by rewrite filter_cons_False.
Qed.

Lemma quiet_calm e : quiet e → calm e.
Proof. intros (? & ? & ?). by split. Qed.

(** An error-free prefix of the stream is consumed in full when no stop is
    requested. *)
Lemma reduceStream_prefix t ctx pre : ∀ rest turn w,
  Forall (λ c, isError c = false) pre → t ∉ stopRequested w → TurnInv turn w →
  ∃ turn1 w1 e1,
    reduceStream t ctx (pre ++ rest) turn w =
      (result (reduceStream t ctx rest turn1 w1),
       world (reduceStream t ctx rest turn1 w1),
       e1 ++ events (reduceStream t ctx rest turn1 w1)) ∧
    TurnInv turn1 w1 ∧
    activeStreams w1 = activeStreams w ∧ stopRequested w1 = stopRequested w ∧
    queuedActions w1 = queuedActions w ∧ taskStatus w1 = taskStatus w ∧
    aborted w1 = aborted w ∧
    Forall calm e1 ∧
    filter (λ e, isEmit e = true) e1 = EEmitStreamChunk t <$> pre ∧
    hasError turn1 = hasError turn ∧
    (is_Some (assistantMessageId turn1) ↔
       is_Some (assistantMessageId turn) ∨ Exists (λ c, createsRow c = true) pre) ∧
    (is_Some (usageMetadata turn1) ↔
       is_Some (usageMetadata turn) ∨ Exists (λ c, isUsage c = true) pre) ∧
    openReasoning turn1 = pendingText (openReasoning turn) pre ∧
    assistantParts turn `prefix_of` assistantParts turn1.
Proof.
  induction pre as [|c pre IH]; intros rest turn w Hne Hstop HI.
  - exists turn, w, []. simpl.
    split; [unfold result, world, events; by destruct (reduceStream _ _ _ _ _) as [[??]?]|].
    split_and!; try done; try (by constructor).
    all: rewrite Exists_nil; (split; [by left|by intros [?|[]]]).
  - apply Forall_cons in Hne as [Hc Hne].
    destruct (reduceChunk_track t ctx c turn w Hc HI)
      as (turn' & w' & evs & E & Ha & Hs & Hq & Hts & Hab & Hquiet & Herr & Hid & Hus & Hopen).
    destruct (reduceChunk_inv t ctx c turn w HI) as (turn'' & w'' & evs'' & E' & HI' & Hp' & _).
    rewrite E in E'. rewrite Hc in E'. injection E' as <- <- <-.
    assert (t ∉ stopRequested w') as Hstop' by (by rewrite Hs).
    destruct (IH rest turn' w' Hne Hstop' HI')
      as (turn1 & w1 & e1 & E1 & HI1 & Ha1 & Hs1 & Hq1 & Hts1 & Hab1 & Hcalm1 & Hemit1 &
          Herr1 & Hid1 & Hus1 & Hopen1 & Hp1).
    exists turn1, w1, (EEmitStreamChunk t c :: evs ++ e1).
    split.
    { simpl app. rewrite reduceStream_cons. rewrite bool_decide_eq_false_2 by done.
      rewrite E. rewrite E1. unfold result, world, events. simpl.
      by rewrite app_assoc. }
    split; [done|].
    split_and!; try congruence.
    + constructor; [by split|]. apply Forall_app. split; [|done].
      eapply Forall_impl; [exact Hquiet|]. apply quiet_calm.
    + rewrite filter_cons_True by done. rewrite filter_app, Hemit1. simpl. f_equal.
      rewrite (filter_none (λ e, isEmit e = true) evs); [done|].
      eapply Forall_impl; [exact Hquiet|]. intros e (_ & _ & He). by rewrite He.
    + rewrite Hid1, Hid, Exists_cons.
      split; [intros [[?|?]|?]|intros [?|[?|?]]]; auto.
    + rewrite Hus1, Hus, Exists_cons.
      split; [intros [[?|?]|?]|intros [?|[?|?]]]; auto.
    + rewrite Hopen1, Hopen. reflexivity.
    + by etrans.
Qed.

(** *** The end of a turn *)


Lemma persistFinal_run t turn w :
  (∀ i, assistantMessageId turn = Some i → is_Some (chatMessage w !! i)) →
  ∃ w1 e1,
    persistFinal t turn w = (Ok tt, w1, e1) ∧
    activeStreams w1 = activeStreams w ∧ stopRequested w1 = stopRequested w ∧
    queuedActions w1 = queuedActions w ∧ taskStatus w1 = taskStatus w ∧
    aborted w1 = aborted w ∧
    Forall (λ e, isDispatch e = false ∧ isEmit e = false) e1 ∧
    (PendingOk t turn w → Forall (snapOk (assistantParts turn)) e1) ∧
    match assistantMessageId turn, usageMetadata turn with
    | Some i, Some u =>
        ∃ row old,
               immediateWrites e1 = [EMessageUpdate i row] ∧
               chatMessage w1 !! i = Some row ∧
               chatMessage w !! i = Some old ∧
               taskId row = taskId old ∧ sequence row = sequence old ∧
               role row = role old ∧
               content row = fullContent (assistantParts turn) ∧
               metadata row =
                 Some {| isStreaming := false; parts := assistantParts turn;
                         usage := Some u; md_finishReason := finishReason turn |}
    | _, _ => immediateWrites e1 = []
    end.
Proof.
  intros Hrow. unfold persistFinal.
  destruct (assistantMessageId turn) as [i|] eqn:Hid.
  2:{ exists w, []. split; [reflexivity|]. split_and!; try done; constructor. }
  destruct (Hrow i eq_refl) as [row0 Hrow0].
  destruct (clear_frame t w) as (Ha & Hs & Hq & Hts & Hab & _ & Hpend & Hdom).
  pose proof (clear_run t w) as Ec.
  pose proof (clear_shape t w) as Hsh.
  assert (Forall (λ e, isDispatch e = false ∧ isEmit e = false ∧ isImmediateWrite e = false)
            (events (clear t w)) ∧
          (PendingOk t turn w → Forall (snapOk (assistantParts turn)) (events (clear t w))))
    as [Hev Hsn].
  { rewrite Ec. unfold events. simpl. split.
    - constructor; [done|]. destruct clearWritesPending; [|constructor].
      rewrite writePending_run. simpl. destruct (pendingUpdates w !! t); repeat constructor.
    - intros HP. constructor; [by apply snapOk_none|].
      destruct clearWritesPending; [|constructor].
      rewrite writePending_run. simpl.
      destruct (pendingUpdates w !! t) as [u|] eqn:Hu; [|constructor].
      repeat constructor. intros s [= <-]. by apply HP. }
  munfold. unfold world, events in *.
  destruct (clear t w) as [[rc wc] ec]. injection Ec as -> _ _. simpl in *.
  destruct (proj2 (Hdom i) (ex_intro _ row0 Hrow0)) as [row' Hrow'].
  pose proof (Hsh i) as Hshi. rewrite Hrow0, Hrow' in Hshi.
  destruct Hshi as (Hsh1 & Hsh2 & Hsh3).
  destruct (usageMetadata turn) as [u|] eqn:Hu.
  - rewrite (chatMessage_update_run i _ wc row' Hrow').
    do 2 eexists. split; [reflexivity|]. simpl.
    split_and!; try done.
    + apply Forall_app. split.
      * eapply Forall_impl; [exact Hev|]. intros e (?&?&?). done.
      * repeat constructor.
    + intros HP. apply Forall_app. split; [by apply Hsn|].
      repeat constructor. intros s [= <-]. done.
    + exists (finalRow turn u row'), row0. split_and!; try done.
      * unfold immediateWrites. rewrite filter_app.
        rewrite (filter_none _ ec).
        2:{ eapply Forall_impl; [exact Hev|]. intros e (?&?&He). by rewrite He. }
        reflexivity.
      * by rewrite lookup_insert_eq.
  - rewrite flushAssistantUpdate_run. rewrite writePending_run.
    assert (pendingUpdates wc !! t = None) as Hn.
    { rewrite Hpend. apply lookup_delete_eq. }
    rewrite Hn. unfold world, events. simpl.
    do 2 eexists. split; [reflexivity|].
    split_and!; try done.
    + apply Forall_app. split.
      * eapply Forall_impl; [exact Hev|]. intros e (?&?&?). done.
      * repeat constructor.
    + intros HP. apply Forall_app. split; [by apply Hsn|].
      repeat constructor. by apply snapOk_none.
    + unfold immediateWrites. rewrite filter_app.
      rewrite (filter_none _ ec).
      2:{ eapply Forall_impl; [exact Hev|]. intros e (?&?&He). by rewrite He. }
      reflexivity.
Qed.

Lemma postCompletion_run t ctx ws turn w :
  ∃ e, postCompletion t ctx ws turn w = (Ok tt, w, e) ∧
       Forall quiet e ∧ Forall noSnapshot e.
Proof.
  unfold postCompletion, liftResult. munfold.
  destruct (commitChangesIfAny t ctx ws) as [[|]|err]; simpl;
    destruct (assistantMessageId turn); simpl;
    eexists; (split; [reflexivity|]); split; repeat constructor.
Qed.

Lemma concludeTurn_run t ctx ws stopped turn w :
  ∃ e,
    concludeTurn t ctx ws stopped turn w =
      (Ok tt,
       (if hasError turn then w
        else set_taskStatus (insert t (if stopped then STOPPED else COMPLETED)) w),
       e) ∧
    Forall quiet e ∧ Forall noSnapshot e.
Proof.
  unfold concludeTurn. destruct (hasError turn).
  { eexists. split; [reflexivity|]. split; repeat constructor. }
  destruct stopped.
  { eexists. split; [reflexivity|]. split; repeat constructor. }
  mstep.
  destruct (postCompletion_run t ctx ws turn
              (set_taskStatus (insert t COMPLETED) w)) as (e & E & Hq & Hs).
  rewrite E. eexists. split; [reflexivity|]. simpl.
  split; repeat constructor; done.
Qed.

Lemma releaseStream_run t w :
  releaseStream t w =
  (Ok tt, set_stopRequested (λ s, s ∖ {[t]}) (set_activeStreams (delete t) w),
   [EEndStream t; EStopMCPManager t]).
Proof. unfold releaseStream. mstep. reflexivity. Qed.

Lemma finalizeTurn_run t ctx ws turn0 w :
  (∀ i, assistantMessageId turn0 = Some i → is_Some (chatMessage w !! i)) →
  ∃ w1 e1 e2,
    persistFinal t (finalizeReasoning turn0) w = (Ok tt, w1, e1) ∧
    finalizeTurn t ctx ws turn0 w =
      (Ok (finalizeReasoning turn0),
       set_stopRequested (λ s, s ∖ {[t]})
         (set_activeStreams (delete t)
            (if hasError turn0 then w1
             else set_taskStatus
                    (insert t (if bool_decide (t ∈ stopRequested w)
                               then STOPPED else COMPLETED)) w1)),
       e1 ++ e2 ++ [EEndStream t; EStopMCPManager t]) ∧
    Forall quiet e2 ∧ Forall noSnapshot e2.
Proof.
  intros Hrow.
  destruct (persistFinal_run t (finalizeReasoning turn0) w Hrow) as (w1 & e1 & E1 & _).
  destruct (concludeTurn_run t ctx ws (bool_decide (t ∈ stopRequested w))
              (finalizeReasoning turn0) w1) as (e2 & E2 & Hq & Hs).
  exists w1, e1, e2. split; [done|]. split; [|done].
  unfold finalizeTurn. munfold. cbv zeta. rewrite E1. cbv beta iota.
  rewrite E2. cbv beta iota. rewrite releaseStream_run. simpl.
  reflexivity.
Qed.

Lemma processQueuedActions_run t w :
  processQueuedActions t w =
  match queuedActions w !! t with
  | None => (Ok tt, w, [])
  | Some a =>
      (Ok tt,
       world (dispatchQueuedAction t a (set_queuedActions (delete t) w)),
       events (dispatchQueuedAction t a (set_queuedActions (delete t) w)))
  end.
Proof.
  unfold processQueuedActions. munfold. simpl.
  destruct (queuedActions w !! t) as [a|]; [|reflexivity].
  unfold world, events.
  destruct (dispatchQueuedAction t a _) as [[[[]|e] w2] e2]; simpl;
    rewrite ?app_nil_r; reflexivity.
Qed.

Lemma streamTurnBody_run t ctx ws chunks w turn1 w1 e1 :
  reduceStream t ctx chunks initialTurn w = (Ok turn1, w1, e1) →
  streamTurnBody t ctx ws chunks w =
  (result (finalizeTurn t ctx ws turn1 w1), world (finalizeTurn t ctx ws turn1 w1),
   e1 ++ events (finalizeTurn t ctx ws turn1 w1)).
Proof. intros E. unfold streamTurnBody. by rewrite (bind_run _ _ _ _ _ _ E). Qed.

(** A turn never ends in the exception handler: the row it writes is the one
    it created. *)
Lemma streamTurnBody_ok t ctx ws chunks w :
  ∃ turn w' evs, streamTurnBody t ctx ws chunks w = (Ok turn, w', evs).
Proof.
  destruct (reduceStream_inv t ctx chunks initialTurn w (TurnInv_initial w))
    as (turn1 & w1 & e1 & E & HI & _).
  rewrite (streamTurnBody_run _ _ _ _ _ _ _ _ E).
  destruct (finalizeTurn_run t ctx ws turn1 w1 (inv_row _ _ HI)) as (w2 & e2 & e3 & _ & E2 & _).
  rewrite E2. unfold result, world, events. simpl. eauto.
Qed.

Lemma streamTurn_run t ctx ws chunks w turn w1 e1 :
  streamTurnBody t ctx ws chunks
    (set_activeStreams (insert t (nextController w)) (set_nextController S w)) =
    (Ok turn, w1, e1) →
  streamTurn t ctx ws chunks w =
  (Ok tt, world (processQueuedActions t w1),
   EStartStream t :: e1 ++ events (processQueuedActions t w1)).
Proof.
  intros E. unfold streamTurn. munfold. simpl. rewrite E.
  rewrite processQueuedActions_run. unfold world, events.
  destruct (queuedActions w1 !! t); simpl; reflexivity.
Qed.

(** ** Sequence allocation *)

Lemma foldr_max_bound (l : list Z) x :
  x ∈ l →
  ∃ m, foldr (λ s acc, Some (match acc with Some m => Z.max s m | None => s end))
             None l = Some m ∧ x ≤ m.
Proof.
  induction l as [|y l IH]; intros Hx; [by apply elem_of_nil in Hx|].
  apply elem_of_cons in Hx as [->|Hx]; simpl.
  - destruct (foldr _ None l); eexists; (split; [reflexivity|]); lia.
  - destruct (IH Hx) as (m & -> & Hm). eexists. split; [reflexivity|]. lia.
Qed.

(** The number handed out is above every sequence of the task in the table. *)
Lemma nextSequenceOf_above t rows k r :
  rows !! k = Some r → taskId r = t → sequence r < nextSequenceOf t rows.
Proof.
  intros Hk Ht.
  assert (sequence r ∈ taskSequences t rows) as Hin.
  { unfold taskSequences. apply list_elem_of_fmap. exists r. split; [done|].
    apply list_elem_of_filter. split; [done|].
    apply list_elem_of_fmap. exists (k, r). split; [done|].
    by apply elem_of_map_to_list. }
  destruct (foldr_max_bound _ _ Hin) as (m & Hm & Hle).
  unfold nextSequenceOf, lastSequence. rewrite Hm.
  destruct (m =? 0) eqn:E; [apply Z.eqb_eq in E|]; lia.
Qed.

Lemma createMessageWithAtomicSequence_run t d w :
  ∃ row,
    createMessageWithAtomicSequence t d w =
    (Ok (nextMessageId w, row),
     set_nextMessageId S (set_chatMessage (insert (nextMessageId w) row) w),
     [EMessageCreate (nextMessageId w) row]) ∧
    taskId row = t ∧ sequence row = nextSequenceOf t (chatMessage w).
Proof. eexists. split; [reflexivity|]. done. Qed.

(** When every caller goes through the fused operation, the numbers handed
    out grow strictly, in whichever order the callers' transactions are run,
    each as one step. *)
Lemma fused_allocations_increasing t steps : ∀ st,
  Forall (λ c, isFused c = true) steps →
  StronglySorted Z.lt (al_allocated st).*2 →
  Forall (λ z, z < nextSequenceOf t (chatMessage (al_world st))) (al_allocated st).*2 →
  StronglySorted Z.lt (al_allocated (fold_left (allocStep t) steps st)).*2.
Proof.
  induction steps as [|c steps IH]; intros st Hf Hs Hb; [done|].
  apply Forall_cons in Hf as [Hc Hf]. destruct c as [p|p|p]; try discriminate.
  cbn [fold_left]. apply IH; [done| |].
  - unfold allocStep.
    destruct (createMessageWithAtomicSequence_run t allocData (al_world st))
      as (row & -> & Ht & Hseq).
    simpl. rewrite fmap_app. apply StronglySorted_app_2; [|done|repeat constructor].
    intros x1 x2 H1 H2. simpl in H2. apply list_elem_of_singleton in H2 as ->.
    rewrite Forall_forall in Hb. rewrite Hseq. by apply Hb.
  - unfold allocStep.
    destruct (createMessageWithAtomicSequence_run t allocData (al_world st))
      as (row & -> & Ht & Hseq).
    simpl. rewrite fmap_app. simpl.
    assert (sequence row <
            nextSequenceOf t (<[nextMessageId (al_world st) := row]>
                                (chatMessage (al_world st)))) as Hlt.
    { eapply nextSequenceOf_above; [apply lookup_insert_eq|done]. }
    apply Forall_app. split.
    + eapply Forall_impl; [exact Hb|]. intros z Hz. simpl in Hz. lia.
    + by repeat constructor.
Qed.

Lemma fused_allocations_distinct t w steps :
  Forall (λ c, isFused c = true) steps →
  StronglySorted Z.lt (allocatedSequences (runAllocations t w steps)).
Proof.
  intros Hf. unfold allocatedSequences, runAllocations.
  apply fused_allocations_increasing; [done|constructor|constructor].
Qed.

(** C1, at the failing schedule.  Two callers of the standalone allocator
    whose read-only transactions both commit before either inserts are given
    the same number, and the table ends with two rows of the task under that
    sequence. *)
Theorem standalone_allocator_hands_out_duplicate :
  let st := runAllocations "t" emptyWorld
              [StandaloneRead 1; StandaloneRead 2;
               StandaloneInsert 1; StandaloneInsert 2] in
  allocatedSequences st = [1; 1] ∧
  (sequence <$> (map_to_list (chatMessage (al_world st))).*2) = [1; 1] ∧
  ¬ StronglySorted Z.lt (allocatedSequences st).
Proof.
  split; [reflexivity|]. split; [reflexivity|].
  intros H. change (StronglySorted Z.lt [1; 1]) in H.
  apply StronglySorted_cons in H as [H _].
  apply Forall_cons in H as [H _]. lia.
Qed.

(** ** Tool results *)

Lemma correspondingCall_none id ps :
  (∀ name args, ToolCallPart id name args ∉ ps) →
  correspondingCall id ps = None.
Proof.
  unfold correspondingCall. induction ps as [|p ps IH]; intros H; [done|].
  simpl. destruct (isToolCallFor id p) eqn:Hp.
  - destruct p as [| | |i n a| |]; try done. simpl in Hp.
    apply bool_decide_eq_true_1 in Hp as ->.
    exfalso. apply (H n a). by left.
  - apply IH. intros n a Hin. apply (H n a). by right.
Qed.

Lemma correspondingCall_first id name args l1 l2 :
  (∀ n a, ToolCallPart id n a ∉ l1) →
  correspondingCall id (l1 ++ ToolCallPart id name args :: l2) =
  Some (ToolCallPart id name args).
Proof.
  unfold correspondingCall. induction l1 as [|p l1 IH]; intros H; simpl.
  - by rewrite bool_decide_eq_true_2.
  - destruct (isToolCallFor id p) eqn:Hp.
    + destruct p as [| | |i n a| |]; try done. simpl in Hp.
      apply bool_decide_eq_true_1 in Hp as ->.
      exfalso. apply (H n a). by left.
    + apply IH. intros n a Hin. apply (H n a). by right.
Qed.

(** C8. A tool-result event appends one tool-result part and raises no
    error.  The part carries the tool name of the first tool-call part with
    the same identifier in the accumulated parts, and the empty name when no
    tool-call part has that identifier. *)
Theorem tool_result_resolves_tool_name t ctx id res turn w :
  ∃ name w' evs,
    reduceChunk t ctx (tool_result_chunk id res) turn w =
      (Ok (push (ToolResultPart id name res) turn, false), w', evs) ∧
    assistantParts (push (ToolResultPart id name res) turn) =
      assistantParts turn ++ [ToolResultPart id name res] ∧
    ((∀ n a, ToolCallPart id n a ∉ assistantParts turn) → name = "") ∧
    (∀ n a l1 l2,
       assistantParts turn = l1 ++ ToolCallPart id n a :: l2 →
       (∀ n' a', ToolCallPart id n' a' ∉ l1) → name = n).
Proof.
  exists (toolNameOf (correspondingCall id (assistantParts turn))).
  unfold reduceChunk. cbv zeta.
  assert (∃ w' evs,
    (scheduleUpdate t ctx
       (push (ToolResultPart id
                (toolNameOf (correspondingCall id (assistantParts turn))) res) turn) ;;;
     ret (push (ToolResultPart id
                  (toolNameOf (correspondingCall id (assistantParts turn))) res) turn,
          false)) w =
    (Ok (push (ToolResultPart id
                 (toolNameOf (correspondingCall id (assistantParts turn))) res) turn,
         false), w', evs)) as (w' & evs & E).
  { munfold. rewrite scheduleUpdate_run. simpl.
    destruct (assistantMessageId turn); simpl; eauto. }
  exists w', evs. split; [exact E|]. split; [reflexivity|]. split.
  - intros H. by rewrite correspondingCall_none.
  - intros n a l1 l2 Hl H. rewrite Hl. by rewrite correspondingCall_first.
Qed.

(** ** Queued actions *)

(** C10. [processQueuedActions] never rejects.  With an empty slot it does
    nothing.  Otherwise the action is handed over once, to a state in which
    the slot has already been emptied, and the outcome is that of the
    hand-over with its error, if any, swallowed: nothing is put back. *)
Theorem queued_action_dequeued_once_errors_swallowed t w :
  result (processQueuedActions t w) = Ok tt ∧
  match queuedActions w !! t with
  | None =>
      world (processQueuedActions t w) = w ∧
      events (processQueuedActions t w) = []
  | Some a =>
      let w0 := set_queuedActions (delete t) w in
      queuedActions w0 !! t = None ∧
      world (processQueuedActions t w) = world (dispatchQueuedAction t a w0) ∧
      events (processQueuedActions t w) = events (dispatchQueuedAction t a w0)
  end.
Proof.
  rewrite processQueuedActions_run.
  destruct (queuedActions w !! t) as [a|]; simpl.
  - split; [done|]. split; [|done]. apply lookup_delete_eq.
  - done.
Qed.

(** ** Cleanup *)

Lemma cleanupTask_run t w :
  ∃ evs,
    cleanupTask t w =
    (Ok tt,
     world (clear t
              (set_queuedActions (delete t)
                 (match activeStreams w !! t with
                  | Some c => set_activeStreams (delete t) (set_aborted (union {[c]}) w)
                  | None => w
                  end))),
     evs).
Proof.
  unfold cleanupTask. munfold. simpl.
  destruct (activeStreams w !! t) as [c|]; mstep; simpl;
    rewrite clear_run; unfold world; simpl; eauto.
Qed.

Lemma World_eq (w1 w2 : World) :
  activeStreams w1 = activeStreams w2 → stopRequested w1 = stopRequested w2 →
  queuedActions w1 = queuedActions w2 → nextController w1 = nextController w2 →
  aborted w1 = aborted w2 → chatMessage w1 = chatMessage w2 →
  nextMessageId w1 = nextMessageId w2 → taskStatus w1 = taskStatus w2 →
  pendingUpdates w1 = pendingUpdates w2 → clock w1 = clock w2 → w1 = w2.
Proof. destruct w1, w2. simpl. intros. by subst. Qed.

Lemma clear_idle t w :
  pendingUpdates w !! t = None → world (clear t w) = w.
Proof.
  intros H. rewrite clear_run. unfold world. simpl.
  destruct clearWritesPending.
  - rewrite writePending_run, H. done.
  - apply World_eq; simpl; try done. by apply delete_id.
Qed.

(** C9. [cleanupTask] never rejects, and a second call in succession leaves
    the state as the first call left it. *)
Theorem cleanupTask_twice_is_noop t w :
  result (cleanupTask t w) = Ok tt ∧
  result (cleanupTask t (world (cleanupTask t w))) = Ok tt ∧
  world (cleanupTask t (world (cleanupTask t w))) = world (cleanupTask t w) ∧
  activeStreams (world (cleanupTask t w)) !! t = None ∧
  queuedActions (world (cleanupTask t w)) !! t = None ∧
  pendingUpdates (world (cleanupTask t w)) !! t = None.
Proof.
  destruct (cleanupTask_run t w) as (e1 & E1).
  set (w0 := set_queuedActions (delete t) _) in E1.
  assert (world (cleanupTask t w) = world (clear t w0)) as Hw by (by rewrite E1).
  assert (result (cleanupTask t w) = Ok tt) as Hr by (by rewrite E1).
  rewrite Hw. split; [done|].
  destruct (clear_frame t w0) as (Ha & _ & Hq & _ & _ & _ & Hp & _).
  assert (activeStreams (world (clear t w0)) !! t = None) as Hna.
  { rewrite Ha. subst w0. simpl. destruct (activeStreams w !! t) eqn:E; simpl; [|done].
    apply lookup_delete_eq. }
  assert (queuedActions (world (clear t w0)) !! t = None) as Hnq.
  { rewrite Hq. subst w0. simpl. apply lookup_delete_eq. }
  assert (pendingUpdates (world (clear t w0)) !! t = None) as Hnp.
  { rewrite Hp. apply lookup_delete_eq. }
  destruct (cleanupTask_run t (world (clear t w0))) as (e2 & E2). rewrite E2.
  unfold result, world at 1. simpl. split; [done|]. split; [|done].
  rewrite Hna. rewrite clear_idle.
  - apply World_eq; simpl; try done. by apply delete_id.
  - done.
Qed.

(** ** Stop *)

Lemma stopStream_run t w :
  let w1 := set_stopRequested (union {[t]}) w in
  let w2 := match activeStreams w !! t with
            | Some c => set_activeStreams (delete t) (set_aborted (union {[c]}) w1)
            | None => w1
            end in
  stopStream t w =
  (Ok tt,
   set_taskStatus (insert t STOPPED) (world (writePending t w2)),
   match activeStreams w !! t with Some c => [EAbort c] | None => [] end ++
   EBatchFlush t :: events (writePending t w2) ++
   [EStopMCPManager t; EUpdateTaskStatus t STOPPED]).
Proof.
  unfold stopStream. munfold. simpl.
  destruct (activeStreams w !! t) as [c|]; mstep; simpl;
    rewrite flushAssistantUpdate_run; mstep; unfold world, events; simpl;
    rewrite <- ?app_assoc; reflexivity.
Qed.

(** ** Edit *)

Lemma stopStream_shape t w :
  sameShape (chatMessage w) (chatMessage (world (stopStream t w))).
Proof.
  pose proof (stopStream_run t w) as E. cbv zeta in E. rewrite E.
  unfold world at 1. simpl.
  set (w2 := match activeStreams w !! t with Some _ => _ | None => _ end).
  replace (chatMessage w) with (chatMessage w2).
  - apply writePending_shape.
  - subst w2. by destruct (activeStreams w !! t).
Qed.

Lemma editStore_table t messageId newContent newModel w m :
  chatMessage w !! messageId = Some m →
  ∃ B,
    sameShape (chatMessage w) B ∧
    result (editStore t messageId newContent newModel w) = Ok tt ∧
    chatMessage (world (editStore t messageId newContent newModel w)) =
      filter (λ kr, ¬ (taskId kr.2 = t ∧ sequence m < sequence kr.2)) B.
Proof.
  intros Hm.
  assert (∃ wA eA,
    (match activeStreams w !! t with
     | Some _ => stopStream t
     | None => ret tt
     end) w = (Ok tt, wA, eA) ∧ sameShape (chatMessage w) (chatMessage wA))
    as (wA & eA & EA & HA).
  { destruct (activeStreams w !! t).
    - pose proof (stopStream_shape t w) as Hs.
      pose proof (stopStream_run t w) as E. cbv zeta in E.
      rewrite E in Hs |- *. unfold world at 1 in Hs. simpl in Hs. eauto.
    - exists w, []. split; [done|]. apply sameShape_refl. }
  pose proof (HA messageId) as Hk. rewrite Hm in Hk.
  destruct (chatMessage wA !! messageId) as [m1|] eqn:Hm1; [|done].
  destruct Hk as (Ht & Hs & Hro).
  exists (<[messageId := editedRow newContent newModel (clock wA) m1]> (chatMessage wA)).
  split.
  { eapply sameShape_trans; [exact HA|].
    eapply sameShape_insert; [exact Hm1| | |]; done. }
  assert (∃ w' evs,
    editStore t messageId newContent newModel w = (Ok tt, w', evs) ∧
    chatMessage w' =
      filter (λ kr, ¬ (taskId kr.2 = t ∧ sequence m < sequence kr.2))
        (<[messageId := editedRow newContent newModel (clock wA) m1]> (chatMessage wA)))
    as (w' & evs & E & Hc).
  { unfold editStore. unfold bind at 1, gets at 1. cbv beta iota.
    rewrite (bind_run _ _ _ _ _ _ EA).
    unfold clearQueuedAction, chatMessage_update, updateTaskActivity,
      chatMessage_deleteMany. munfold. simpl.
    rewrite Hm1. simpl. rewrite lookup_insert_eq. simpl.
    unfold result, world, events. simpl.
    do 2 eexists. split; [reflexivity|]. simpl. by rewrite <- Hs. }
  rewrite E. done.
Qed.

(** C7. Editing a stored message whose sequence is S removes every message
    of the task with a sequence above S, keeps every other message under its
    identifier, task and sequence, and adds none. *)
Theorem edit_deletes_exactly_later_messages t messageId newContent newModel w m :
  chatMessage w !! messageId = Some m →
  let w' := world (editStore t messageId newContent newModel w) in
  result (editStore t messageId newContent newModel w) = Ok tt ∧
  (∀ k row, chatMessage w !! k = Some row →
            taskId row = t → sequence m < sequence row →
            chatMessage w' !! k = None) ∧
  (∀ k row, chatMessage w !! k = Some row →
            ¬ (taskId row = t ∧ sequence m < sequence row) →
            ∃ row', chatMessage w' !! k = Some row' ∧
                    taskId row' = taskId row ∧ sequence row' = sequence row) ∧
  (∀ k, is_Some (chatMessage w' !! k) → is_Some (chatMessage w !! k)).
Proof.
  intros Hm w'.
  destruct (editStore_table t messageId newContent newModel w m Hm)
    as (B & Hshape & Hr & Htab).
  split; [done|]. subst w'. rewrite Htab. split_and!.
  - intros k row Hk Ht Hs. apply map_lookup_filter_None. right.
    intros row' Hk' Hkeep. simpl in Hkeep. apply Hkeep.
    specialize (Hshape k). rewrite Hk, Hk' in Hshape. destruct Hshape as (Ht' & Hs' & _).
    rewrite <- Ht', <- Hs'. done.
  - intros k row Hk Hkeep. specialize (Hshape k). rewrite Hk in Hshape.
    destruct (B !! k) as [row'|] eqn:Hk'; [|done]. destruct Hshape as (Ht & Hs & _).
    exists row'. split_and!; [|done|done].
    apply map_lookup_filter_Some. split; [done|]. simpl.
    rewrite <- Ht, <- Hs. done.
  - intros k [row' Hk']. apply map_lookup_filter_Some in Hk' as [Hk' _].
    specialize (Hshape k). rewrite Hk' in Hshape.
    destruct (chatMessage w !! k); [eauto|done].
Qed.

(** ** A message that arrives while a stream is active *)

(** The follow-up handling returns; all it changes is the status of a task
    whose workspace is inactive, and what it does depends on the answers of
    its collaborators only. *)
Lemma handleFollowUpLogic_run t :
  ∃ (b : bool) evs, ∀ w,
    handleFollowUpLogic t w =
    (Ok tt, if b then set_taskStatus (insert t INITIALIZING) w else w, evs).
Proof.
  unfold handleFollowUpLogic, cancelTaskCleanup, await, updateTaskStatus.
  destruct (task_findUnique t) as [[[[] []]|]|e];
    destruct (cancelTaskCleanupFails t);
    first [ by (exists true; eexists; intros w; munfold; simpl; reflexivity)
          | by (exists false; eexists; intros w; munfold; simpl; reflexivity) ].
Qed.


(** The follow-up handling records INITIALIZING exactly for a task that is
    found with an inactive workspace and whose scheduled cleanup, if it has
    one, could be cancelled. *)
Lemma handleFollowUpLogic_exact t w :
  result (handleFollowUpLogic t w) = Ok tt ∧
  world (handleFollowUpLogic t w) =
    match task_findUnique t with
    | Ok (Some task) =>
        if initStatusInactive task &&
           negb (hasScheduledCleanup task && cancelTaskCleanupFails t)
        then set_taskStatus (insert t INITIALIZING) w
        else w
    | _ => w
    end.
Proof.
  unfold handleFollowUpLogic, cancelTaskCleanup, await, updateTaskStatus.
  destruct (task_findUnique t) as [[[[] []]|]|e];
    destruct (cancelTaskCleanupFails t);
    munfold; unfold result, world; simpl; done.
Qed.

Lemma handleFollowUpLogic_frame t w :
  let w' := world (handleFollowUpLogic t w) in
  result (handleFollowUpLogic t w) = Ok tt ∧
  activeStreams w' = activeStreams w ∧ stopRequested w' = stopRequested w ∧
  queuedActions w' = queuedActions w ∧ aborted w' = aborted w ∧
  chatMessage w' = chatMessage w ∧ pendingUpdates w' = pendingUpdates w ∧
  nextMessageId w' = nextMessageId w.
Proof.
  destruct (handleFollowUpLogic_run t) as (b & evs & E). rewrite E.
  unfold result, world. simpl. by destruct b.
Qed.

Lemma interruptOrQueue_queue_run t userMessage ctx ws meanwhile w c :
  activeStreams w !! t = Some c →
  interruptOrQueue t userMessage ctx ws true meanwhile w =
  (Ok Queued,
   set_queuedActions (insert t (QueuedMessageAction userMessage ctx ws)) w, []).
Proof. intros H. unfold interruptOrQueue. munfold. simpl. rewrite H. reflexivity. Qed.









Lemma processUserMessageInternal_run t userMessage ctx skip ws queue meanwhile sys chunks
    w a W evs :
  interruptOrQueue t userMessage ctx ws queue meanwhile
    (world (handleFollowUpLogic t w)) = (Ok a, W, evs) →
  _processUserMessageInternal t userMessage ctx skip ws queue meanwhile sys chunks w =
  match a with
  | Queued => (Ok tt, W, events (handleFollowUpLogic t w) ++ evs)
  | Proceed =>
      (result (beginTurn t userMessage ctx skip ws sys chunks W),
       world (beginTurn t userMessage ctx skip ws sys chunks W),
       events (handleFollowUpLogic t w) ++ evs ++
       events (beginTurn t userMessage ctx skip ws sys chunks W))
  end.
Proof.
  intros E. unfold _processUserMessageInternal.
  destruct (handleFollowUpLogic_run t) as (b & e0 & E0).
  rewrite (bind_run _ _ _ _ _ _ (E0 w)).
  rewrite E0 in E. unfold world at 1 in E. cbv beta iota in E.
  rewrite E0. unfold events at 2 4. cbv beta iota.
  rewrite (bind_run _ _ _ _ _ _ E).
  destruct a; [|reflexivity]. unfold ret, result, world, events. simpl.
  by rewrite app_nil_r.
Qed.

(** ** Order of the parts *)

(** Consuming more events only appends to the parts. *)
Lemma reduceStream_app_prefix t ctx chunks1 chunks2 : ∀ turn w,
  TurnInv turn w →
  ∃ turn1 turn2,
    result (reduceStream t ctx chunks1 turn w) = Ok turn1 ∧
    result (reduceStream t ctx (chunks1 ++ chunks2) turn w) = Ok turn2 ∧
    assistantParts turn1 `prefix_of` assistantParts turn2.
Proof.
  induction chunks1 as [|c rest IH]; intros turn w HI.
  - destruct (reduceStream_inv t ctx chunks2 turn w HI) as (turn2 & w2 & e2 & E & _ & Hp & _).
    exists turn, turn2. simpl app. rewrite E. done.
  - simpl app. rewrite !reduceStream_cons.
    destruct (bool_decide (t ∈ stopRequested w)).
    { exists turn, turn. done. }
    destruct (reduceChunk_inv t ctx c turn w HI) as (turn' & w' & evs & E & HI' & _).
    rewrite E. destruct (isError c).
    { exists turn', turn'. done. }
    destruct (IH turn' w' HI') as (turn1 & turn2 & E1 & E2 & Hp).
    exists turn1, turn2. done.
Qed.

Lemma elem_of_snapshots s evs :
  s ∈ snapshots evs ↔ ∃ e, e ∈ evs ∧ snapshotOf e = Some s.
Proof. unfold snapshots. apply list_elem_of_omap. Qed.

(** What an event appends, and what it does to the open reasoning block. *)
Lemma reduceChunk_parts t ctx chunk turn w :
  isError chunk = false → TurnInv turn w →
  ∃ turn' w' evs,
    reduceChunk t ctx chunk turn w = (Ok (turn', false), w', evs) ∧
    assistantParts turn' =
      assistantParts turn ++
      arrivalPart (assistantParts turn) (openReasoning turn) chunk.
Proof.
  intros Herr HI.
  destruct chunk as [c|r|s|d|id name args|id res|err fr|u|]; try discriminate;
    unfold arrivalPart.
  - chunk_run. destruct (truthy c) eqn:Hc;
      destruct (assistantSequence turn) eqn:Hseq, (assistantMessageId turn) eqn:Hid;
      simpl; rewrite ?Hid; simpl;
      do 3 eexists; (split; [reflexivity|]); simpl; rewrite ?app_nil_r; done.
  - chunk_run. destruct (truthy r) eqn:Hr;
      destruct (assistantSequence turn) eqn:Hseq, (assistantMessageId turn) eqn:Hid;
      simpl; rewrite ?Hid; simpl;
      do 3 eexists; (split; [reflexivity|]); simpl; rewrite ?app_nil_r; done.
  - chunk_run. unfold openReasoning.
    destruct (truthy s) eqn:Hs.
    + destruct (open_block_cases turn w HI) as [[E G]|(b & E & G & Hsg & Ht)];
        rewrite G.
      * do 3 eexists. split; [reflexivity|]. simpl. by rewrite app_nil_r.
      * rewrite Ht. destruct (assistantMessageId turn) eqn:Hid; simpl;
          do 3 eexists; (split; [reflexivity|]); done.
    + do 3 eexists. split; [reflexivity|]. simpl. by rewrite app_nil_r.
  - chunk_run. destruct (truthy d) eqn:Hc;
      destruct (assistantSequence turn) eqn:Hseq, (assistantMessageId turn) eqn:Hid;
      simpl; rewrite ?Hid; simpl;
      do 3 eexists; (split; [reflexivity|]); simpl; rewrite ?app_nil_r; done.
  - chunk_run. destruct (assistantMessageId turn) eqn:Hid; simpl;
      do 3 eexists; (split; [reflexivity|]); done.
  - chunk_run. destruct (assistantMessageId turn) eqn:Hid; simpl;
      do 3 eexists; (split; [reflexivity|]); done.
  - chunk_run. do 3 eexists. split; [reflexivity|]. simpl. by rewrite app_nil_r.
  - chunk_run. do 3 eexists. split; [reflexivity|]. simpl. by rewrite app_nil_r.
Qed.

(** The loop appends what the events it consumes append, in their order. *)
Lemma reduceStream_parts t ctx chunks : ∀ turn w,
  TurnInv turn w → t ∉ stopRequested w →
  ∃ turn' w' evs,
    reduceStream t ctx chunks turn w = (Ok turn', w', evs) ∧
    TurnInv turn' w' ∧
    (assistantParts turn', openReasoning turn') =
      arrivalParts (assistantParts turn) (openReasoning turn) (consumed chunks).
Proof.
  induction chunks as [|c rest IH]; intros turn w HI Hstop.
  - exists turn, w, []. done.
  - rewrite reduceStream_cons. rewrite bool_decide_eq_false_2 by done.
    destruct (reduceChunk_inv t ctx c turn w HI) as (turn1 & w1 & e1 & E & HI1 & _).
    rewrite E. simpl consumed. destruct (isError c) eqn:Herr.
    + destruct c as [| | | | | |err fr| |]; try discriminate.
      destruct (reduceChunk_error_run t ctx err fr turn w HI) as (wx & ex & Ex & _).
      rewrite Ex in E. injection E as <- _ _.
      do 3 eexists. split; [reflexivity|]. split; [done|].
      simpl. unfold openReasoning. simpl. by rewrite string_app_nil_r.
    + destruct (reduceChunk_parts t ctx c turn w Herr HI)
        as (turn1' & w1' & e1' & E' & Hparts).
      destruct (reduceChunk_track t ctx c turn w Herr HI)
        as (turn1'' & w1'' & e1'' & E'' & _ & Hs & _ & _ & _ & _ & _ & _ & _ & Hopen).
      rewrite E in E', E''.
      injection E' as <- <- <-. injection E'' as <- <- <-.
      destruct (IH turn1 w1 HI1) as (turn' & w' & evs & E2 & HI' & Hp);
        [by rewrite Hs|].
      rewrite E2. unfold result, world, events. simpl.
      do 3 eexists. split; [reflexivity|]. split; [done|].
      by rewrite Hp, Hparts, Hopen.
Qed.

(** The open reasoning block is appended at the end, unsigned. *)
Lemma finalizeReasoning_parts turn w :
  TurnInv turn w →
  assistantParts (finalizeReasoning turn) =
  assistantParts turn ++
  (if truthy (openReasoning turn) then [ReasoningPart (openReasoning turn) None]
   else []).
Proof.
  intros HI. unfold openReasoning. simpl.
  destruct (open_block_cases turn w HI) as [[E G]|(b & E & G & Hsg & Ht)];
    rewrite G, E; simpl; [done|].
  rewrite Ht. unfold reasoningPart. by rewrite Hsg.
Qed.

(** C2. While no stop is requested, every event that is consumed appends
    its part at the end of the list when it arrives, a reasoning event
    excepted: the text of the reasoning events is collected in an open block,
    whose part is appended when its signature arrives and otherwise at the
    end of the turn, behind the parts of the events that arrived in between.
    The list after any initial segment of the stream is the one these rules
    give, and a prefix of the final list, which holds no other part.  Every
    snapshot of the parts handed to the persistence layer during the turn
    (at the creation of the row, at a scheduled or flushed batched write, at
    an immediate write) is a prefix of the final list. *)
Theorem parts_follow_arrival_and_finalization t ctx ws chunks w :
  pendingUpdates w !! t = None →
  t ∉ stopRequested w →
  ∃ final,
    result (streamTurnBody t ctx ws chunks w) = Ok final ∧
    assistantParts final = finalParts chunks ∧
    (∀ s, s ∈ snapshots (events (streamTurnBody t ctx ws chunks w)) →
          s `prefix_of` assistantParts final) ∧
    (∀ chunks1 chunks2, chunks = chunks1 ++ chunks2 →
       ∃ turn1, result (reduceStream t ctx chunks1 initialTurn w) = Ok turn1 ∧
                assistantParts turn1 = (arrivalParts [] "" (consumed chunks1)).1 ∧
                assistantParts turn1 `prefix_of` assistantParts final).
Proof.
  intros Hpend Hstop.
  destruct (reduceStream_inv t ctx chunks initialTurn w (TurnInv_initial w))
    as (turn1 & w1 & e1 & E & HI & _ & HP).
  destruct (HP (PendingOk_none _ _ _ Hpend)) as [HP1 Hs1].
  rewrite (streamTurnBody_run _ _ _ _ _ _ _ _ E).
  destruct (finalizeTurn_run t ctx ws turn1 w1 (inv_row _ _ HI))
    as (w2 & e2 & e3 & E2 & E3 & _ & Hs3).
  destruct (persistFinal_run t (finalizeReasoning turn1) w1 (inv_row _ _ HI))
    as (w2' & e2' & E2' & _ & _ & _ & _ & _ & _ & Hs2 & _).
  rewrite E2 in E2'. injection E2' as <- <-.
  rewrite E3. unfold result, events. simpl fst. simpl snd.
  exists (finalizeReasoning turn1). split; [done|].
  assert (assistantParts turn1 `prefix_of` assistantParts (finalizeReasoning turn1)) as Hfin.
  { simpl. by apply prefix_app_r. }
  split; [|split].
  - destruct (reduceStream_parts t ctx chunks initialTurn w (TurnInv_initial w) Hstop)
      as (turn1' & w1' & e1' & E' & _ & Hp).
    rewrite E in E'. injection E' as <- <- <-.
    rewrite (finalizeReasoning_parts turn1 w1 HI). unfold finalParts.
    change (assistantParts initialTurn) with (@nil AssistantMessagePart) in Hp.
    change (openReasoning initialTurn) with "" in Hp.
    by rewrite <- Hp.
  - intros s Hs. apply elem_of_snapshots in Hs as (e & He & Hse).
    rewrite !elem_of_app in He. destruct He as [He|[He|[He|He]]].
    + rewrite Forall_forall in Hs1. etrans; [by apply (Hs1 e He)|done].
    + assert (PendingOk t (finalizeReasoning turn1) w1) as HPf.
      { eapply PendingOk_parts; [exact HP1|done|done]. }
      specialize (Hs2 HPf). rewrite Forall_forall in Hs2. by apply (Hs2 e He).
    + rewrite Forall_forall in Hs3. specialize (Hs3 e He).
      unfold noSnapshot in Hs3. congruence.
    + apply list_elem_of_In in He. simpl in He.
      destruct He as [<-|[<-|[]]]; discriminate.
  - intros chunks1 chunks2 ->.
    destruct (reduceStream_app_prefix t ctx chunks1 chunks2 initialTurn w (TurnInv_initial w))
      as (ta & tb & Ea & Eb & Hp).
    rewrite E in Eb. unfold result in Eb. simpl in Eb. injection Eb as <-.
    destruct (reduceStream_parts t ctx chunks1 initialTurn w (TurnInv_initial w) Hstop)
      as (ta' & wa' & ea' & Ea' & _ & Hpa).
    rewrite Ea' in Ea. unfold result in Ea. simpl in Ea. injection Ea as ->.
    change (assistantParts initialTurn) with (@nil AssistantMessagePart) in Hpa.
    change (openReasoning initialTurn) with "" in Hpa.
    exists ta. split; [by rewrite Ea'|]. split; [by rewrite <- Hpa|by etrans].
Qed.

(** ** Error events *)

Lemma immediateWrites_app e1 e2 :
  immediateWrites (e1 ++ e2) = immediateWrites e1 ++ immediateWrites e2.
Proof. apply filter_app. Qed.

Lemma dispatched_app e1 e2 : dispatched (e1 ++ e2) = dispatched e1 ++ dispatched e2.
Proof. apply filter_app. Qed.

Lemma immediateWrites_cons e l :
  immediateWrites (e :: l) =
  (if isImmediateWrite e then [e] else []) ++ immediateWrites l.
Proof.
  unfold immediateWrites. rewrite filter_cons.
  destruct (isImmediateWrite e); by case_decide.
Qed.

Lemma dispatched_cons e l :
  dispatched (e :: l) = (if isDispatch e then [e] else []) ++ dispatched l.
Proof.
  unfold dispatched. rewrite filter_cons.
  destruct (isDispatch e); by case_decide.
Qed.

Lemma calm_immediateWrites evs : Forall calm evs → immediateWrites evs = [].
Proof.
  intros H. apply filter_none. eapply Forall_impl; [exact H|].
  intros e [He _]. by rewrite He.
Qed.

Lemma calm_dispatched evs : Forall calm evs → dispatched evs = [].
Proof.
  intros H. apply filter_none. eapply Forall_impl; [exact H|].
  intros e [_ He]. by rewrite He.
Qed.

Lemma nodispatch_dispatched evs :
  Forall (λ e, isDispatch e = false ∧ isEmit e = false) evs → dispatched evs = [].
Proof.
  intros H. apply filter_none. eapply Forall_impl; [exact H|].
  intros e [He _]. by rewrite He.
Qed.

Lemma clear_events_calm t w : Forall calm (events (clear t w)).
Proof.
  rewrite clear_run. unfold events. simpl. constructor; [done|].
  destruct clearWritesPending; [|constructor].
  rewrite writePending_run. simpl. destruct (pendingUpdates w !! t); repeat constructor.
Qed.

(** The turn in which an error event is consumed, from the state [turn1]
    that the events before it have built. *)
Lemma error_turn_run t ctx ws err fr post turn1 w1 :
  t ∉ stopRequested w1 → TurnInv turn1 w1 →
  ∃ turnF wF evs,
    (turn <- reduceStream t ctx (error_chunk err fr :: post) turn1 ;;
     finalizeTurn t ctx ws turn) w1 = (Ok turnF, wF, evs) ∧
    taskStatus wF !! t = Some FAILED ∧
    queuedActions wF !! t = None ∧
    dispatched evs = [] ∧
    length (immediateWrites evs) =
      match assistantMessageId turn1, usageMetadata turn1 with
      | Some _, Some _ => 2%nat
      | Some _, None => 1%nat
      | None, _ => 0%nat
      end.
Proof.
  intros Hstop HI.
  destruct (reduceChunk_error_run t ctx err fr turn1 w1 HI) as (wx & ex & E & Hw).
  cbv zeta in E.
  set (turnE := push (ErrorPart (userFriendlyError err) fr)
                  (set_failed (js_or fr "error") turn1)) in *.
  destruct (reduceChunk_inv t ctx (error_chunk err fr) turn1 w1 HI)
    as (turn' & w' & evs' & E' & HI' & _).
  rewrite E in E'. injection E' as <- <- <-.
  set (wE := set_queuedActions _ _) in *.
  assert (reduceStream t ctx (error_chunk err fr :: post) turn1 w1 =
          (Ok turnE, wE,
           EEmitStreamChunk t (error_chunk err fr) ::
           ex ++ [EUpdateTaskStatus t FAILED; EEndStream t; EStopMCPManager t])) as Eloop.
  { rewrite reduceStream_cons. rewrite bool_decide_eq_false_2 by done. by rewrite E. }
  rewrite (bind_run _ _ _ _ _ _ Eloop).
  destruct (finalizeTurn_run t ctx ws turnE wE (inv_row _ _ HI'))
    as (wP & eP & e2 & EP & EF & Hq2 & _).
  destruct (persistFinal_run t (finalizeReasoning turnE) wE (inv_row _ _ HI'))
    as (wP' & eP' & EP' & _ & _ & HqP & HtsP & _ & HevP & _ & HwrP).
  rewrite EP in EP'. injection EP' as <- <-.
  rewrite EF. unfold result, world, events. simpl hasError. cbv iota. simpl.
  do 3 eexists. split; [reflexivity|]. simpl.
  split_and!.
  - rewrite HtsP. subst wE. simpl. apply lookup_insert_eq.
  - rewrite HqP. subst wE. simpl. apply lookup_delete_eq.
  - rewrite dispatched_cons, !dispatched_app. simpl.
    rewrite (nodispatch_dispatched eP HevP).
    rewrite (calm_dispatched e2).
    2:{ eapply Forall_impl; [exact Hq2|]. apply quiet_calm. }
    assert (dispatched ex = []) as ->; [|done].
    destruct (assistantMessageId turn1).
    + destruct Hw as (row & _ & _ & _ & ->). rewrite dispatched_app.
      rewrite (calm_dispatched _ (clear_events_calm t w1)). done.
    + by destruct Hw as [_ ->].
  - rewrite immediateWrites_cons, !immediateWrites_app. simpl.
    rewrite (calm_immediateWrites e2).
    2:{ eapply Forall_impl; [exact Hq2|]. apply quiet_calm. }
    rewrite !length_app. simpl.
    change (assistantMessageId (finalizeReasoning turnE)) with (assistantMessageId turn1) in HwrP.
    change (usageMetadata (finalizeReasoning turnE)) with (usageMetadata turn1) in HwrP.
    destruct (assistantMessageId turn1) as [i|].
    + destruct Hw as (row & _ & _ & _ & ->). rewrite immediateWrites_app.
      rewrite (calm_immediateWrites _ (clear_events_calm t w1)). simpl.
      destruct (usageMetadata turn1).
      * destruct HwrP as (row' & old & -> & _). done.
      * rewrite HwrP. done.
    + destruct Hw as [_ ->]. rewrite HwrP. done.
Qed.

Lemma bind_shift {A B} (m m' : M A) (k : A → M B) w w1 e1 :
  m w = (result (m' w1), world (m' w1), e1 ++ events (m' w1)) →
  bind m k w =
  (result (bind m' k w1), world (bind m' k w1), e1 ++ events (bind m' k w1)).
Proof.
  unfold bind, result, world, events. intros ->.
  destruct (m' w1) as [[[a|e] w2] e2]; simpl; [|done].
  destruct (k a w2) as [[r w3] e3]. simpl. by rewrite app_assoc.
Qed.

(** The number of immediate writes of a turn in which an error event is
    consumed: none when no row was created, one at the error event, and one
    more at the end of the turn when usage was observed before the error. *)
Lemma error_stream_run t ctx ws pre err fr post w :
  t ∉ stopRequested w → Forall (λ c, isError c = false) pre →
  let r := streamTurn t ctx ws (pre ++ error_chunk err fr :: post) w in
  result r = Ok tt ∧
  taskStatus (world r) !! t = Some FAILED ∧
  queuedActions (world r) !! t = None ∧
  dispatched (events r) = [] ∧
  length (immediateWrites (events r)) =
    if decide (Exists (λ c, createsRow c = true) pre) then
      if decide (Exists (λ c, isUsage c = true) pre) then 2%nat else 1%nat
    else 0%nat.
Proof.
  intros Hstop Hpre r. subst r.
  set (W0 := set_activeStreams (insert t (nextController w)) (set_nextController S w)).
  assert (t ∉ stopRequested W0) as Hstop0 by done.
  destruct (reduceStream_prefix t ctx pre (error_chunk err fr :: post) initialTurn W0
              Hpre Hstop0 (TurnInv_initial W0))
    as (turn1 & w1 & e1 & E1 & HI1 & _ & Hs1 & _ & _ & _ & Hcalm1 & _ & _ & Hid1 & Hus1 & _).
  assert (t ∉ stopRequested w1) as Hstop1 by (by rewrite Hs1).
  destruct (error_turn_run t ctx ws err fr post turn1 w1 Hstop1 HI1)
    as (turnF & wF & evs & EF & Hts & Hq & Hd & Hn).
  assert (streamTurnBody t ctx ws (pre ++ error_chunk err fr :: post) W0 =
          (Ok turnF, wF, e1 ++ evs)) as Ebody.
  { unfold streamTurnBody. rewrite (bind_shift _ _ _ _ _ _ E1). by rewrite EF. }
  rewrite (streamTurn_run _ _ _ _ _ _ _ _ Ebody).
  rewrite processQueuedActions_run, Hq. unfold result, world, events. simpl.
  split_and!; try done.
  - rewrite app_nil_r, dispatched_cons, dispatched_app. simpl.
    by rewrite (calm_dispatched _ Hcalm1), Hd.
  - rewrite app_nil_r, immediateWrites_cons, immediateWrites_app. simpl.
    rewrite (calm_immediateWrites _ Hcalm1). simpl. rewrite Hn.
    simpl in Hid1, Hus1.
    destruct (decide (Exists (λ c, createsRow c = true) pre)) as [Hc|Hc].
    + destruct (proj2 Hid1 (or_intror Hc)) as [i ->].
      destruct (decide (Exists (λ c, isUsage c = true) pre)) as [Hu|Hu].
      * by destruct (proj2 Hus1 (or_intror Hu)) as [u ->].
      * destruct (usageMetadata turn1) eqn:Eu; [|done].
        destruct (proj1 Hus1 (ex_intro _ _ eq_refl)) as [[? [=]]|?]; done.
    + destruct (assistantMessageId turn1) eqn:Ei; [|done].
      destruct (proj1 Hid1 (ex_intro _ _ eq_refl)) as [[? [=]]|?]; done.
Qed.

(** C3, amended.  When an error event is consumed, the turn ends without an
    exception, the task status is Failed, the queue slot of the task is empty
    and no queued action is handed over for processing, whatever was queued.
    If no assistant row had been created when the error arrived, no immediate
    write is performed; if one had been created and no usage event preceded
    the error, exactly one immediate write is performed. *)
Theorem error_event_fails_turn t ctx ws pre err fr post w :
  t ∉ stopRequested w → Forall (λ c, isError c = false) pre →
  let r := streamTurn t ctx ws (pre ++ error_chunk err fr :: post) w in
  result r = Ok tt ∧
  taskStatus (world r) !! t = Some FAILED ∧
  queuedActions (world r) !! t = None ∧
  dispatched (events r) = [] ∧
  (Forall (λ c, createsRow c = false) pre → immediateWrites (events r) = []) ∧
  (Exists (λ c, createsRow c = true) pre → Forall (λ c, isUsage c = false) pre →
   length (immediateWrites (events r)) = 1%nat).
Proof.
  intros Hstop Hpre r.
  destruct (error_stream_run t ctx ws pre err fr post w Hstop Hpre)
    as (Hr & Hts & Hq & Hd & Hn).
  fold r in Hr, Hts, Hq, Hd, Hn.
  split_and!; try done.
  - intros Hnone. destruct (decide (Exists _ pre)) as [Hc|_] in Hn.
    + exfalso. apply Exists_exists in Hc as (c & Hin & Hc).
      rewrite Forall_forall in Hnone. specialize (Hnone c Hin). congruence.
    + by apply length_zero_iff_nil.
  - intros Hc Hnu. destruct (decide (Exists (λ c, createsRow c = true) pre)) in Hn; [|done].
    destruct (decide (Exists (λ c, isUsage c = true) pre)) as [Hu|_] in Hn; [|done].
    exfalso. apply Exists_exists in Hu as (c & Hin & Hu).
    rewrite Forall_forall in Hnu. specialize (Hnu c Hin). congruence.
Qed.

(** ** Reasoning without signature *)

Lemma pendingText_app acc l1 l2 :
  pendingText acc (l1 ++ l2) = pendingText (pendingText acc l1) l2.
Proof. apply fold_left_app. Qed.

Lemma pendingText_unsigned acc tail :
  Forall (λ c, isSignature c = false) tail →
  pendingText acc tail = acc +:+ join (reasoningText <$> tail).
Proof.
  intros H. revert acc. induction H as [|c tail Hc _ IH]; intros acc.
  - simpl. by rewrite string_app_nil_r.
  - simpl. rewrite Hc. rewrite IH. unfold join. simpl. by rewrite string_app_assoc.
Qed.

Lemma pendingText_after_signature pre :
  pre = [] ∨ (∃ pre' c, pre = pre' ++ [c] ∧ isSignature c = true) →
  pendingText "" pre = "".
Proof.
  intros [->|(pre' & c & -> & Hc)]; [done|].
  rewrite pendingText_app. simpl. by rewrite Hc.
Qed.

Lemma truthy_app_l a b : truthy a = true → truthy (a +:+ b) = true.
Proof. by destruct a. Qed.

Lemma truthy_join tail :
  Exists (λ c, truthy (reasoningText c) = true) tail →
  truthy (join (reasoningText <$> tail)) = true.
Proof.
  induction 1 as [c tail Hc|c tail _ IH]; unfold join; simpl.
  - by apply truthy_app_l.
  - by apply truthy_app_r.
Qed.

(** The reasoning block that is open when the stream ends, normally or at an
    error event, is appended as one unsigned reasoning part. *)
Lemma open_reasoning_finalized t ctx ws chunks rest w :
  t ∉ stopRequested w → Forall (λ c, isError c = false) chunks →
  rest = [] ∨ (∃ err fr post, rest = error_chunk err fr :: post) →
  truthy (pendingText "" chunks) = true →
  ∃ final ps,
    result (streamTurnBody t ctx ws (chunks ++ rest) w) = Ok final ∧
    assistantParts final = ps ++ [ReasoningPart (pendingText "" chunks) None] ∧
    Forall (λ p, isUnsignedReasoning p = false) ps.
Proof.
  intros Hstop Hne Hrest Htext.
  destruct (reduceStream_prefix t ctx chunks rest initialTurn w Hne Hstop (TurnInv_initial w))
    as (turn1 & w1 & e1 & E1 & HI1 & _ & Hs1 & _ & _ & _ & _ & _ & _ & _ & _ & Hopen & _).
  change (openReasoning initialTurn) with "" in Hopen.
  assert (∃ turnL wL eL,
            reduceStream t ctx rest turn1 w1 = (Ok turnL, wL, eL) ∧
            TurnInv turnL wL ∧ openReasoning turnL = openReasoning turn1)
    as (turnL & wL & eL & EL & HIL & HopenL).
  { destruct Hrest as [->|(err & fr & post & ->)].
    - exists turn1, w1, []. done.
    - rewrite reduceStream_cons. rewrite bool_decide_eq_false_2 by (by rewrite Hs1).
      destruct (reduceChunk_error_run t ctx err fr turn1 w1 HI1) as (wx & ex & E & _).
      destruct (reduceChunk_inv t ctx (error_chunk err fr) turn1 w1 HI1)
        as (turn' & w' & evs' & E' & HI' & _).
      cbv zeta in E. rewrite E in E'. injection E' as <- <- <-.
      rewrite E. do 3 eexists. split; [reflexivity|]. done. }
  rewrite EL in E1. unfold result, world, events in E1. simpl in E1.
  rewrite (streamTurnBody_run _ _ _ _ _ _ _ _ E1).
  destruct (finalizeTurn_run t ctx ws turnL wL (inv_row _ _ HIL)) as (w2 & e2 & e3 & _ & E2 & _).
  rewrite E2. unfold result. simpl.
  exists (finalizeReasoning turnL), (assistantParts turnL).
  split; [done|]. split; [|exact (inv_signed _ _ HIL)].
  rewrite <- HopenL in Hopen. unfold openReasoning in Hopen.
  destruct (open_block_cases turnL wL HIL) as [[E G]|(b & E & G & Hsg & Ht)].
  - rewrite G in Hopen. rewrite <- Hopen in Htext. done.
  - rewrite G in Hopen. simpl. rewrite E. simpl. unfold reasoningPart.
    by rewrite Hsg, Hopen.
Qed.

(** C6, amended.  When the events consumed after the last signature (or
    after the start of the stream) include reasoning with non-empty text, the
    turn ends, at the end of the stream or at an error event, with one more
    part: an unsigned reasoning part that holds the concatenation of the
    reasoning texts of those events.  It is the only unsigned reasoning
    part. *)
Theorem unsigned_reasoning_finalized_at_end t ctx ws pre tail rest w :
  t ∉ stopRequested w →
  Forall (λ c, isError c = false) (pre ++ tail) →
  rest = [] ∨ (∃ err fr post, rest = error_chunk err fr :: post) →
  pre = [] ∨ (∃ pre' c, pre = pre' ++ [c] ∧ isSignature c = true) →
  Forall (λ c, isSignature c = false) tail →
  Exists (λ c, truthy (reasoningText c) = true) tail →
  ∃ final ps,
    result (streamTurnBody t ctx ws ((pre ++ tail) ++ rest) w) = Ok final ∧
    assistantParts final =
      ps ++ [ReasoningPart (join (reasoningText <$> tail)) None] ∧
    Forall (λ p, isUnsignedReasoning p = false) ps.
Proof.
  intros Hstop Hne Hrest Hpre Htail Hex.
  assert (pendingText "" (pre ++ tail) = join (reasoningText <$> tail)) as Hpt.
  { rewrite pendingText_app, (pendingText_after_signature pre Hpre).
    by rewrite (pendingText_unsigned "" tail Htail). }
  destruct (open_reasoning_finalized t ctx ws (pre ++ tail) rest w Hstop Hne Hrest)
    as (final & ps & E & Hp & Hs).
  { rewrite Hpt. by apply truthy_join. }
  exists final, ps. by rewrite <- Hpt.
Qed.

(** ** A stream of two text events and usage *)

Local Arguments reduceStream : simpl never.

Lemma two_texts_loop t ctx u w :
  t ∉ stopRequested w →
  ∃ row1 u1,
    reduceStream t ctx [content_chunk "a"; content_chunk "b"; usage_chunk u]
      initialTurn w =
    (Ok {| assistantSequence := Some (nextSequenceOf t (chatMessage w));
           assistantMessageId := Some (nextMessageId w);
           assistantParts := [TextPart "a"; TextPart "b"];
           usageMetadata := Some u; finishReason := None; hasError := false;
           activeReasoningParts := []; reasoningCounter := 0%nat |},
     set_pendingUpdates (insert t u1)
       (set_nextMessageId S
          (set_chatMessage (insert (nextMessageId w) row1) w)),
     [EEmitStreamChunk t (content_chunk "a"); EMessageCreate (nextMessageId w) row1;
      EEmitStreamChunk t (content_chunk "b"); EScheduleAssistantUpdate t u1;
      EEmitStreamChunk t (usage_chunk u)]) ∧
    taskId row1 = t ∧ role row1 = ASSISTANT ∧
    pu_messageId u1 = nextMessageId w.
Proof.
  intros Hstop.
  do 2 eexists. split.
  - rewrite reduceStream_cons, bool_decide_eq_false_2 by done.
    chunk_run.
    rewrite reduceStream_cons. simpl stopRequested.
    rewrite bool_decide_eq_false_2 by done.
    chunk_run.
    rewrite reduceStream_cons. simpl stopRequested.
    rewrite bool_decide_eq_false_2 by done.
    chunk_run. unfold result, world, events. simpl. reflexivity.
  - done.
Qed.

(** C5. For the events content("a"), content("b"), usage(u), the row of the
    assistant message of the turn ends with the content "ab" and with
    exactly the two text parts, in order, marked as no longer streaming. *)
Theorem two_text_events_persisted t ctx ws u w :
  t ∉ stopRequested w → queuedActions w !! t = None →
  let r := streamTurn t ctx ws
             [content_chunk "a"; content_chunk "b"; usage_chunk u] w in
  result r = Ok tt ∧
  ∃ row,
    chatMessage (world r) !! nextMessageId w = Some row ∧
    taskId row = t ∧ role row = ASSISTANT ∧
    content row = "ab" ∧
    metadata row =
      Some {| isStreaming := false; parts := [TextPart "a"; TextPart "b"];
              usage := Some u; md_finishReason := None |}.
Proof.
  intros Hstop Hq r. subst r.
  set (W0 := set_activeStreams (insert t (nextController w)) (set_nextController S w)).
  destruct (two_texts_loop t ctx u W0) as (row1 & u1 & Eloop & Ht1 & Hr1 & _); [done|].
  simpl nextMessageId in Eloop. simpl chatMessage in Eloop.
  set (turn3 := {| assistantSequence := _ |}) in Eloop.
  set (w3 := set_pendingUpdates _ _) in Eloop.
  match type of Eloop with _ = (_, _, ?e) => set (e3 := e) in Eloop end.
  assert (∀ i, assistantMessageId turn3 = Some i → is_Some (chatMessage w3 !! i)) as Hrow.
  { intros i [= <-]. subst w3. simpl. rewrite lookup_insert_eq. eauto. }
  destruct (finalizeTurn_run t ctx ws turn3 w3 Hrow) as (w4 & e4 & e5 & EP & EF & _).
  destruct (persistFinal_run t (finalizeReasoning turn3) w3 Hrow)
    as (w4' & e4' & EP' & _ & _ & Hq4 & _ & _ & _ & _ & Hw).
  rewrite EP in EP'. injection EP' as <- <-.
  simpl in Hw. destruct Hw as (row & old & _ & Hrow4 & Hold & Hti & _ & Hro & Hc & Hmd).
  assert (old = row1) as ->.
  { subst w3. simpl in Hold. rewrite lookup_insert_eq in Hold. congruence. }
  assert (streamTurnBody t ctx ws
            [content_chunk "a"; content_chunk "b"; usage_chunk u] W0 =
          (Ok (finalizeReasoning turn3),
           set_stopRequested (λ s, s ∖ {[t]})
             (set_activeStreams (delete t)
                (set_taskStatus (insert t COMPLETED) w4)),
           (e3 ++ e4 ++ e5 ++ [EEndStream t; EStopMCPManager t]))) as Ebody.
  { rewrite (streamTurnBody_run _ _ _ _ _ _ _ _ Eloop). rewrite EF.
    unfold result, world, events. simpl.
    rewrite bool_decide_eq_false_2; [reflexivity|]. subst w3. done. }
  rewrite (streamTurn_run _ _ _ _ _ _ _ _ Ebody).
  rewrite processQueuedActions_run. simpl queuedActions. rewrite Hq4.
  subst w3. simpl queuedActions. rewrite Hq.
  unfold result, world. simpl. split; [done|].
  exists row. split_and!; try done; congruence.
Qed.

(** * Further properties *)

(** ** Sequence numbers *)

Lemma elem_of_taskSequences x t rows :
  x ∈ taskSequences t rows ↔
  ∃ k r, rows !! k = Some r ∧ taskId r = t ∧ sequence r = x.
Proof.
  unfold taskSequences. rewrite list_elem_of_fmap. split.
  - intros (r & -> & Hin). apply list_elem_of_filter in Hin as [Ht Hin].
    apply list_elem_of_fmap in Hin as ([k r'] & -> & Hin).
    apply elem_of_map_to_list in Hin. by exists k, r'.
  - intros (k & r & Hk & Ht & <-). exists r. split; [done|].
    apply list_elem_of_filter. split; [done|].
    apply list_elem_of_fmap. exists (k, r). split; [done|].
    by apply elem_of_map_to_list.
Qed.

Lemma foldr_max_spec (l : list Z) :
  match foldr (λ s acc, Some (match acc with Some m => Z.max s m | None => s end))
              None l with
  | Some m => m ∈ l ∧ Forall (λ x, x ≤ m) l
  | None => l = []
  end.
Proof.
  induction l as [|y l IH]; [done|]. simpl.
  destruct (foldr _ None l) as [m|].
  - destruct IH as [Hin Hall]. split.
    + destruct (Z.max_spec y m) as [[_ ->]|[_ ->]].
      * by apply elem_of_cons; right.
      * by apply elem_of_cons; left.
    + constructor; [lia|]. eapply Forall_impl; [exact Hall|]. simpl. lia.
  - subst l. split; [by apply elem_of_cons; left|]. by repeat constructor.
Qed.

(** A task without messages starts at 1. *)
Lemma nextSequenceOf_fresh t rows :
  (∀ k r, rows !! k = Some r → taskId r ≠ t) → nextSequenceOf t rows = 1.
Proof.
  intros Hno. unfold nextSequenceOf, lastSequence.
  pose proof (foldr_max_spec (taskSequences t rows)) as Hs.
  destruct (foldr _ None _) as [m|]; [|done].
  destruct Hs as [Hin _]. apply elem_of_taskSequences in Hin as (k & r & Hk & Ht & _).
  by destruct (Hno k r Hk).
Qed.

(** Once a row with the number handed out is in the table, the next number is
    the one after it. *)
Lemma nextSequenceOf_insert t rows i row :
  taskId row = t → sequence row = nextSequenceOf t rows →
  nextSequenceOf t (<[i := row]> rows) = nextSequenceOf t rows + 1.
Proof.
  intros Ht Hs.
  assert (∀ k r, rows !! k = Some r → taskId r = t → sequence r < sequence row)
    as Hbelow.
  { intros k r Hk Hr. rewrite Hs. by eapply nextSequenceOf_above. }
  rewrite <- Hs. clear Hs.
  unfold nextSequenceOf at 1. unfold lastSequence.
  pose proof (foldr_max_spec (taskSequences t (<[i := row]> rows))) as Hspec.
  destruct (foldr _ None _) as [m|].
  - destruct Hspec as [Hin Hall].
    assert (sequence row ≤ m) as Hle.
    { rewrite Forall_forall in Hall. apply Hall. apply elem_of_taskSequences.
      exists i, row. by rewrite lookup_insert_eq. }
    apply elem_of_taskSequences in Hin as (k & r & Hk & Hr & Hm).
    destruct (decide (k = i)) as [->|Hne].
    + rewrite lookup_insert_eq in Hk. injection Hk as <-. subst m.
      destruct (sequence row =? 0) eqn:E; [apply Z.eqb_eq in E|]; lia.
    + rewrite lookup_insert_ne in Hk by done.
      specialize (Hbelow _ _ Hk Hr). lia.
  - exfalso.
    assert (sequence row ∈ taskSequences t (<[i := row]> rows)) as Hin.
    { apply elem_of_taskSequences. exists i, row. by rewrite lookup_insert_eq. }
    rewrite Hspec in Hin. by apply elem_of_nil in Hin.
Qed.

(** With room for [n] allocations, the next number and the [n - 1] after it
    are numbers on which the code's arithmetic is exact. *)
Lemma nextSequenceOf_safe t n rows :
  safeSequences t n rows →
  - 2 ^ 53 < nextSequenceOf t rows ∧
  nextSequenceOf t rows + Z.of_nat n ≤ 2 ^ 53 + 1.
Proof.
  intros [Hn Hall]. unfold nextSequenceOf, lastSequence.
  pose proof (foldr_max_spec (taskSequences t rows)) as Hs.
  destruct (foldr _ None _) as [m|]; [|lia].
  destruct Hs as [Hin _]. rewrite Forall_forall in Hall.
  destruct (Hall m Hin) as [Hlo Hhi].
  destruct (m =? 0) eqn:E; [apply Z.eqb_eq in E|]; lia.
Qed.

Lemma fused_allocations_consecutive t steps : ∀ st,
  Forall (λ c, isFused c = true) steps →
  (al_allocated (fold_left (allocStep t) steps st)).*2 =
  (al_allocated st).*2 ++
  seqZ (nextSequenceOf t (chatMessage (al_world st))) (Z.of_nat (length steps)).
Proof.
  induction steps as [|c steps IH]; intros st Hf; cbn [fold_left].
  - simpl. by rewrite app_nil_r.
  - apply Forall_cons in Hf as [Hc Hf]. destruct c as [p|p|p]; try discriminate.
    rewrite IH by done. unfold allocStep.
    destruct (createMessageWithAtomicSequence_run t allocData (al_world st))
      as (row & -> & Ht & Hs).
    simpl al_allocated. simpl al_world. rewrite fmap_app, <- app_assoc. f_equal.
    simpl chatMessage.
    rewrite (nextSequenceOf_insert t _ _ row) by done.
    rewrite (seqZ_cons _ (Z.of_nat (length (FusedCreate p :: steps))))
      by (simpl; lia).
    simpl. rewrite Hs. do 2 f_equal. lia.
Qed.

(** X1. Fused creations that run one after the other, each transaction of
    [createMessageWithAtomicSequence] from its read to its insert before the
    next begins, hand out consecutive numbers, whoever the callers are and in
    whichever order they come: the first takes the number after the rows the
    task has, each further one the number after the one before.  This is for
    stored sequences on which the addition is exact: none of the numbers
    handed out exceeds 2^53.  A transaction is taken as one step; nothing is
    said on transactions that overlap. *)
Theorem serial_fused_allocations_are_consecutive t w steps :
  Forall (λ c, isFused c = true) steps →
  safeSequences t (length steps) (chatMessage w) →
  allocatedSequences (runAllocations t w steps) =
    seqZ (nextSequenceOf t (chatMessage w)) (Z.of_nat (length steps)) ∧
  Forall (λ s, - 2 ^ 53 < s ≤ 2 ^ 53)
         (allocatedSequences (runAllocations t w steps)).
Proof.
  intros Hf Hsafe. unfold allocatedSequences, runAllocations.
  rewrite fused_allocations_consecutive by done. simpl. split; [done|].
  destruct (nextSequenceOf_safe _ _ _ Hsafe) as [Hlo Hhi].
  apply Forall_forall. intros x Hx. apply elem_of_seqZ in Hx. lia.
Qed.

(** X2. Two messages of a task saved one after the other ([saveUserMessage],
    then [saveAssistantMessage] without a given sequence) carry consecutive
    sequence numbers; the first is above every sequence the task has in the
    table, and is 1 when the task has no message yet.  This is for stored
    sequences on which the addition is exact: neither number exceeds 2^53. *)
Theorem successive_saves_are_consecutive t c1 m1 md1 c2 m2 md2 w :
  safeSequences t 2 (chatMessage w) →
  ∃ id1 row1 id2 row2,
    result (saveUserMessage t c1 m1 md1 w) = Ok (id1, row1) ∧
    result (saveAssistantMessage t c2 m2 None md2
              (world (saveUserMessage t c1 m1 md1 w))) = Ok (id2, row2) ∧
    sequence row2 = sequence row1 + 1 ∧
    - 2 ^ 53 < sequence row1 ∧ sequence row2 ≤ 2 ^ 53 ∧
    (∀ k r, chatMessage w !! k = Some r → taskId r = t →
            sequence r < sequence row1) ∧
    ((∀ k r, chatMessage w !! k = Some r → taskId r ≠ t) → sequence row1 = 1) ∧
    role row1 = USER ∧ role row2 = ASSISTANT ∧
    content row1 = c1 ∧ content row2 = c2.
Proof.
  intros Hsafe. destruct (nextSequenceOf_safe _ _ _ Hsafe) as [Hlo Hhi].
  do 4 eexists. split_and!; try reflexivity.
  - simpl. by rewrite (nextSequenceOf_insert t) by done.
  - done.
  - simpl. rewrite (nextSequenceOf_insert t) by done. lia.
  - intros k r Hk Hr. simpl. by eapply nextSequenceOf_above.
  - intros Hno. simpl. by apply nextSequenceOf_fresh.
Qed.

(** ** The error handler *)

Lemma truthy_userFriendlyError err : truthy (userFriendlyError err) = true.
Proof.
  unfold userFriendlyError.
  destruct (includes _ "Too Many Requests" || includes _ "rate limit"); [done|].
  destruct (includes _ "Failed after 3 attempts"); [done|].
  destruct err as [[|a s]|]; done.
Qed.

(** X3. The error part the reducer appends for an error event always holds a
    text that is not empty, and the terminal reason the turn records is not
    empty either: an event without an error text or reason gets the default
    ones. *)
Theorem error_part_is_never_empty t ctx err fr turn w :
  TurnInv turn w →
  ∃ turn' w' evs message reason,
    reduceChunk t ctx (error_chunk err fr) turn w = (Ok (turn', true), w', evs) ∧
    assistantParts turn' = assistantParts turn ++ [ErrorPart message fr] ∧
    truthy message = true ∧
    finishReason turn' = Some reason ∧ truthy reason = true ∧
    hasError turn' = true ∧
    (err = None → message = "Unknown error occurred") ∧
    (fr = None → reason = "error").
Proof.
  intros Hinv.
  destruct (reduceChunk_error_run t ctx err fr turn w Hinv) as (w1 & e1 & Hrun & _).
  do 5 eexists. split; [exact Hrun|]. simpl. split_and!; try done.
  - apply truthy_userFriendlyError.
  - destruct fr as [[|a s]|]; done.
  - by intros ->.
  - by intros ->.
Qed.

(** ** The queue slot as the interface sees it *)

(** X4. A message queued while a stream is active is what [getQueuedAction]
    shows for the task, with the main model of its context; the slots of the
    other tasks are untouched, a second queued message replaces the first, and
    [clearQueuedAction] empties the slot.  An action whose model is empty is
    kept in the slot but not shown. *)
Theorem queued_message_is_shown t userMessage ctx ws skip meanwhile sys chunks w c :
  activeStreams w !! t = Some c →
  let queued m x :=
    world (_processUserMessageInternal t m x skip ws true meanwhile sys chunks w) in
  getQueuedAction t (queued userMessage ctx) =
    (if truthy (mainModel ctx) then
       Some {| ui_type := "message"; ui_message := userMessage;
               ui_model := mainModel ctx |}
     else None) ∧
  is_Some (queuedActions (queued userMessage ctx) !! t) ∧
  (∀ t', t' ≠ t →
     getQueuedAction t' (queued userMessage ctx) = getQueuedAction t' w) ∧
  (∀ m2 ctx2,
     world (_processUserMessageInternal t m2 ctx2 skip ws true meanwhile sys chunks
              (queued userMessage ctx)) = queued m2 ctx2) ∧
  getQueuedAction t (world (clearQueuedAction t (queued userMessage ctx))) = None.
Proof.
  intros Hact queued.
  destruct (handleFollowUpLogic_run t) as (b & e0 & E0).
  set (g := λ w : World, if b then set_taskStatus (insert t INITIALIZING) w else w).
  assert (∀ w0, world (handleFollowUpLogic t w0) = g w0) as Hg
    by (intros w0; by rewrite E0).
  assert (∀ m x w0, activeStreams w0 !! t = Some c →
            world (_processUserMessageInternal t m x skip ws true meanwhile sys chunks w0) =
            set_queuedActions (insert t (QueuedMessageAction m x ws)) (g w0)) as Hq.
  { intros m x w0 H0.
    erewrite processUserMessageInternal_run
      by (eapply interruptOrQueue_queue_run; rewrite Hg; subst g; cbv beta;
          destruct b; simpl; exact H0).
    by rewrite Hg. }
  subst queued. cbv beta. split_and!.
  - rewrite Hq by done. unfold getQueuedAction. simpl. rewrite lookup_insert_eq.
    by destruct (truthy (mainModel ctx)).
  - rewrite Hq by done. simpl. rewrite lookup_insert_eq. eauto.
  - intros t' Hne. rewrite Hq by done. unfold getQueuedAction. simpl.
    rewrite lookup_insert_ne by done. subst g. by destruct b.
  - intros m2 ctx2. rewrite !(Hq _ _ w) by done.
    rewrite Hq by (subst g; destruct b; simpl; exact Hact).
    subst g. cbv beta. destruct b; apply World_eq; simpl; try done;
      apply insert_insert_eq.
  - rewrite Hq by done. unfold getQueuedAction, clearQueuedAction. munfold.
    unfold world. simpl. by rewrite lookup_delete_eq.
Qed.

(** ** Stacked tasks *)

(** X5. [createStackedPR] never rejects.  With [queue] set while a stream
    is active for the parent task it only fills the slot of the parent, and
    the derived task is created when the queue is processed: then
    [_createStackedTaskInternal] is called with the same parent, message,
    model and user, on a state whose slot is empty again.  Otherwise the
    derived task is created at once and the slot is left alone. *)
Theorem queued_stacked_pr_is_created_when_processed
    parentTaskId message model userId socket queue w :
  let r := createStackedPR parentTaskId message model userId queue socket w in
  let a := QueuedStackedPRAction message parentTaskId model userId socket in
  result r = Ok tt ∧
  (is_Some (activeStreams w !! parentTaskId) → queue = true →
     world r = set_queuedActions (insert parentTaskId a) w ∧ events r = [] ∧
     getQueuedAction parentTaskId (world r) =
       (if truthy model then
          Some {| ui_type := "stacked-pr"; ui_message := message;
                  ui_model := model |}
        else None) ∧
     let w0 := set_queuedActions (delete parentTaskId) (world r) in
     queuedActions w0 !! parentTaskId = None ∧
     processQueuedActions parentTaskId (world r) =
       (Ok tt,
        world (_createStackedTaskInternal parentTaskId message model userId w0),
        EProcessQueuedStackedPR parentTaskId a ::
        events (_createStackedTaskInternal parentTaskId message model userId w0))) ∧
  (activeStreams w !! parentTaskId = None ∨ queue = false →
     world r = world (_createStackedTaskInternal parentTaskId message model userId w) ∧
     events r = events (_createStackedTaskInternal parentTaskId message model userId w)).
Proof.
  intros r a. subst r. unfold createStackedPR. munfold.
  split_and!.
  - destruct (bool_decide _ && queue); [done|].
    by destruct (_createStackedTaskInternal _ _ _ _ w) as [[[[]|?] ?] ?].
  - intros Hact ->. rewrite bool_decide_eq_true_2 by done. simpl.
    unfold world, events. simpl. split_and!; try done.
    + unfold getQueuedAction. simpl. rewrite lookup_insert_eq.
      by destruct (truthy model).
    + apply lookup_delete_eq.
    + rewrite processQueuedActions_run. simpl. rewrite lookup_insert_eq.
      unfold dispatchQueuedAction, _processQueuedStackedPR. munfold.
      unfold world, events. simpl.
      destruct (_createStackedTaskInternal _ _ _ _ _) as [[[[]|?] ?] ?]; simpl;
        rewrite ?app_nil_r; done.
  - intros Hor.
    assert (bool_decide (is_Some (activeStreams w !! parentTaskId)) && queue = false)
      as ->.
    { destruct Hor as [Hn| ->]; [|apply andb_false_r].
      rewrite bool_decide_eq_false_2; [done|]. rewrite Hn. by intros [? ?]. }
    unfold world, events.
    destruct (_createStackedTaskInternal _ _ _ _ w) as [[[[]|?] ?] ?]; simpl;
      rewrite ?app_nil_r; done.
Qed.

(** ** Stop *)

(** X6. When the calls [stopStream] awaits return (the flush of the batched
    write and the update of the status are awaited outside any handler), the
    stop request of the task is set, its stream is no longer registered and
    its handle, if there was one, is aborted, the task is STOPPED and no
    batched write is pending for it; the queue slots are left as they were.
    A second call changes nothing. *)
Theorem stopStream_twice_is_once t w :
  let w1 := world (stopStream t w) in
  t ∈ stopRequested w1 ∧ activeStreams w1 !! t = None ∧
  (∀ c, activeStreams w !! t = Some c → c ∈ aborted w1) ∧
  taskStatus w1 !! t = Some STOPPED ∧ pendingUpdates w1 !! t = None ∧
  queuedActions w1 = queuedActions w ∧
  world (stopStream t w1) = w1.
Proof.
  intros w1. subst w1.
  pose proof (stopStream_run t w) as E. cbv zeta in E.
  set (w2 := match activeStreams w !! t with Some _ => _ | None => _ end) in E.
  destruct (writePending_frame t w2) as (Ha & Hs & Hq & Hts & Hab & _ & Hp & _).
  assert (t ∈ stopRequested w2) as Hstop2.
  { subst w2. destruct (activeStreams w !! t); simpl;
      apply elem_of_union_l; by apply elem_of_singleton. }
  assert (activeStreams w2 !! t = None) as Hact2.
  { subst w2. destruct (activeStreams w !! t) eqn:Ea; simpl;
      [apply lookup_delete_eq|done]. }
  assert (queuedActions w2 = queuedActions w) as Hq2.
  { subst w2. by destruct (activeStreams w !! t). }
  rewrite E. set (W := world (writePending t w2)) in *.
  unfold result, world. simpl.
  split_and!; try done.
  - by rewrite Hs.
  - by rewrite Ha.
  - intros c Hc. rewrite Hab. subst w2. rewrite Hc. simpl.
    apply elem_of_union_l. by apply elem_of_singleton.
  - apply lookup_insert_eq.
  - rewrite Hp. apply lookup_delete_eq.
  - by rewrite Hq.
  - set (w1 := set_taskStatus _ W).
    pose proof (stopStream_run t w1) as E1. cbv zeta in E1.
    assert (activeStreams w1 !! t = None) as Hact1.
    { subst w1. simpl. by rewrite Ha. }
    rewrite Hact1 in E1.
    assert (pendingUpdates (set_stopRequested (union {[t]}) w1) !! t = None) as Hp1.
    { subst w1. simpl. rewrite Hp. apply lookup_delete_eq. }
    rewrite writePending_run, Hp1 in E1. unfold world in E1. simpl in E1.
    change (stopStream t w1).1.2 with (world (stopStream t w1)).
    rewrite E1. unfold world. simpl.
    apply World_eq; simpl; try done.
    + apply leibniz_equiv. rewrite Hs.
      intros x. rewrite !elem_of_union, elem_of_singleton.
      split; [intros [->|?]; [exact Hstop2|done]|by right].
    + apply insert_insert_eq.
Qed.

(** ** A message for an idle task *)

(** X7. For a task without an active stream the [queue] flag makes no
    difference.  The follow-up handling comes first and never rejects: it
    records the status INITIALIZING exactly for a task that is found with an
    inactive workspace and whose scheduled cleanup, if it has one, could be
    cancelled, and it changes nothing else.  Then the message is not put in
    the slot, nothing is stopped and nothing is waited for, whatever the rest
    of the service would do meanwhile, and the turn starts at once on the
    state the follow-up handling left. *)
Theorem queue_flag_is_ignored_when_idle
    t userMessage ctx skip ws sys chunks queue meanwhile w :
  activeStreams w !! t = None →
  let w1 := world (handleFollowUpLogic t w) in
  result (handleFollowUpLogic t w) = Ok tt ∧
  w1 = match task_findUnique t with
       | Ok (Some task) =>
           if initStatusInactive task &&
              negb (hasScheduledCleanup task && cancelTaskCleanupFails t)
           then set_taskStatus (insert t INITIALIZING) w
           else w
       | _ => w
       end ∧
  interruptOrQueue t userMessage ctx ws queue meanwhile w1 = (Ok Proceed, w1, []) ∧
  _processUserMessageInternal t userMessage ctx skip ws queue meanwhile sys chunks w =
    (result (beginTurn t userMessage ctx skip ws sys chunks w1),
     world (beginTurn t userMessage ctx skip ws sys chunks w1),
     events (handleFollowUpLogic t w) ++
     events (beginTurn t userMessage ctx skip ws sys chunks w1)).
Proof.
  intros Hact w1.
  destruct (handleFollowUpLogic_exact t w) as [Hres Hw].
  destruct (handleFollowUpLogic_frame t w) as (_ & Ha1 & _).
  assert (activeStreams w1 !! t = None) as Hact1 by (subst w1; by rewrite Ha1).
  assert (interruptOrQueue t userMessage ctx ws queue meanwhile w1 = (Ok Proceed, w1, []))
    as E.
  { unfold interruptOrQueue. munfold. rewrite Hact1. by destruct queue. }
  split; [done|]. split; [done|]. split; [done|].
  by rewrite (processUserMessageInternal_run _ _ _ _ _ _ _ _ _ _ _ _ _ E).
Qed.

(** ** Edit *)

Lemma editStore_prelude t w :
  ∃ wA eA,
    (match activeStreams w !! t with
     | Some _ => stopStream t
     | None => ret tt
     end) w = (Ok tt, wA, eA) ∧
    sameShape (chatMessage w) (chatMessage wA) ∧
    clock wA = clock w ∧ activeStreams wA !! t = None ∧
    (∀ c, activeStreams w !! t = Some c →
          c ∈ aborted wA ∧ taskStatus wA !! t = Some STOPPED).
Proof.
  destruct (activeStreams w !! t) as [c|] eqn:Hact.
  - pose proof (stopStream_shape t w) as Hs.
    pose proof (stopStream_run t w) as E. cbv zeta in E.
    rewrite Hact in E.
    set (w2 := set_activeStreams _ _) in E.
    destruct (writePending_frame t w2) as (Ha & _ & _ & _ & Hab & _ & _ & _).
    rewrite E in Hs |- *. unfold world at 1 in Hs. simpl in Hs.
    do 2 eexists. split; [reflexivity|]. simpl. split_and!; try done.
    + rewrite writePending_run. by destruct (pendingUpdates w2 !! t).
    + rewrite Ha. subst w2. simpl. apply lookup_delete_eq.
    + intros c' [= <-]. split; [|apply lookup_insert_eq].
      rewrite Hab. subst w2. simpl. apply elem_of_union_l. by apply elem_of_singleton.
  - exists w, []. split; [done|]. split_and!; try done. apply sameShape_refl.
Qed.

(** X8. Editing a message that is not in the table rejects with the
    store's error, before anything is deleted: the table keeps its rows.  By
    then the active stream of the task, if any, has been stopped and the
    queue slot of the task emptied, and no turn is started. *)
Theorem edit_of_missing_message_rejects
    t messageId newContent newModel ctx ws sys chunks w :
  chatMessage w !! messageId = None →
  let r := editUserMessage t messageId newContent newModel ctx ws sys chunks w in
  result r = Throw "Record to update not found" ∧
  sameShape (chatMessage w) (chatMessage (world r)) ∧
  queuedActions (world r) !! t = None ∧
  activeStreams (world r) !! t = None ∧
  (∀ c, activeStreams w !! t = Some c →
        c ∈ aborted (world r) ∧ taskStatus (world r) !! t = Some STOPPED) ∧
  Forall (λ e, e ≠ EStartStream t ∧ ∀ s, e ≠ EMessageDeleteMany t s) (events r).
Proof.
  intros Hm r.
  destruct (editStore_prelude t w) as (wA & eA & EA & HA & Hclock & Hact & Hab).
  assert (chatMessage wA !! messageId = None) as HmA.
  { specialize (HA messageId). rewrite Hm in HA.
    by destruct (chatMessage wA !! messageId). }
  assert (Forall (λ e, e ≠ EStartStream t ∧ ∀ s, e ≠ EMessageDeleteMany t s) eA) as HeA.
  { destruct (activeStreams w !! t) as [c|] eqn:Hc.
    - pose proof (stopStream_run t w) as E. cbv zeta in E. rewrite E in EA.
      injection EA as _ <-. rewrite Hc.
      rewrite writePending_run.
      destruct (pendingUpdates _ !! t); repeat constructor; done.
    - injection EA as _ <-. constructor. }
  assert (r = (Throw "Record to update not found",
               set_queuedActions (delete t) wA, eA ++ [])) as ->.
  { subst r. unfold editUserMessage, editStore.
    unfold bind at 1. unfold bind at 1, gets at 1. cbv beta iota.
    rewrite (bind_run _ _ _ _ _ _ EA).
    unfold clearQueuedAction, chatMessage_update. munfold. simpl.
    rewrite HmA. reflexivity. }
  unfold result, world, events. simpl. split_and!; try done.
  - apply lookup_delete_eq.
  - by rewrite app_nil_r.
Qed.

(** X9. Editing a stored message rewrites its row in place: it carries the
    new content, the new model and the time of the edit, keeps its task,
    sequence and role, and survives the deletion of the later messages.  The
    checkpoint of the message is restored before the later messages are
    deleted, and the queue slot of the task is empty afterwards.  The
    message is not required to be a user message of the task. *)
Theorem edit_rewrites_the_row_in_place t messageId newContent newModel w m :
  chatMessage w !! messageId = Some m →
  let r := editStore t messageId newContent newModel w in
  ∃ row evs,
    result r = Ok tt ∧
    chatMessage (world r) !! messageId = Some row ∧
    content row = newContent ∧ llmModel row = newModel ∧
    editedAt row = Some (clock w) ∧
    taskId row = taskId m ∧ sequence row = sequence m ∧ role row = role m ∧
    events r =
      evs ++ [ERestoreCheckpoint t messageId; EMessageDeleteMany t (sequence m)] ∧
    Forall (λ e, ∀ s, e ≠ EMessageDeleteMany t s) evs ∧
    queuedActions (world r) !! t = None.
Proof.
  intros Hm r.
  destruct (editStore_prelude t w) as (wA & eA & EA & HA & Hclock & Hact & Hab).
  pose proof (HA messageId) as Hk. rewrite Hm in Hk.
  destruct (chatMessage wA !! messageId) as [m1|] eqn:Hm1; [|done].
  destruct Hk as (Ht & Hs & Hro).
  assert (Forall (λ e, ∀ s, e ≠ EMessageDeleteMany t s) eA) as HeA.
  { destruct (activeStreams w !! t) as [c|] eqn:Hc.
    - pose proof (stopStream_run t w) as E. cbv zeta in E. rewrite E in EA.
      injection EA as _ <-. rewrite Hc.
      rewrite writePending_run.
      destruct (pendingUpdates _ !! t); repeat constructor; done.
    - injection EA as _ <-. constructor. }
  set (row := editedRow newContent newModel (clock wA) m1).
  assert (r =
    (Ok tt,
     set_chatMessage
       (filter (λ kr, ¬ (taskId kr.2 = t ∧ sequence m1 < sequence kr.2)))
       (set_chatMessage (insert messageId row) (set_queuedActions (delete t) wA)),
     eA ++ [EMessageUpdate messageId row; EUpdateTaskActivity t;
            ERestoreCheckpoint t messageId; EMessageDeleteMany t (sequence m1)]))
    as ->.
  { subst r. unfold editStore. unfold bind at 1, gets at 1. cbv beta iota.
    rewrite (bind_run _ _ _ _ _ _ EA).
    unfold clearQueuedAction, chatMessage_update, updateTaskActivity,
      chatMessage_deleteMany. munfold. simpl.
    rewrite Hm1. simpl. rewrite lookup_insert_eq. simpl.
    unfold result, world, events. simpl. reflexivity. }
  exists row, (eA ++ [EMessageUpdate messageId row; EUpdateTaskActivity t]).
  unfold result, world, events. simpl. split_and!; try done.
  - apply map_lookup_filter_Some. split; [apply lookup_insert_eq|].
    simpl. intros [_ Hlt]. lia.
  - by rewrite Hclock.
  - rewrite <- app_assoc. simpl. by rewrite Hs.
  - apply Forall_app. split; [done|]. repeat constructor; done.
  - apply lookup_delete_eq.
Qed.

(** ** What a turn hands to the store *)

Lemma join_app (l1 l2 : list string) : join (l1 ++ l2) = join l1 +:+ join l2.
Proof.
  induction l1 as [|a l1 IH]; [done|].
  change (a +:+ join (l1 ++ l2) = (a +:+ join l1) +:+ join l2).
  by rewrite IH, string_app_assoc.
Qed.

Lemma fullContent_app ps qs :
  fullContent (ps ++ qs) = fullContent ps +:+ fullContent qs.
Proof. unfold fullContent. by rewrite omap_app, join_app. Qed.

Lemma fullContent_push p turn :
  fullContent (assistantParts (push p turn)) =
  fullContent (assistantParts turn) +:+ default "" (textOf p).
Proof.
  simpl. rewrite fullContent_app. f_equal.
  destruct p; try done. unfold fullContent. simpl. apply string_app_nil_r.
Qed.

Lemma fullContent_reasoning (bs : list ReasoningBlock) :
  fullContent (reasoningPart <$> bs) = "".
Proof. by induction bs. Qed.

Ltac store_solve :=
  simpl; do 3 eexists; (split; [reflexivity|]); simpl;
  rewrite ?fullContent_app, ?string_app_nil_r;
  split_and!; try done;
  try (unfold fullContent; simpl; rewrite ?string_app_nil_r; done);
  try (by left);
  try (right; eexists; split; [reflexivity|]; done);
  try (eexists; split_and!; reflexivity).

(** How an event other than an error moves the content, the usage and the
    row of the turn: with a row, the event at most schedules a batched write
    for it; without one, it creates the row or leaves the store alone. *)
Lemma reduceChunk_store t ctx chunk turn w :
  isError chunk = false → TurnInv turn w →
  ∃ turn' w' evs,
    reduceChunk t ctx chunk turn w = (Ok (turn', false), w', evs) ∧
    fullContent (assistantParts turn') =
      fullContent (assistantParts turn) +:+ contentText chunk ∧
    usageMetadata turn' =
      match chunk with usage_chunk u => Some u | _ => usageMetadata turn end ∧
    finishReason turn' = finishReason turn ∧
    match assistantMessageId turn with
    | Some i =>
        assistantMessageId turn' = Some i ∧
        chatMessage w' = chatMessage w ∧ nextMessageId w' = nextMessageId w ∧
        (evs = [] ∧ pendingUpdates w' = pendingUpdates w ∨
         ∃ u, evs = [EScheduleAssistantUpdate t u] ∧ pu_messageId u = i ∧
              pendingUpdates w' = <[t := u]> (pendingUpdates w))
    | None =>
        if createsRow chunk then
          ∃ row,
            assistantMessageId turn' = Some (nextMessageId w) ∧
            chatMessage w' = <[nextMessageId w := row]> (chatMessage w) ∧
            nextMessageId w' = S (nextMessageId w) ∧
            pendingUpdates w' = pendingUpdates w ∧
            evs = [EMessageCreate (nextMessageId w) row] ∧
            content row = creationText chunk ∧ taskId row = t ∧
            role row = ASSISTANT ∧
            sequence row = nextSequenceOf t (chatMessage w)
        else assistantMessageId turn' = None ∧ w' = w ∧ evs = []
    end.
Proof.
  intros Herr HI.
  pose proof (inv_ids _ _ HI) as Hids.
  destruct chunk as [c|r|s|d|id name args|id res|err fr|u|]; try discriminate;
    unfold createsRow, contentText, creationText; chunk_run.
  - destruct (truthy c) eqn:Hc;
      [|apply truthy_false in Hc as ->];
      destruct (assistantMessageId turn) as [i|] eqn:Hid,
               (assistantSequence turn) eqn:Hseq;
      try (destruct Hids as [Hi1 Hi2]; by (specialize (Hi1 eq_refl) ||
                                           specialize (Hi2 eq_refl)));
      store_solve.
  - destruct (truthy r) eqn:Hr;
      destruct (assistantMessageId turn) as [i|] eqn:Hid,
               (assistantSequence turn) eqn:Hseq;
      try (destruct Hids as [Hi1 Hi2]; by (specialize (Hi1 eq_refl) ||
                                           specialize (Hi2 eq_refl)));
      store_solve.
  - destruct (truthy s) eqn:Hs;
      [destruct (Map_get (reasoningCounter turn) (activeReasoningParts turn))|];
      destruct (assistantMessageId turn) as [i|] eqn:Hid;
      store_solve.
  - destruct (truthy d) eqn:Hc;
      destruct (assistantMessageId turn) as [i|] eqn:Hid,
               (assistantSequence turn) eqn:Hseq;
      try (destruct Hids as [Hi1 Hi2]; by (specialize (Hi1 eq_refl) ||
                                           specialize (Hi2 eq_refl)));
      store_solve.
  - destruct (assistantMessageId turn) as [i|] eqn:Hid; store_solve.
  - destruct (assistantMessageId turn) as [i|] eqn:Hid; store_solve.
  - destruct (assistantMessageId turn) as [i|] eqn:Hid; store_solve.
  - destruct (assistantMessageId turn) as [i|] eqn:Hid; store_solve.
Qed.

(** An error-free prefix of the stream, consumed alone or followed by more
    events. *)
Lemma reduceStream_app t ctx pre rest : ∀ turn w turn1 w1 e1,
  Forall (λ c, isError c = false) pre → TurnInv turn w →
  reduceStream t ctx pre turn w = (Ok turn1, w1, e1) →
  reduceStream t ctx (pre ++ rest) turn w =
    (result (reduceStream t ctx rest turn1 w1),
     world (reduceStream t ctx rest turn1 w1),
     e1 ++ events (reduceStream t ctx rest turn1 w1)).
Proof.
  induction pre as [|c pre IH]; intros turn w turn1 w1 e1 Hne HI E.
  - injection E as <- <- <-. simpl app.
    unfold result, world, events. by destruct (reduceStream _ _ _ _ _) as [[??]?].
  - apply Forall_cons in Hne as [Hc Hne]. simpl app.
    rewrite reduceStream_cons in E |- *.
    destruct (bool_decide (t ∈ stopRequested w)) eqn:Hstop.
    { injection E as <- <- <-. apply bool_decide_eq_true in Hstop.
      rewrite (reduceStream_stopped _ _ _ _ _ Hstop). done. }
    destruct (reduceChunk_inv t ctx c turn w HI) as (turn' & w' & evs & E' & HI' & _).
    rewrite Hc in E'. rewrite E' in E |- *.
    destruct (reduceStream t ctx pre turn' w') as [[[turnP|e] wP] eP] eqn:EP;
      unfold result, world, events in E; simpl in E; [|done].
    injection E as <- <- <-.
    rewrite (IH turn' w' turnP wP eP Hne HI' EP).
    unfold result, world, events. simpl. by rewrite app_assoc.
Qed.

Lemma lastUsage_cons acc c chunks :
  lastUsage acc (c :: chunks) =
  lastUsage (match c with usage_chunk u => Some u | _ => acc end) chunks.
Proof. done. Qed.

(** The content, the usage and the terminal reason after an error-free
    prefix of the stream. *)
Lemma reduceStream_store t ctx pre : ∀ turn w,
  Forall (λ c, isError c = false) pre → t ∉ stopRequested w → TurnInv turn w →
  ∃ turn1 w1 e1,
    reduceStream t ctx pre turn w = (Ok turn1, w1, e1) ∧
    fullContent (assistantParts turn1) =
      fullContent (assistantParts turn) +:+ join (contentText <$> pre) ∧
    usageMetadata turn1 = lastUsage (usageMetadata turn) pre ∧
    finishReason turn1 = finishReason turn ∧
    Forall (λ e, isPipeline e = false) e1.
Proof.
  induction pre as [|c pre IH]; intros turn w Hne Hstop HI.
  - exists turn, w, []. split; [done|]. simpl. rewrite string_app_nil_r.
    split_and!; try done.
  - apply Forall_cons in Hne as [Hc Hne].
    destruct (reduceChunk_store t ctx c turn w Hc HI)
      as (turn' & w' & evs & E & Hfc & Hu & Hfr & Hrow).
    destruct (reduceChunk_track t ctx c turn w Hc HI)
      as (turn2 & w2 & evs2 & E2 & _ & Hs & _).
    destruct (reduceChunk_inv t ctx c turn w HI) as (turn3 & w3 & evs3 & E3 & HI' & _).
    rewrite E in E2, E3. rewrite Hc in E3.
    injection E2 as <- <- <-. injection E3 as <- <- <-.
    assert (t ∉ stopRequested w') as Hstop' by (by rewrite Hs).
    destruct (IH turn' w' Hne Hstop' HI')
      as (turn1 & w1 & e1 & E1 & Hfc1 & Hu1 & Hfr1 & Hp1).
    exists turn1, w1, (EEmitStreamChunk t c :: evs ++ e1).
    split.
    { rewrite reduceStream_cons. rewrite bool_decide_eq_false_2 by done.
      rewrite E, E1. done. }
    split_and!.
    + rewrite Hfc1, Hfc. rewrite fmap_cons.
      change (join (contentText c :: (contentText <$> pre)))
        with (contentText c +:+ join (contentText <$> pre)).
      by rewrite string_app_assoc.
    + rewrite Hu1, Hu, lastUsage_cons. by destruct c.
    + congruence.
    + constructor; [done|]. apply Forall_app. split; [|done].
      destruct (assistantMessageId turn).
      * destruct Hrow as (_ & _ & _ & [[-> _]|(u & -> & _)]); repeat constructor.
      * destruct (createsRow c).
        -- destruct Hrow as (row & _ & _ & _ & _ & -> & _). repeat constructor.
        -- destruct Hrow as (_ & _ & ->). constructor.
Qed.

(** *** The end of a turn, step by step *)

Lemma clear_exact t w :
  pendingUpdates (world (clear t w)) = delete t (pendingUpdates w) ∧
  nextMessageId (world (clear t w)) = nextMessageId w ∧
  (chatMessage (world (clear t w)) = chatMessage w ∧
   events (clear t w) = [EBatchClear t] ∨
   ∃ u, pendingUpdates w !! t = Some u ∧
        chatMessage (world (clear t w)) =
          alter (batchedRow u) (pu_messageId u) (chatMessage w) ∧
        events (clear t w) = [EBatchClear t; EBatchWrite t u]).
Proof.
  destruct (clear_frame t w) as (_ & _ & _ & _ & _ & Hn & Hp & _).
  split; [done|]. split; [done|].
  rewrite clear_run. unfold world at 1 3, events at 1 2. simpl.
  destruct clearWritesPending; [|by left].
  rewrite writePending_run. unfold world, events. simpl.
  destruct (pendingUpdates w !! t) as [u|]; [right|by left].
  exists u. done.
Qed.

Lemma persistFinal_exact t turn w :
  (∀ i, assistantMessageId turn = Some i → is_Some (chatMessage w !! i)) →
  ∃ w1 e1,
    persistFinal t turn w = (Ok tt, w1, e1) ∧
    match assistantMessageId turn with
    | None => w1 = w ∧ e1 = []
    | Some i =>
        ∃ old, chatMessage (world (clear t w)) !! i = Some old ∧
          match usageMetadata turn with
          | Some u =>
              w1 = set_chatMessage (insert i (finalRow turn u old)) (world (clear t w)) ∧
              e1 = events (clear t w) ++ [EMessageUpdate i (finalRow turn u old)]
          | None =>
              w1 = world (clear t w) ∧
              e1 = events (clear t w) ++ [EBatchFlush t]
          end
    end.
Proof.
  intros Hrow. unfold persistFinal.
  destruct (assistantMessageId turn) as [i|] eqn:Hid; [|by exists w, []].
  destruct (Hrow i eq_refl) as [row0 Hrow0].
  destruct (clear_frame t w) as (_ & _ & _ & _ & _ & _ & Hpend & Hdom).
  destruct (proj2 (Hdom i) (ex_intro _ row0 Hrow0)) as [old Hold].
  pose proof (clear_run t w) as Ec.
  munfold. unfold world, events in *.
  destruct (clear t w) as [[rc wc] ec]. injection Ec as -> _ _. simpl in *.
  destruct (usageMetadata turn) as [u|].
  - rewrite (chatMessage_update_run i _ wc old Hold).
    do 2 eexists. split; [reflexivity|]. exists old. done.
  - rewrite flushAssistantUpdate_run, writePending_run.
    assert (pendingUpdates wc !! t = None) as ->
      by (rewrite Hpend; apply lookup_delete_eq).
    unfold world, events. simpl.
    do 2 eexists. split; [reflexivity|]. exists old. done.
Qed.

Lemma concludeTurn_events t ctx ws stopped turn w :
  events (concludeTurn t ctx ws stopped turn w) =
  if hasError turn then [EScheduleTaskCleanup t]
  else if stopped then [EUpdateTaskStatus t STOPPED; EScheduleTaskCleanup t]
  else
    [EUpdateTaskStatus t COMPLETED; EScheduleTaskCleanup t; EUpdateTaskActivity t] ++
    match commitChangesIfAny t ctx ws, assistantMessageId turn with
    | Ok true, Some i => [ECreatePRIfUserEnabled t i; ECreateCheckpoint t i]
    | _, _ => []
    end.
Proof.
  unfold concludeTurn. destruct (hasError turn); [done|].
  destruct stopped; [done|].
  unfold postCompletion, liftResult. mstep. unfold events.
  destruct (commitChangesIfAny t ctx ws) as [[|]|err]; simpl;
    destruct (assistantMessageId turn); reflexivity.
Qed.

Lemma finalizeTurn_exact t ctx ws turn0 w w1 e1 :
  persistFinal t (finalizeReasoning turn0) w = (Ok tt, w1, e1) →
  finalizeTurn t ctx ws turn0 w =
    (Ok (finalizeReasoning turn0),
     set_stopRequested (λ s, s ∖ {[t]})
       (set_activeStreams (delete t)
          (if hasError turn0 then w1
           else set_taskStatus
                  (insert t (if bool_decide (t ∈ stopRequested w)
                             then STOPPED else COMPLETED)) w1)),
     e1 ++
     events (concludeTurn t ctx ws (bool_decide (t ∈ stopRequested w))
               (finalizeReasoning turn0) w1) ++
     [EEndStream t; EStopMCPManager t]).
Proof.
  intros E1.
  destruct (concludeTurn_run t ctx ws (bool_decide (t ∈ stopRequested w))
              (finalizeReasoning turn0) w1) as (e2 & E2 & _).
  unfold finalizeTurn. munfold. cbv zeta. rewrite E1. cbv beta iota.
  rewrite E2. cbv beta iota. rewrite releaseStream_run. simpl.
  reflexivity.
Qed.

Lemma pipeline_app e1 e2 : pipeline (e1 ++ e2) = pipeline e1 ++ pipeline e2.
Proof. apply filter_app. Qed.

Lemma pipeline_none evs : Forall (λ e, isPipeline e = false) evs → pipeline evs = [].
Proof.
  intros H. apply filter_none. eapply Forall_impl; [exact H|].
  intros e He. by rewrite He.
Qed.

Lemma clear_events_store t w : Forall (λ e, isStoreCall e = true) (events (clear t w)).
Proof.
  destruct (clear_exact t w) as (_ & _ & [[_ ->]|(u & _ & _ & ->)]);
    repeat constructor.
Qed.

Lemma persistFinal_events_store t turn w w1 e1 :
  (∀ i, assistantMessageId turn = Some i → is_Some (chatMessage w !! i)) →
  persistFinal t turn w = (Ok tt, w1, e1) →
  Forall (λ e, isStoreCall e = true) e1.
Proof.
  intros Hrow E.
  destruct (persistFinal_exact t turn w Hrow) as (w1' & e1' & E' & H).
  rewrite E in E'. injection E' as <- <-.
  destruct (assistantMessageId turn); [|by destruct H as [_ ->]].
  destruct H as (old & _ & H).
  destruct (usageMetadata turn); destruct H as [_ ->];
    (apply Forall_app; split; [apply clear_events_store|repeat constructor]).
Qed.

Lemma store_not_pipeline e : isStoreCall e = true → isPipeline e = false.
Proof. by destruct e. Qed.

(** What is known of the state after an error-free prefix of the stream. *)
Lemma reduceStream_errorfree t ctx pre turn w turn1 w1 e1 :
  Forall (λ c, isError c = false) pre → t ∉ stopRequested w → TurnInv turn w →
  reduceStream t ctx pre turn w = (Ok turn1, w1, e1) →
  TurnInv turn1 w1 ∧
  activeStreams w1 = activeStreams w ∧ stopRequested w1 = stopRequested w ∧
  queuedActions w1 = queuedActions w ∧ taskStatus w1 = taskStatus w ∧
  aborted w1 = aborted w ∧
  Forall calm e1 ∧
  filter (λ e, isEmit e = true) e1 = EEmitStreamChunk t <$> pre ∧
  hasError turn1 = hasError turn ∧
  (is_Some (assistantMessageId turn1) ↔
     is_Some (assistantMessageId turn) ∨ Exists (λ c, createsRow c = true) pre) ∧
  (is_Some (usageMetadata turn1) ↔
     is_Some (usageMetadata turn) ∨ Exists (λ c, isUsage c = true) pre) ∧
  openReasoning turn1 = pendingText (openReasoning turn) pre ∧
  assistantParts turn `prefix_of` assistantParts turn1.
Proof.
  intros Hne Hstop HI E.
  destruct (reduceStream_prefix t ctx pre [] turn w Hne Hstop HI)
    as (turn' & w' & e' & E' & H).
  rewrite app_nil_r, E in E'. unfold result, world, events in E'. simpl in E'.
  rewrite app_nil_r in E'. injection E' as <- <- <-. exact H.
Qed.

(** X14. When the stream holds no error event and no stop is requested, and
    it holds an event that creates the row and a usage event, the row of the
    turn ends with the concatenation of the texts of all content events as its
    content, with all the parts of the turn, the usage of the last usage event
    (also in the token columns), no terminal reason, and the streaming mark
    off. *)
Theorem final_row_holds_all_text t ctx ws chunks w :
  t ∉ stopRequested w →
  Forall (λ c, isError c = false) chunks →
  Exists (λ c, createsRow c = true) chunks →
  Exists (λ c, isUsage c = true) chunks →
  let r := streamTurnBody t ctx ws chunks w in
  ∃ final i row u,
    result r = Ok final ∧ assistantMessageId final = Some i ∧
    chatMessage (world r) !! i = Some row ∧
    lastUsage None chunks = Some u ∧
    content row = join (contentText <$> chunks) ∧
    metadata row =
      Some {| isStreaming := false; parts := assistantParts final;
              usage := Some u; md_finishReason := None |} ∧
    msg_promptTokens row = Some (promptTokens u) ∧
    msg_completionTokens row = Some (completionTokens u) ∧
    msg_totalTokens row = Some (totalTokens u) ∧
    msg_finishReason row = None.
Proof.
  intros Hstop Hne Hrow Hus r. subst r.
  destruct (reduceStream_store t ctx chunks initialTurn w Hne Hstop (TurnInv_initial w))
    as (turn1 & w1 & e1 & E & Hfc & Hu & Hfr & _).
  change (usageMetadata initialTurn) with (@None Usage) in Hu.
  change (finishReason initialTurn) with (@None string) in Hfr.
  change (fullContent (assistantParts initialTurn)) with "" in Hfc.
  destruct (reduceStream_errorfree t ctx chunks initialTurn w turn1 w1 e1
              Hne Hstop (TurnInv_initial w) E)
    as (HI & _ & _ & _ & _ & _ & _ & _ & Herr & Hid & Husage & _).
  destruct (proj2 Hid (or_intror Hrow)) as [i Hi].
  destruct (proj2 Husage (or_intror Hus)) as [u Hu'].
  rewrite (streamTurnBody_run _ _ _ _ _ _ _ _ E).
  assert (∀ j, assistantMessageId (finalizeReasoning turn1) = Some j →
               is_Some (chatMessage w1 !! j)) as Hok.
  { intros j Hj. by apply (inv_row _ _ HI). }
  destruct (persistFinal_exact t (finalizeReasoning turn1) w1 Hok)
    as (w2 & e2 & E2 & H2).
  change (assistantMessageId (finalizeReasoning turn1))
    with (assistantMessageId turn1) in H2.
  change (usageMetadata (finalizeReasoning turn1)) with (usageMetadata turn1) in H2.
  rewrite Hi, Hu' in H2. destruct H2 as (old & Hold & -> & ->).
  rewrite (finalizeTurn_exact _ _ _ _ _ _ _ E2).
  unfold result, world, events. simpl.
  exists (finalizeReasoning turn1), i, (finalRow (finalizeReasoning turn1) u old), u.
  simpl in Herr. rewrite Herr. simpl.
  rewrite fullContent_app, fullContent_reasoning, string_app_nil_r, Hfc, Hfr.
  split_and!; try done.
  - apply lookup_insert_eq.
  - congruence.
Qed.

(** X15. In a turn without an error event and without a stop request, the
    row is written in full at the end exactly when the stream created the row
    and carried a usage event: that is the one immediate write of the turn.
    Without a usage event, or without a row, the turn makes no immediate
    write at all. *)
Theorem final_write_needs_row_and_usage t ctx ws chunks w :
  t ∉ stopRequested w →
  Forall (λ c, isError c = false) chunks →
  length (immediateWrites (events (streamTurnBody t ctx ws chunks w))) =
    if decide (Exists (λ c, createsRow c = true) chunks ∧
               Exists (λ c, isUsage c = true) chunks)
    then 1%nat else 0%nat.
Proof.
  intros Hstop Hne.
  destruct (reduceStream_store t ctx chunks initialTurn w Hne Hstop (TurnInv_initial w))
    as (turn1 & w1 & e1 & E & _).
  destruct (reduceStream_errorfree t ctx chunks initialTurn w turn1 w1 e1
              Hne Hstop (TurnInv_initial w) E)
    as (HI & _ & _ & _ & _ & _ & Hcalm & _ & Herr & Hid & Husage & _).
  rewrite (streamTurnBody_run _ _ _ _ _ _ _ _ E).
  assert (∀ j, assistantMessageId (finalizeReasoning turn1) = Some j →
               is_Some (chatMessage w1 !! j)) as Hok.
  { intros j Hj. by apply (inv_row _ _ HI). }
  destruct (persistFinal_run t (finalizeReasoning turn1) w1 Hok)
    as (w2 & e2 & E2 & _ & _ & _ & _ & _ & _ & _ & Hw).
  destruct (finalizeTurn_run t ctx ws turn1 w1 (inv_row _ _ HI))
    as (w2' & e2' & e3 & E2' & EF & Hq & _).
  rewrite E2 in E2'. injection E2' as <- <-.
  rewrite EF. unfold events. simpl.
  rewrite !immediateWrites_app, (calm_immediateWrites e1 Hcalm).
  rewrite (calm_immediateWrites e3)
    by (eapply Forall_impl; [exact Hq|apply quiet_calm]).
  simpl. rewrite app_nil_r.
  change (assistantMessageId (finalizeReasoning turn1))
    with (assistantMessageId turn1) in Hw.
  change (usageMetadata (finalizeReasoning turn1)) with (usageMetadata turn1) in Hw.
  destruct (decide _) as [[Hr Hu]|Hno].
  - destruct (proj2 Hid (or_intror Hr)) as [i Hi].
    destruct (proj2 Husage (or_intror Hu)) as [u Hu'].
    rewrite Hi, Hu' in Hw. destruct Hw as (row & old & -> & _). done.
  - destruct (assistantMessageId turn1) as [i|] eqn:Hi;
      [destruct (usageMetadata turn1) as [u|] eqn:Hu|]; try (by rewrite Hw).
    exfalso. apply Hno. split.
    + destruct (proj1 Hid (ex_intro _ i eq_refl)) as [[? [=]]|?]; done.
    + destruct (proj1 Husage (ex_intro _ u eq_refl)) as [[? [=]]|?]; done.
Qed.

(** *** The turn writes to its own row only *)

Lemma creations_app e1 e2 : creations (e1 ++ e2) = creations e1 ++ creations e2.
Proof. apply filter_app. Qed.

Lemma clear_owned t i0 rows0 turn w :
  is_Some (assistantMessageId turn) → Owned t i0 rows0 turn w →
  (∀ k, k ≠ i0 → chatMessage (world (clear t w)) !! k = rows0 !! k) ∧
  pendingUpdates (world (clear t w)) !! t = None ∧
  Forall (targets i0) (events (clear t w)) ∧
  creations (events (clear t w)) = [].
Proof.
  intros [i Hi] Ho. unfold Owned in Ho. rewrite Hi in Ho.
  destruct Ho as (-> & Hframe & Hpend).
  destruct (clear_exact t w) as (Hp & _ & [[Hc ->]|(u & Hu & Hc & ->)]).
  - split_and!.
    + intros k Hk. rewrite Hc. by apply Hframe.
    + rewrite Hp. apply lookup_delete_eq.
    + repeat constructor. by intros j.
    + done.
  - split_and!.
    + intros k Hk. rewrite Hc, lookup_alter_ne; [by apply Hframe|].
      rewrite (Hpend u Hu). done.
    + rewrite Hp. apply lookup_delete_eq.
    + repeat constructor; intros j; simpl; [done|].
      intros [= <-]. by apply Hpend.
    + done.
Qed.

Lemma reduceChunk_owned t ctx i0 rows0 chunk turn w :
  TurnInv turn w → Owned t i0 rows0 turn w →
  ∃ turn' w' evs,
    reduceChunk t ctx chunk turn w = (Ok (turn', isError chunk), w', evs) ∧
    TurnInv turn' w' ∧ Owned t i0 rows0 turn' w' ∧
    Forall (targets i0) evs ∧
    (∀ i, assistantMessageId turn = Some i → assistantMessageId turn' = Some i) ∧
    length (creations evs) =
      match assistantMessageId turn, assistantMessageId turn' with
      | None, Some _ => 1%nat
      | _, _ => 0%nat
      end.
Proof.
  intros HI Ho.
  destruct (reduceChunk_inv t ctx chunk turn w HI) as (turn' & w' & evs & E & HI' & _).
  exists turn', w', evs. split; [done|]. split; [done|].
  destruct (isError chunk) eqn:Herr.
  - destruct chunk as [| | | | | |err fr| |]; try discriminate.
    destruct (reduceChunk_error_run t ctx err fr turn w HI) as (w1 & e1 & E1 & Hw).
    cbv zeta in E1. rewrite E1 in E. injection E as <- <- <-.
    unfold Owned. simpl assistantMessageId.
    destruct (assistantMessageId turn) as [i|] eqn:Hi.
    + destruct Hw as (row & -> & _ & _ & ->).
      destruct (clear_owned t i0 rows0 turn w) as (Hframe & Hpend & Htg & Hcr);
        [by rewrite Hi|done|].
      unfold Owned in Ho. rewrite Hi in Ho. destruct Ho as (-> & _ & _).
      split; [split_and!|split_and!].
      * done.
      * intros k Hk. simpl. rewrite lookup_insert_ne by done. by apply Hframe.
      * simpl. intros u Hu. by rewrite Hpend in Hu.
      * apply Forall_app. split; [apply Forall_app; split; [done|]|].
        -- repeat constructor. intros j [= <-]. done.
        -- repeat constructor; by intros j.
      * done.
      * rewrite !creations_app, Hcr. done.
    + destruct Hw as [-> ->]. unfold Owned in Ho. rewrite Hi in Ho.
      destruct Ho as (Hc & Hp & Hn). simpl. split_and!; try done.
      repeat constructor; by intros j.
  - destruct (reduceChunk_store t ctx chunk turn w Herr HI)
      as (turn2 & w2 & evs2 & E2 & _ & _ & _ & Hrow).
    rewrite E2 in E. injection E as <- <- <-.
    unfold Owned in Ho |- *.
    destruct (assistantMessageId turn) as [i|] eqn:Hi.
    + destruct Ho as (-> & Hframe & Hpend).
      destruct Hrow as (-> & Hc & Hn & Hev). rewrite Hc.
      destruct Hev as [[-> Hp]|(u & -> & Hu & Hp)]; rewrite Hp.
      * split_and!; try done.
      * split_and!; try done.
        -- intros u'. rewrite lookup_insert_eq. by intros [= <-].
        -- repeat constructor. intros j [= <-]. done.
    + destruct Ho as (Hc & Hp & Hn).
      destruct (createsRow chunk).
      * destruct Hrow as (row & -> & Hc' & Hn' & Hp' & -> & _).
        rewrite Hc', Hp', Hn, Hc. split_and!; try done.
        -- intros k Hk. by rewrite lookup_insert_ne.
        -- intros u Hu. by rewrite Hp in Hu.
        -- repeat constructor. intros j [= <-]. done.
      * destruct Hrow as (-> & -> & ->). split_and!; try done.
Qed.

Lemma reduceStream_owned t ctx i0 rows0 chunks : ∀ turn w,
  TurnInv turn w → Owned t i0 rows0 turn w →
  ∃ turn' w' evs,
    reduceStream t ctx chunks turn w = (Ok turn', w', evs) ∧
    TurnInv turn' w' ∧ Owned t i0 rows0 turn' w' ∧
    Forall (targets i0) evs ∧
    (∀ i, assistantMessageId turn = Some i → assistantMessageId turn' = Some i) ∧
    length (creations evs) =
      match assistantMessageId turn, assistantMessageId turn' with
      | None, Some _ => 1%nat
      | _, _ => 0%nat
      end.
Proof.
  induction chunks as [|c rest IH]; intros turn w HI Ho.
  - exists turn, w, []. split_and!; try done. by destruct (assistantMessageId turn).
  - rewrite reduceStream_cons.
    destruct (bool_decide (t ∈ stopRequested w)).
    { exists turn, w, []. split_and!; try done. by destruct (assistantMessageId turn). }
    destruct (reduceChunk_owned t ctx i0 rows0 c turn w HI Ho)
      as (turn1 & w1 & e1 & E & HI1 & Ho1 & Ht1 & Hm1 & Hc1).
    rewrite E. destruct (isError c).
    + do 3 eexists. split; [reflexivity|]. split_and!; try done.
      constructor; [by intros j|done].
    + destruct (IH turn1 w1 HI1 Ho1)
        as (turn2 & w2 & e2 & E2 & HI2 & Ho2 & Ht2 & Hm2 & Hc2).
      rewrite E2. unfold result, world, events. simpl.
      do 3 eexists. split; [reflexivity|].
      split; [done|]. split; [done|]. split; [|split].
      * constructor; [by intros j|]. by apply Forall_app.
      * intros i Hi. by apply Hm2, Hm1.
      * change (creations (EEmitStreamChunk t c :: e1 ++ e2))
          with (creations (e1 ++ e2)).
        rewrite creations_app, length_app, Hc1, Hc2.
        destruct (assistantMessageId turn) as [i|] eqn:H0.
        -- rewrite (Hm1 i eq_refl). done.
        -- destruct (assistantMessageId turn1) as [i1|] eqn:H1.
           ++ rewrite (Hm2 i1 eq_refl). done.
           ++ destruct (assistantMessageId turn2); done.
Qed.

Lemma concludeTurn_events_plain t ctx ws stopped turn w i0 :
  Forall (λ e, targets i0 e ∧ isStoreCall e = false ∧ isCreate e = false ∧
               isEmit e = false)
         (events (concludeTurn t ctx ws stopped turn w)).
Proof.
  rewrite concludeTurn_events.
  destruct (hasError turn); [repeat constructor; by intros j|].
  destruct stopped; [repeat constructor; by intros j|].
  destruct (commitChangesIfAny t ctx ws) as [[|]|err];
    destruct (assistantMessageId turn); repeat constructor; by intros j.
Qed.

Lemma finalizeTurn_owned t ctx ws i0 rows0 turn1 w1 :
  TurnInv turn1 w1 → Owned t i0 rows0 turn1 w1 →
  ∃ W evs,
    finalizeTurn t ctx ws turn1 w1 = (Ok (finalizeReasoning turn1), W, evs) ∧
    (∀ k, k ≠ i0 → chatMessage W !! k = rows0 !! k) ∧
    pendingUpdates W !! t = None ∧
    Forall (targets i0) evs ∧ creations evs = [].
Proof.
  intros HI Ho.
  assert (∀ j, assistantMessageId (finalizeReasoning turn1) = Some j →
               is_Some (chatMessage w1 !! j)) as Hok.
  { intros j Hj. by apply (inv_row _ _ HI). }
  destruct (persistFinal_exact t (finalizeReasoning turn1) w1 Hok)
    as (w2 & e2 & E2 & H2).
  change (assistantMessageId (finalizeReasoning turn1))
    with (assistantMessageId turn1) in H2.
  change (usageMetadata (finalizeReasoning turn1)) with (usageMetadata turn1) in H2.
  rewrite (finalizeTurn_exact _ _ _ _ _ _ _ E2).
  do 2 eexists. split; [reflexivity|].
  pose proof (concludeTurn_events_plain t ctx ws (bool_decide (t ∈ stopRequested w1))
                (finalizeReasoning turn1) w2 i0) as Hcon.
  assert ((∀ k, k ≠ i0 → chatMessage w2 !! k = rows0 !! k) ∧
          pendingUpdates w2 !! t = None ∧
          Forall (targets i0) e2 ∧ creations e2 = []) as (Hf & Hp & Ht & Hc).
  { destruct (assistantMessageId turn1) as [i|] eqn:Hi.
    - destruct (clear_owned t i0 rows0 turn1 w1) as (Hframe & Hpend & Htg & Hcr);
        [by rewrite Hi|done|].
      unfold Owned in Ho. rewrite Hi in Ho. destruct Ho as (-> & _ & _).
      destruct H2 as (old & _ & H2).
      destruct (usageMetadata turn1); destruct H2 as [-> ->]; simpl.
      + split_and!; try done.
        * intros k Hk. rewrite lookup_insert_ne by done. by apply Hframe.
        * apply Forall_app. split; [done|]. repeat constructor. by intros j [= <-].
        * by rewrite creations_app, Hcr.
      + split_and!; try done.
        * apply Forall_app. split; [done|]. repeat constructor. by intros j.
        * by rewrite creations_app, Hcr.
    - destruct H2 as [-> ->]. unfold Owned in Ho. rewrite Hi in Ho.
      destruct Ho as (Hc & Hp & _). split_and!; try done.
      intros k _. by rewrite Hc. }
  split_and!.
  - intros k Hk. destruct (hasError turn1); simpl; by apply Hf.
  - destruct (hasError turn1); simpl; done.
  - apply Forall_app. split; [done|]. apply Forall_app. split.
    + eapply Forall_impl; [exact Hcon|]. by intros e (? & _).
    + repeat constructor; by intros j.
  - rewrite !creations_app, Hc. simpl.
    unfold creations. rewrite filter_none; [done|].
    eapply Forall_impl; [exact Hcon|]. intros e (_ & _ & He & _). by rewrite He.
Qed.

(** X16. A turn that starts with no batched write pending for the task
    writes to one row only, the one the store creates for it: it creates at
    most one row, every call it makes to the message store or to the batch
    service is about that row, every other row of the table is left as it
    was, and no batched write is pending for the task when the turn ends.
    This holds for every stream, with or without errors and stop requests. *)
Theorem turn_writes_only_its_row t ctx ws chunks w :
  pendingUpdates w !! t = None →
  let r := streamTurnBody t ctx ws chunks w in
  (∀ k, k ≠ nextMessageId w → chatMessage (world r) !! k = chatMessage w !! k) ∧
  Forall (targets (nextMessageId w)) (events r) ∧
  (length (creations (events r)) ≤ 1)%nat ∧
  pendingUpdates (world r) !! t = None.
Proof.
  intros Hp r. subst r.
  assert (Owned t (nextMessageId w) (chatMessage w) initialTurn w) as Ho by done.
  destruct (reduceStream_owned t ctx _ _ chunks initialTurn w (TurnInv_initial w) Ho)
    as (turn1 & w1 & e1 & E & HI1 & Ho1 & Ht1 & _ & Hc1).
  rewrite (streamTurnBody_run _ _ _ _ _ _ _ _ E).
  destruct (finalizeTurn_owned t ctx ws _ _ turn1 w1 HI1 Ho1)
    as (W & evs & EF & Hf & Hpend & Ht & Hc).
  rewrite EF. unfold world, events. simpl. split_and!; try done.
  - by apply Forall_app.
  - rewrite creations_app, length_app, Hc, Hc1. simpl.
    destruct (assistantMessageId turn1); simpl; lia.
Qed.

(** *** Streams that never create the row *)

Lemma reduceStream_rowless t ctx chunks : ∀ turn w,
  TurnInv turn w → assistantMessageId turn = None →
  Forall (λ c, createsRow c = false) chunks →
  ∃ turn' w' evs,
    reduceStream t ctx chunks turn w = (Ok turn', w', evs) ∧
    TurnInv turn' w' ∧ assistantMessageId turn' = None ∧
    chatMessage w' = chatMessage w ∧ pendingUpdates w' = pendingUpdates w ∧
    Forall (λ e, isStoreCall e = false ∧ isPipeline e = false) evs.
Proof.
  induction chunks as [|c rest IH]; intros turn w HI Hid Hno.
  - exists turn, w, []. split_and!; done.
  - apply Forall_cons in Hno as [Hc Hno]. rewrite reduceStream_cons.
    destruct (bool_decide (t ∈ stopRequested w)).
    { exists turn, w, []. split_and!; done. }
    destruct (reduceChunk_inv t ctx c turn w HI) as (turn1 & w1 & e1 & E & HI1 & _).
    rewrite E.
    assert (assistantMessageId turn1 = None ∧ chatMessage w1 = chatMessage w ∧
            pendingUpdates w1 = pendingUpdates w ∧
            Forall (λ e, isStoreCall e = false ∧ isPipeline e = false) e1)
      as (Hid1 & Hc1 & Hp1 & He1).
    { destruct (isError c) eqn:Herr.
      - destruct c as [| | | | | |err fr| |]; try discriminate.
        destruct (reduceChunk_error_run t ctx err fr turn w HI) as (w2 & e2 & E2 & Hw).
        cbv zeta in E2. rewrite E2 in E. injection E as <- <- <-.
        rewrite Hid in Hw. destruct Hw as [-> ->]. simpl.
        split_and!; try done. repeat constructor.
      - destruct (reduceChunk_store t ctx c turn w Herr HI)
          as (turn2 & w2 & e2 & E2 & _ & _ & _ & Hrow).
        rewrite E2 in E. injection E as <- <- <-.
        rewrite Hid, Hc in Hrow. destruct Hrow as (-> & -> & ->). done. }
    destruct (isError c).
    + do 3 eexists. split; [reflexivity|]. split_and!; try done.
      by constructor.
    + destruct (IH turn1 w1 HI1 Hid1 Hno)
        as (turn2 & w2 & e2 & E2 & HI2 & Hid2 & Hc2 & Hp2 & He2).
      rewrite E2. unfold result, world, events. simpl.
      do 3 eexists. split; [reflexivity|]. split_and!; try done; try congruence.
      constructor; [done|]. by apply Forall_app.
Qed.

(** X17. A stream without an event that creates the row (no content,
    reasoning or redacted reasoning with a text: tool calls, tool results,
    usage or an error only) leaves nothing in the store: the turn ends
    without a row, makes no call to the message store or to the batch
    service, leaves the table and the pending writes as they were, and
    requests neither a change proposal nor a checkpoint, whatever the commit
    step answers. *)
Theorem rowless_turn_stores_nothing t ctx ws chunks w :
  Forall (λ c, createsRow c = false) chunks →
  let r := streamTurnBody t ctx ws chunks w in
  ∃ final,
    result r = Ok final ∧ assistantMessageId final = None ∧
    chatMessage (world r) = chatMessage w ∧
    pendingUpdates (world r) = pendingUpdates w ∧
    Forall (λ e, isStoreCall e = false) (events r) ∧
    pipeline (events r) = [].
Proof.
  intros Hno r. subst r.
  destruct (reduceStream_rowless t ctx chunks initialTurn w (TurnInv_initial w)
              eq_refl Hno)
    as (turn1 & w1 & e1 & E & HI1 & Hid1 & Hc1 & Hp1 & He1).
  rewrite (streamTurnBody_run _ _ _ _ _ _ _ _ E).
  assert (persistFinal t (finalizeReasoning turn1) w1 = (Ok tt, w1, [])) as E2.
  { unfold persistFinal. simpl. by rewrite Hid1. }
  rewrite (finalizeTurn_exact _ _ _ _ _ _ _ E2).
  pose proof (concludeTurn_events_plain t ctx ws (bool_decide (t ∈ stopRequested w1))
                (finalizeReasoning turn1) w1 0%nat) as Hcon.
  assert (pipeline (events (concludeTurn t ctx ws (bool_decide (t ∈ stopRequested w1))
                              (finalizeReasoning turn1) w1)) = []) as Hpipe.
  { rewrite concludeTurn_events. simpl assistantMessageId. rewrite Hid1.
    destruct (hasError _); [done|]. destruct (bool_decide _); [done|].
    by destruct (commitChangesIfAny t ctx ws) as [[|]|]. }
  set (ec := events (concludeTurn _ _ _ _ _ _)) in *.
  unfold result, world, events. simpl.
  eexists. split; [reflexivity|]. split_and!.
  - done.
  - by destruct (hasError turn1).
  - by destruct (hasError turn1).
  - apply Forall_app. split; [|apply Forall_app; split].
    + eapply Forall_impl; [exact He1|]. by intros e (? & _).
    + eapply Forall_impl; [exact Hcon|]. by intros e (_ & ? & _).
    + repeat constructor.
  - rewrite !pipeline_app, Hpipe.
    rewrite (pipeline_none e1); [done|].
    eapply Forall_impl; [exact He1|]. by intros e (_ & ?).
Qed.

(** ** Stop requests, teardown and what follows a turn *)

(** X18. A turn that starts while a stop request is outstanding for the
    task, as after [stopStream], which leaves the request set, consumes no
    event of its stream: no part is collected, nothing is sent on or stored,
    the task is marked STOPPED, and the request and the registration of the
    stream are dropped, so that the turn after this one runs. *)
Theorem turn_after_stop_consumes_nothing t ctx ws chunks w :
  t ∈ stopRequested w →
  let r := streamTurnBody t ctx ws chunks w in
  result r = Ok initialTurn ∧
  events r = [EUpdateTaskStatus t STOPPED; EScheduleTaskCleanup t;
              EEndStream t; EStopMCPManager t] ∧
  taskStatus (world r) !! t = Some STOPPED ∧
  (t ∉ stopRequested (world r)) ∧ activeStreams (world r) !! t = None ∧
  chatMessage (world r) = chatMessage w ∧
  pendingUpdates (world r) = pendingUpdates w.
Proof.
  intros Hstop r. subst r.
  rewrite (streamTurnBody_run _ _ _ _ _ _ _ _ (reduceStream_stopped t ctx chunks _ _ Hstop)).
  assert (persistFinal t (finalizeReasoning initialTurn) w = (Ok tt, w, [])) as E2 by done.
  rewrite (finalizeTurn_exact _ _ _ _ _ _ _ E2).
  rewrite concludeTurn_events. rewrite bool_decide_eq_true_2 by done.
  unfold result, world, events. simpl. split_and!; try done.
  - apply lookup_insert_eq.
  - intros Hin. apply elem_of_difference in Hin as [_ Hn]. apply Hn.
    by apply elem_of_singleton.
  - apply lookup_delete_eq.
Qed.

(** An error-free stream, whether or not a stop is requested. *)
Lemma reduceStream_errorfree_any t ctx chunks turn w :
  Forall (λ c, isError c = false) chunks → TurnInv turn w →
  ∃ turn1 w1 e1,
    reduceStream t ctx chunks turn w = (Ok turn1, w1, e1) ∧
    TurnInv turn1 w1 ∧
    activeStreams w1 = activeStreams w ∧ stopRequested w1 = stopRequested w ∧
    queuedActions w1 = queuedActions w ∧ taskStatus w1 = taskStatus w ∧
    Forall calm e1 ∧ hasError turn1 = hasError turn.
Proof.
  intros Hne HI.
  destruct (decide (t ∈ stopRequested w)) as [Hs|Hs].
  - exists turn, w, []. rewrite (reduceStream_stopped _ _ _ _ _ Hs).
    split_and!; try done.
  - destruct (reduceStream_inv t ctx chunks turn w HI) as (turn1 & w1 & e1 & E & _).
    destruct (reduceStream_errorfree t ctx chunks turn w turn1 w1 e1 Hne Hs HI E)
      as (HI1 & Ha & Hst & Hq & Hts & _ & Hcalm & _ & Herr & _).
    exists turn1, w1, e1. done.
Qed.

(** X19. After a turn whose stream holds no error event, the action in the
    queue slot of the task is handed over once, and only when the turn is
    fully wound up: at the hand-over the slot is empty, the stream is no
    longer registered, the stop request is dropped and the task is marked
    COMPLETED, or STOPPED when a stop was requested; nothing of the queue is
    handed over before. *)
Theorem queued_action_follows_teardown t ctx ws chunks a w :
  Forall (λ c, isError c = false) chunks →
  queuedActions w !! t = Some a →
  let w0 := set_activeStreams (insert t (nextController w))
              (set_nextController S w) in
  let body := streamTurnBody t ctx ws chunks w0 in
  let W := set_queuedActions (delete t) (world body) in
  streamTurn t ctx ws chunks w =
    (Ok tt, world (dispatchQueuedAction t a W),
     EStartStream t :: events body ++ events (dispatchQueuedAction t a W)) ∧
  activeStreams W !! t = None ∧ (t ∉ stopRequested W) ∧
  queuedActions W !! t = None ∧
  taskStatus W !! t =
    Some (if bool_decide (t ∈ stopRequested w) then STOPPED else COMPLETED) ∧
  dispatched (events body) = [].
Proof.
  intros Hne Hq w0 body W.
  destruct (reduceStream_errorfree_any t ctx chunks initialTurn w0 Hne (TurnInv_initial w0))
    as (turn1 & w1 & e1 & E & HI1 & Ha1 & Hs1 & Hq1 & Hts1 & Hcalm & Herr).
  assert (∀ j, assistantMessageId (finalizeReasoning turn1) = Some j →
               is_Some (chatMessage w1 !! j)) as Hok.
  { intros j Hj. by apply (inv_row _ _ HI1). }
  destruct (persistFinal_run t (finalizeReasoning turn1) w1 Hok)
    as (w2 & e2 & E2 & Ha2 & Hs2 & Hq2 & Hts2 & _ & Hnd & _).
  destruct (finalizeTurn_run t ctx ws turn1 w1 (inv_row _ _ HI1))
    as (w2' & e2' & e3 & E2' & EF & Hquiet & _).
  rewrite E2 in E2'. injection E2' as <- <-.
  assert (body =
    (Ok (finalizeReasoning turn1),
     set_stopRequested (λ s, s ∖ {[t]})
       (set_activeStreams (delete t)
          (set_taskStatus
             (insert t (if bool_decide (t ∈ stopRequested w1)
                        then STOPPED else COMPLETED)) w2)),
     e1 ++ e2 ++ e3 ++ [EEndStream t; EStopMCPManager t])) as Hbody.
  { subst body. rewrite (streamTurnBody_run _ _ _ _ _ _ _ _ E), EF.
    simpl in Herr. rewrite Herr. done. }
  assert (queuedActions (world body) !! t = Some a) as Hqa.
  { rewrite Hbody. unfold world. simpl. by rewrite Hq2, Hq1. }
  split_and!.
  - rewrite (streamTurn_run t ctx ws chunks w (finalizeReasoning turn1)
               (world body) (events body)).
    + rewrite processQueuedActions_run, Hqa. done.
    + fold w0. fold body. rewrite Hbody. done.
  - subst W. rewrite Hbody. unfold world. simpl. apply lookup_delete_eq.
  - subst W. rewrite Hbody. unfold world. simpl.
    intros Hin. apply elem_of_difference in Hin as [_ Hn]. apply Hn.
    by apply elem_of_singleton.
  - subst W. simpl. apply lookup_delete_eq.
  - subst W. rewrite Hbody. unfold world. simpl. rewrite lookup_insert_eq.
    by rewrite Hs1.
  - rewrite Hbody. unfold events. simpl.
    rewrite !dispatched_app, (calm_dispatched e1 Hcalm),
      (nodispatch_dispatched e2 Hnd).
    rewrite (calm_dispatched e3)
      by (eapply Forall_impl; [exact Hquiet|apply quiet_calm]).
    done.
Qed.

(** X20. A turn that reaches the end of its body, every call it awaits
    having returned, has released its stream, whatever the stream yielded
    (stopped, failed at an error event or run to its end) and whatever the
    state it started from: the stream of the task is no longer registered, no
    stop request is left for it, and the end of the stream has been announced
    and the tool runtime of the task stopped as the last two steps. *)
Theorem turn_end_releases_the_stream t ctx ws chunks w :
  let r := streamTurnBody t ctx ws chunks w in
  activeStreams (world r) !! t = None ∧ (t ∉ stopRequested (world r)) ∧
  (∃ evs, events r = evs ++ [EEndStream t; EStopMCPManager t]).
Proof.
  intros r. subst r.
  destruct (reduceStream_inv t ctx chunks initialTurn w (TurnInv_initial w))
    as (turn1 & w1 & e1 & E & HI & _).
  rewrite (streamTurnBody_run _ _ _ _ _ _ _ _ E).
  destruct (finalizeTurn_run t ctx ws turn1 w1 (inv_row _ _ HI))
    as (w2 & e2 & e3 & _ & E2 & _).
  rewrite E2. unfold result, world, events. simpl. split_and!.
  - apply lookup_delete_eq.
  - intros Hin. apply elem_of_difference in Hin as [_ Hn]. apply Hn.
    by apply elem_of_singleton.
  - exists (e1 ++ e2 ++ e3). by rewrite <- !app_assoc.
Qed.

(** X21. A turn whose stream holds no error event and that is not stopped
    marks the task COMPLETED.  The steps that follow the commit, the change
    proposal and the checkpoint, are requested in this order, for the row of
    the turn, exactly when the commit step answers that changes were
    committed and the turn has a row; when the commit step rejects, the
    rejection is swallowed and neither is requested. *)
Theorem completed_turn_runs_the_pipeline t ctx ws chunks w :
  t ∉ stopRequested w →
  Forall (λ c, isError c = false) chunks →
  let r := streamTurnBody t ctx ws chunks w in
  ∃ final,
    result r = Ok final ∧
    taskStatus (world r) !! t = Some COMPLETED ∧
    (is_Some (assistantMessageId final) ↔
       Exists (λ c, createsRow c = true) chunks) ∧
    pipeline (events r) =
      match commitChangesIfAny t ctx ws, assistantMessageId final with
      | Ok true, Some i => [ECreatePRIfUserEnabled t i; ECreateCheckpoint t i]
      | _, _ => []
      end.
Proof.
  intros Hstop Hne r. subst r.
  destruct (reduceStream_store t ctx chunks initialTurn w Hne Hstop (TurnInv_initial w))
    as (turn1 & w1 & e1 & E & _ & _ & _ & Hp1).
  destruct (reduceStream_errorfree t ctx chunks initialTurn w turn1 w1 e1
              Hne Hstop (TurnInv_initial w) E)
    as (HI & _ & Hs1 & _ & _ & _ & _ & _ & Herr & Hid & _).
  rewrite (streamTurnBody_run _ _ _ _ _ _ _ _ E).
  assert (∀ j, assistantMessageId (finalizeReasoning turn1) = Some j →
               is_Some (chatMessage w1 !! j)) as Hok.
  { intros j Hj. by apply (inv_row _ _ HI). }
  destruct (persistFinal_exact t (finalizeReasoning turn1) w1 Hok)
    as (w2 & e2 & E2 & _).
  pose proof (persistFinal_events_store _ _ _ _ _ Hok E2) as He2.
  rewrite (finalizeTurn_exact _ _ _ _ _ _ _ E2).
  rewrite concludeTurn_events.
  change (hasError (finalizeReasoning turn1)) with (hasError turn1).
  simpl in Herr. rewrite Herr.
  rewrite bool_decide_eq_false_2 by (by rewrite Hs1).
  unfold result, world, events. simpl.
  exists (finalizeReasoning turn1). split_and!.
  - done.
  - apply lookup_insert_eq.
  - simpl. rewrite Hid. split; [intros [[? [=]]|?]; done|by right].
  - rewrite !pipeline_app, (pipeline_none e1 Hp1).
    rewrite (pipeline_none e2)
      by (eapply Forall_impl; [exact He2|apply store_not_pipeline]).
    simpl.
    destruct (commitChangesIfAny t ctx ws) as [[|]|];
      destruct (assistantMessageId turn1); done.
Qed.

(** ** Reasoning signatures *)

(** X22. A signature event that arrives while no reasoning block is open
    (no reasoning text since the start of the turn or since the last
    signature) is sent on to the client and has no other effect: the parts,
    the local state and the store are as without it. *)
Theorem stray_signature_is_ignored t ctx chunks s w :
  t ∉ stopRequested w →
  Forall (λ c, isError c = false) chunks →
  pendingText "" chunks = "" →
  reduceStream t ctx (chunks ++ [reasoning_signature_chunk s]) initialTurn w =
    (result (reduceStream t ctx chunks initialTurn w),
     world (reduceStream t ctx chunks initialTurn w),
     events (reduceStream t ctx chunks initialTurn w) ++
     [EEmitStreamChunk t (reasoning_signature_chunk s)]).
Proof.
  intros Hstop Hne Hclosed.
  destruct (reduceStream_inv t ctx chunks initialTurn w (TurnInv_initial w))
    as (turn1 & w1 & e1 & E & _).
  destruct (reduceStream_errorfree t ctx chunks initialTurn w turn1 w1 e1
              Hne Hstop (TurnInv_initial w) E)
    as (HI & _ & Hs1 & _ & _ & _ & _ & _ & _ & _ & _ & Hopen & _).
  rewrite (reduceStream_app t ctx chunks _ _ _ _ _ _ Hne (TurnInv_initial w) E).
  rewrite E. unfold result at 2, world at 2, events at 2. simpl.
  rewrite reduceStream_cons, bool_decide_eq_false_2 by (by rewrite Hs1).
  assert (reduceChunk t ctx (reasoning_signature_chunk s) turn1 w1 =
          (Ok (turn1, false), w1, [])) as ->.
  { unfold reduceChunk. destruct (truthy s); [|done].
    destruct (open_block_cases turn1 w1 HI) as [[_ ->]|(b & _ & G & _ & Ht)]; [done|].
    exfalso. change (openReasoning initialTurn) with "" in Hopen.
    unfold openReasoning in Hopen. rewrite G in Hopen.
    rewrite Hopen, Hclosed in Ht. done. }
  done.
Qed.

(** X23. A signature event that arrives while a reasoning block is open
    closes the block: one reasoning part with the text collected since the
    last signature and with this signature is appended, no block is open
    afterwards, the block counter moves on, and the end of the turn adds no
    further reasoning part. *)
Theorem signature_closes_the_open_block t ctx ws chunks s w :
  t ∉ stopRequested w →
  Forall (λ c, isError c = false) chunks →
  truthy s = true → truthy (pendingText "" chunks) = true →
  ∃ turn1 turn2,
    result (reduceStream t ctx chunks initialTurn w) = Ok turn1 ∧
    result (reduceStream t ctx (chunks ++ [reasoning_signature_chunk s])
              initialTurn w) = Ok turn2 ∧
    assistantParts turn2 =
      assistantParts turn1 ++ [ReasoningPart (pendingText "" chunks) (Some s)] ∧
    activeReasoningParts turn2 = [] ∧
    reasoningCounter turn2 = S (reasoningCounter turn1) ∧
    ∃ final,
      result (streamTurnBody t ctx ws (chunks ++ [reasoning_signature_chunk s]) w) =
        Ok final ∧
      assistantParts final = assistantParts turn2.
Proof.
  intros Hstop Hne Hs Htext.
  destruct (reduceStream_inv t ctx chunks initialTurn w (TurnInv_initial w))
    as (turn1 & w1 & e1 & E & _).
  destruct (reduceStream_errorfree t ctx chunks initialTurn w turn1 w1 e1
              Hne Hstop (TurnInv_initial w) E)
    as (HI & _ & Hs1 & _ & _ & _ & _ & _ & _ & _ & _ & Hopen & _).
  change (openReasoning initialTurn) with "" in Hopen.
  destruct (open_block_cases turn1 w1 HI) as [[_ G]|(b & Eb & G & Hsig & Ht)].
  { exfalso. unfold openReasoning in Hopen. rewrite G in Hopen.
    rewrite <- Hopen in Htext. done. }
  assert (rb_text b = pendingText "" chunks) as Hb.
  { unfold openReasoning in Hopen. by rewrite G in Hopen. }
  set (turn2 :=
    set_reasoning (Map_delete (reasoningCounter turn1) (activeReasoningParts turn1))
      (S (reasoningCounter turn1))
      (push (reasoningPart {| rb_text := rb_text b; rb_signature := Some s |}) turn1)).
  assert (∃ w2 e2, reduceChunk t ctx (reasoning_signature_chunk s) turn1 w1 =
                   (Ok (turn2, false), w2, e2)) as (w2 & e2 & Ec).
  { unfold reduceChunk. rewrite Hs, G. cbv zeta. fold turn2.
    unfold bind. rewrite scheduleUpdate_run. unfold ret.
    destruct (assistantMessageId turn2); simpl; eauto. }
  assert (reduceStream t ctx (chunks ++ [reasoning_signature_chunk s]) initialTurn w =
          (Ok turn2, w2, e1 ++ EEmitStreamChunk t (reasoning_signature_chunk s) :: e2))
    as E2.
  { rewrite (reduceStream_app t ctx chunks _ _ _ _ _ _ Hne (TurnInv_initial w) E).
    rewrite reduceStream_cons, bool_decide_eq_false_2 by (by rewrite Hs1).
    rewrite Ec. unfold result, world, events. simpl. by rewrite app_nil_r. }
  assert (activeReasoningParts turn2 = []) as Hact.
  { subst turn2. simpl. rewrite Eb. simpl. by rewrite Nat.eqb_refl. }
  exists turn1, turn2. rewrite E, E2. unfold result at 1 2. simpl.
  split_and!; try done.
  - unfold reasoningPart. simpl. by rewrite Hb.
  - destruct (streamTurnBody_ok t ctx ws (chunks ++ [reasoning_signature_chunk s]) w)
      as (final & w' & evs & Ef).
    pose proof Ef as Ef'.
    rewrite (streamTurnBody_run _ _ _ _ _ _ _ _ E2) in Ef'.
    destruct (reduceStream_inv t ctx (chunks ++ [reasoning_signature_chunk s])
                initialTurn w (TurnInv_initial w)) as (t2 & w2' & e2' & E2' & HI2 & _).
    rewrite E2 in E2'. injection E2' as <- <- <-.
    destruct (finalizeTurn_run t ctx ws turn2 w2 (inv_row _ _ HI2))
      as (w3 & e3 & e4 & _ & EF & _).
    rewrite EF in Ef'. unfold result, world, events in Ef'. simpl in Ef'.
    injection Ef' as <- _ _.
    exists (finalizeReasoning turn2). rewrite Ef. split; [done|].
    change (assistantParts (finalizeReasoning turn2))
      with (assistantParts turn2 ++
            (reasoningPart <$> Map_values (activeReasoningParts turn2))).
    rewrite Hact. apply app_nil_r.
Qed.

(** ** Events after an error *)

Lemma reduceStream_after_error t ctx err fr post pre : ∀ turn w,
  TurnInv turn w →
  reduceStream t ctx (pre ++ error_chunk err fr :: post) turn w =
  reduceStream t ctx (pre ++ [error_chunk err fr]) turn w.
Proof.
  induction pre as [|c pre IH]; intros turn w HI; simpl app;
    rewrite !(reduceStream_cons t ctx _ _ turn w);
    destruct (bool_decide (t ∈ stopRequested w)); try done.
  - destruct (reduceChunk_inv t ctx (error_chunk err fr) turn w HI)
      as (turn1 & w1 & e1 & E & _).
    by rewrite E.
  - destruct (reduceChunk_inv t ctx c turn w HI) as (turn1 & w1 & e1 & E & HI1 & _).
    rewrite E. destruct (isError c); [done|]. by rewrite (IH turn1 w1 HI1).
Qed.

(** X24. The events that the stream would yield after an error event are
    never consumed: the turn runs, writes and ends as if the stream ended with
    the error, whatever follows it. *)
Theorem events_after_error_are_dropped t ctx ws pre err fr post w :
  streamTurnBody t ctx ws (pre ++ error_chunk err fr :: post) w =
  streamTurnBody t ctx ws (pre ++ [error_chunk err fr]) w ∧
  streamTurn t ctx ws (pre ++ error_chunk err fr :: post) w =
  streamTurn t ctx ws (pre ++ [error_chunk err fr]) w.
Proof.
  assert (∀ w', streamTurnBody t ctx ws (pre ++ error_chunk err fr :: post) w' =
                streamTurnBody t ctx ws (pre ++ [error_chunk err fr]) w') as Hb.
  { intros w'. unfold streamTurnBody. unfold bind.
    by rewrite (reduceStream_after_error t ctx err fr post pre initialTurn w'
                  (TurnInv_initial w')). }
  split; [apply Hb|].
  unfold streamTurn. munfold. simpl. by rewrite Hb.
Qed.

(** ** The rows of a turn and their sequence numbers *)

Lemma createdRows_app e1 e2 : createdRows (e1 ++ e2) = createdRows e1 ++ createdRows e2.
Proof. apply omap_app. Qed.

Lemma createdRows_none evs :
  Forall (λ e, isCreate e = false) evs → createdRows evs = [].
Proof.
  induction 1 as [|e evs He _ IH]; [done|].
  destruct e; try discriminate; exact IH.
Qed.

Lemma store_calls_of_clear_create_nothing t w : createdRows (events (clear t w)) = [].
Proof.
  destruct (clear_exact t w) as (_ & _ & [[_ ->]|(u & _ & _ & ->)]); done.
Qed.

(** The row the loop creates, if it creates one, is an assistant row of the
    task, numbered after the rows the table holds when the turn starts. *)
Lemma reduceChunk_created t ctx rows0 chunk turn w :
  TurnInv turn w → (assistantMessageId turn = None → chatMessage w = rows0) →
  ∃ turn' w' evs,
    reduceChunk t ctx chunk turn w = (Ok (turn', isError chunk), w', evs) ∧
    TurnInv turn' w' ∧
    (assistantMessageId turn' = None → chatMessage w' = rows0) ∧
    (is_Some (assistantMessageId turn) → is_Some (assistantMessageId turn')) ∧
    (queuedActions w !! t = None → queuedActions w' !! t = None) ∧
    (createdRows evs = [] ∧
       (assistantMessageId turn = None → assistantMessageId turn' = None) ∨
     ∃ row, createdRows evs = [row] ∧ assistantMessageId turn = None ∧
            is_Some (assistantMessageId turn') ∧
            taskId row = t ∧ role row = ASSISTANT ∧
            sequence row = nextSequenceOf t rows0).
Proof.
  intros HI H0.
  destruct (reduceChunk_inv t ctx chunk turn w HI) as (turn' & w' & evs & E & HI' & _).
  exists turn', w', evs. split; [done|]. split; [done|].
  destruct (isError chunk) eqn:Herr.
  - destruct chunk as [| | | | | |err fr| |]; try discriminate.
    destruct (reduceChunk_error_run t ctx err fr turn w HI) as (w1 & e1 & E1 & Hw).
    cbv zeta in E1. rewrite E1 in E. injection E as <- <- <-.
    simpl assistantMessageId. split_and!.
    + intros Hn. rewrite Hn in Hw. destruct Hw as [-> _]. simpl. by apply H0.
    + done.
    + intros _. simpl. apply lookup_delete_eq.
    + left. split; [|done]. rewrite createdRows_app.
      destruct (assistantMessageId turn).
      * destruct Hw as (row & _ & _ & _ & ->).
        by rewrite createdRows_app, store_calls_of_clear_create_nothing.
      * by destruct Hw as [_ ->].
  - destruct (reduceChunk_store t ctx chunk turn w Herr HI)
      as (turn2 & w2 & evs2 & E2 & _ & _ & _ & Hrow).
    destruct (reduceChunk_track t ctx chunk turn w Herr HI)
      as (turn3 & w3 & evs3 & E3 & _ & _ & Hq & _).
    rewrite E2 in E, E3. injection E as <- <- <-. injection E3 as <- <- <-.
    destruct (assistantMessageId turn) as [i|] eqn:Hi.
    + destruct Hrow as (Hi' & _ & _ & Hev). rewrite Hi'. split_and!; try done.
      * by rewrite Hq.
      * left. split; [|done]. by destruct Hev as [[-> _]|(u & -> & _)].
    + destruct (createsRow chunk).
      * destruct Hrow as (row & Hi' & _ & _ & _ & -> & _ & Ht & Hr & Hs).
        rewrite Hi'. split_and!; try done.
        -- by rewrite Hq.
        -- right. exists row. rewrite Hs, (H0 eq_refl). by split_and!.
      * destruct Hrow as (Hi' & -> & ->). rewrite Hi'.
        split_and!; try done; try (intros _; by apply H0); by left.
Qed.

Lemma reduceStream_created t ctx rows0 chunks : ∀ turn w,
  TurnInv turn w → (assistantMessageId turn = None → chatMessage w = rows0) →
  ∃ turn' w' evs,
    reduceStream t ctx chunks turn w = (Ok turn', w', evs) ∧
    TurnInv turn' w' ∧
    (queuedActions w !! t = None → queuedActions w' !! t = None) ∧
    (is_Some (assistantMessageId turn) → createdRows evs = []) ∧
    (createdRows evs = [] ∨
     ∃ row, createdRows evs = [row] ∧
            taskId row = t ∧ role row = ASSISTANT ∧
            sequence row = nextSequenceOf t rows0).
Proof.
  induction chunks as [|c rest IH]; intros turn w HI H0.
  - exists turn, w, []. split_and!; try done. by left.
  - rewrite reduceStream_cons.
    destruct (bool_decide (t ∈ stopRequested w)).
    { exists turn, w, []. split_and!; try done. by left. }
    destruct (reduceChunk_created t ctx rows0 c turn w HI H0)
      as (turn1 & w1 & e1 & E & HI1 & H1 & Hm1 & Hq1 & Hc1).
    rewrite E. destruct (isError c).
    + do 3 eexists. split; [reflexivity|]. split_and!; try done.
      * intros [i Hi]. destruct Hc1 as [[? _]|(row & _ & Hn & _)]; [done|congruence].
      * destruct Hc1 as [[? _]|(row & ? & _ & _ & ?)]; [by left|right; eauto].
    + destruct (IH turn1 w1 HI1 H1) as (turn2 & w2 & e2 & E2 & HI2 & Hq2 & Hs2 & Hc2).
      rewrite E2. unfold result, world, events. simpl.
      do 3 eexists. split; [reflexivity|]. split; [done|].
      change (createdRows (EEmitStreamChunk t c :: e1 ++ e2))
        with (createdRows (e1 ++ e2)).
      rewrite createdRows_app. split_and!.
      * auto.
      * intros Hs. rewrite (Hs2 (Hm1 Hs)), app_nil_r.
        destruct Hs as [i Hi].
        destruct Hc1 as [[? _]|(row & _ & Hn & _)]; [done|congruence].
      * destruct Hc1 as [[-> Hn]|(row & -> & _ & Hsome & Hrow)].
        -- done.
        -- rewrite (Hs2 Hsome). right. eauto.
Qed.

Lemma streamTurnBody_created t ctx ws chunks w :
  ∃ turn W evs,
    streamTurnBody t ctx ws chunks w = (Ok turn, W, evs) ∧
    (queuedActions w !! t = None → queuedActions W !! t = None) ∧
    (createdRows evs = [] ∨
     ∃ row, createdRows evs = [row] ∧
            taskId row = t ∧ role row = ASSISTANT ∧
            sequence row = nextSequenceOf t (chatMessage w)).
Proof.
  destruct (reduceStream_created t ctx (chatMessage w) chunks initialTurn w
              (TurnInv_initial w) (λ _, eq_refl))
    as (turn1 & w1 & e1 & E & HI1 & Hq1 & _ & Hc1).
  rewrite (streamTurnBody_run _ _ _ _ _ _ _ _ E).
  assert (∀ j, assistantMessageId (finalizeReasoning turn1) = Some j →
               is_Some (chatMessage w1 !! j)) as Hok.
  { intros j Hj. by apply (inv_row _ _ HI1). }
  destruct (persistFinal_run t (finalizeReasoning turn1) w1 Hok)
    as (w2 & e2 & E2 & _ & _ & Hq2 & _).
  pose proof (persistFinal_events_store _ _ _ _ _ Hok E2) as He2.
  destruct (persistFinal_exact t (finalizeReasoning turn1) w1 Hok)
    as (w2' & e2' & E2' & Hex).
  rewrite E2 in E2'. injection E2' as <- <-.
  assert (createdRows e2 = []) as Hn2.
  { destruct (assistantMessageId (finalizeReasoning turn1));
      [|by destruct Hex as [_ ->]].
    destruct Hex as (old & _ & Hex).
    destruct (usageMetadata (finalizeReasoning turn1)); destruct Hex as [_ ->];
      by rewrite createdRows_app, store_calls_of_clear_create_nothing. }
  rewrite (finalizeTurn_exact _ _ _ _ _ _ _ E2).
  pose proof (concludeTurn_events_plain t ctx ws (bool_decide (t ∈ stopRequested w1))
                (finalizeReasoning turn1) w2 0%nat) as Hcon.
  set (ec := events (concludeTurn _ _ _ _ _ _)) in *.
  unfold result, world, events. simpl.
  do 3 eexists. split; [reflexivity|]. split.
  - intros Hq. destruct (hasError turn1); simpl; rewrite Hq2; auto.
  - rewrite !createdRows_app, Hn2.
    rewrite (createdRows_none ec)
      by (eapply Forall_impl; [exact Hcon|]; by intros e (_ & _ & ? & _)).
    simpl. by rewrite app_nil_r.
Qed.

Lemma systemRow_step t c model (k : M unit) w :
  (seq <- getNextSequence t ;;
   saveSystemMessage t c model (Some seq) None ;;; k) w =
  let row := systemRow t c model (nextSequenceOf t (chatMessage w)) in
  let w1 := set_nextMessageId S (set_chatMessage (insert (nextMessageId w) row) w) in
  (result (k w1), world (k w1), EMessageCreate (nextMessageId w) row :: events (k w1)).
Proof.
  unfold getNextSequence, saveSystemMessage, chatMessage_create. munfold. simpl.
  unfold result, world, events, systemRow.
  by destruct (k _) as [[??]?].
Qed.

Lemma systemRows_run t model sys : ∀ w,
  ∃ W evs,
    foldr (λ c k,
             seq <- getNextSequence t ;;
             saveSystemMessage t c model (Some seq) None ;;;
             k)
          (ret tt) sys w = (Ok tt, W, evs) ∧
    content <$> createdRows evs = sys ∧
    Forall (λ row, taskId row = t ∧ role row = SYSTEM) (createdRows evs) ∧
    sequence <$> createdRows evs =
      seqZ (nextSequenceOf t (chatMessage w)) (Z.of_nat (length sys)) ∧
    nextSequenceOf t (chatMessage W) =
      nextSequenceOf t (chatMessage w) + Z.of_nat (length sys) ∧
    queuedActions W = queuedActions w.
Proof.
  induction sys as [|c sys IH]; intros w.
  - exists w, []. split; [done|]. split_and!; try done. simpl. lia.
  - cbn [foldr]. rewrite systemRow_step. cbv zeta.
    set (row := systemRow t c model (nextSequenceOf t (chatMessage w))).
    set (w1 := set_nextMessageId S
                 (set_chatMessage (insert (nextMessageId w) row) w)).
    destruct (IH w1) as (W & evs & E & Hc & Hr & Hs & Hn & Hq).
    assert (nextSequenceOf t (chatMessage w1) = nextSequenceOf t (chatMessage w) + 1)
      as Hnext.
    { subst w1. simpl. by apply nextSequenceOf_insert. }
    exists W, (EMessageCreate (nextMessageId w) row :: evs).
    split; [by rewrite E|].
    change (createdRows (EMessageCreate (nextMessageId w) row :: evs))
      with (row :: createdRows evs).
    split_and!.
    + by rewrite fmap_cons, Hc.
    + constructor; done.
    + rewrite fmap_cons, Hs, Hnext. simpl length.
      rewrite (seqZ_cons (nextSequenceOf t (chatMessage w))) by lia.
      simpl. f_equal. f_equal; lia.
    + rewrite Hn, Hnext. simpl length. lia.
    + by rewrite Hq.
Qed.

(** X25. The rows a turn creates for a message that is saved carry
    consecutive sequence numbers in the order user message, system messages
    of the first turn, assistant message: the user row takes the number after
    the rows the task has, the system rows the numbers after it, and the
    assistant row, when the stream creates one, the number after those.  All
    are rows of the task, and the turn creates no other row.  This is for
    stored sequences on which the additions are exact: none of these numbers
    exceeds 2^53. *)
Theorem turn_rows_are_numbered_in_order t userMessage ctx ws sys chunks w :
  queuedActions w !! t = None →
  safeSequences t (2 + length sys) (chatMessage w) →
  let r := beginTurn t userMessage ctx false ws sys chunks w in
  let s0 := nextSequenceOf t (chatMessage w) in
  ∃ user system assistant,
    createdRows (events r) = user :: system ++ assistant ∧
    Forall (λ row, taskId row = t) (user :: system ++ assistant) ∧
    role user = USER ∧ content user = userMessage ∧ sequence user = s0 ∧
    Forall (λ row, role row = SYSTEM) system ∧
    content <$> system = sys ∧
    sequence <$> system = seqZ (s0 + 1) (Z.of_nat (length sys)) ∧
    (length assistant ≤ 1)%nat ∧
    Forall (λ row, role row = ASSISTANT ∧
                   sequence row = s0 + 1 + Z.of_nat (length sys)) assistant ∧
    - 2 ^ 53 < s0 ∧ s0 + 1 + Z.of_nat (length sys) ≤ 2 ^ 53.
Proof.
  intros Hq Hsafe r s0.
  destruct (nextSequenceOf_safe _ _ _ Hsafe) as [Hlo Hhi]. fold s0 in Hlo, Hhi.
  set (user := {| taskId := t; content := userMessage; role := USER;
                  sequence := s0; llmModel := mainModel ctx; metadata := None;
                  msg_promptTokens := None; msg_completionTokens := None;
                  msg_totalTokens := None; msg_finishReason := None;
                  stackedTaskId := None; editedAt := None |}).
  set (w1 := set_nextMessageId S
               (set_chatMessage (insert (nextMessageId w) user) w)).
  assert (nextSequenceOf t (chatMessage w1) = s0 + 1) as Hnext.
  { subst w1. simpl. by apply nextSequenceOf_insert. }
  destruct (systemRows_run t (mainModel ctx) sys w1)
    as (W & evs & E & Hc & Hr & Hs & Hn & HqW).
  set (w0 := set_activeStreams (insert t (nextController W)) (set_nextController S W)).
  destruct (streamTurnBody_created t ctx ws chunks w0)
    as (turn & W' & ebody & Eb & Hq' & Hrows).
  assert (queuedActions W' !! t = None) as HqW'.
  { apply Hq'. subst w0. simpl. rewrite HqW. subst w1. done. }
  assert (streamTurn t ctx ws chunks W = (Ok tt, W', EStartStream t :: ebody ++ []))
    as Est.
  { rewrite (streamTurn_run t ctx ws chunks W turn W' ebody Eb).
    by rewrite processQueuedActions_run, HqW'. }
  assert (r = (Ok tt, W',
               [EMessageCreate (nextMessageId w) user; EUpdateTaskActivity t] ++
               evs ++ EStartStream t :: ebody ++ [])) as ->.
  { subst r. unfold beginTurn.
    unfold saveUserMessage, createMessageWithAtomicSequence, chatMessage_create,
      updateTaskActivity.
    unfold bind at 1. unfold bind at 1. munfold. simpl.
    fold s0. fold user. fold w1.
    change (foldr _ _ sys w1) with
      (foldr (λ c k,
                seq <- getNextSequence t ;;
                saveSystemMessage t c (mainModel ctx) (Some seq) None ;;;
                k) (ret tt) sys w1).
    rewrite E. rewrite Est. reflexivity. }
  rewrite app_nil_r. unfold events. simpl.
  change (createdRows (EMessageCreate (nextMessageId w) user ::
                       EUpdateTaskActivity t :: evs ++ EStartStream t :: ebody))
    with (user :: createdRows (evs ++ EStartStream t :: ebody)).
  rewrite createdRows_app.
  change (createdRows (EStartStream t :: ebody)) with (createdRows ebody).
  assert (nextSequenceOf t (chatMessage w0) = s0 + 1 + Z.of_nat (length sys)) as Hn0.
  { subst w0. simpl. by rewrite Hn, Hnext. }
  exists user, (createdRows evs), (createdRows ebody).
  split; [done|]. split_and!; try done.
  - constructor; [done|]. apply Forall_app. split.
    + eapply Forall_impl; [exact Hr|]. by intros row [? _].
    + destruct Hrows as [->|(row & -> & Ht & _)]; repeat constructor; done.
  - eapply Forall_impl; [exact Hr|]. by intros row [_ ?].
  - by rewrite Hs, Hnext.
  - destruct Hrows as [->|(row & -> & _)]; simpl; lia.
  - destruct Hrows as [->|(row & -> & _ & Hro & Hse)]; repeat constructor; [done|].
    by rewrite Hse, Hn0.
  - lia.
Qed.

(** ** An immediate message and the turn it interrupts *)





(** *** The steps of the interruption *)











End ChatService.

(** * The commit and proposal steps *)

Ltac same_answers :=
  repeat match goal with
         | H : Ok _ = Ok _ |- _ => injection H as H; subst
         | H1 : ?a = Ok ?x, H2 : ?a = Ok ?y |- _ =>
             tryif constr_eq x y then fail
             else (assert (y = x) by congruence; clear H2; subst y)
         end.

Ltac remote_no :=
  left; split; [done|];
  let Hm := fresh in
  intros ? ? (? & ? & ? & ? & ? & ? & ? & ? & ? & Hm & ? & ? & ? & ?);
  same_answers;
  try match goal with
      | Hu : ∀ m, _ → m = _ |- _ => apply Hu in Hm; subst
      | Hg : ∀ m, _ ↔ _ |- _ => apply Hg in Hm
      end;
  same_answers;
  congruence.

(** The two outcomes of the remote commit: [false], when the answers of
    the collaborators do not let it go through, and [true] after one commit
    and one push, when they do. *)
Lemma commitChangesRemoteMode_cases executor task :
  let r := Git.commitChangesRemoteMode executor task in
  (r.1 = Ok false ∧ ∀ msg br, ¬ Git.remoteCommitGoesThrough executor task msg br) ∨
  (∃ msg br,
     r = (Ok true, [Git.CommitChanges msg; Git.PushBranch br]) ∧
     Git.remoteCommitGoesThrough executor task msg br ∧
     ∀ msg' br', Git.remoteCommitGoesThrough executor task msg' br' →
                 msg' = msg ∧ br' = br).
Proof.
  intros r. subst r. unfold Git.commitChangesRemoteMode, Git.remoteCommitGoesThrough.
  unfold c_catch, c_bind, c_await, c_call, c_ret.
  destruct executor as [ex|e]; simpl; [|remote_no].
  destruct (Git.getGitStatus ex) as [st|e] eqn:Est; simpl; [|remote_no].
  destruct (Git.status_success st) eqn:Ess; simpl; [|remote_no].
  destruct (Git.hasChanges st) eqn:Ehc; simpl; [|remote_no].
  destruct (Git.getGitDiff ex) as [df|e] eqn:Edf; simpl; [|remote_no].
  assert (∃ gen : Result string,
            (if Git.diff_success df && present (Git.diff df)
             then (Git.generateCommitMessage ex (default "" (Git.diff df)),
                   @nil Git.GitCall)
             else (Ok "Update code via Shadow agent", [])) = (gen, []) ∧
            ∀ msg, gen = Ok msg ↔
              (if Git.diff_success df && present (Git.diff df)
               then Git.generateCommitMessage ex (default "" (Git.diff df)) = Ok msg
               else msg = "Update code via Shadow agent")) as (gen & Egen & Hg).
  { destruct (Git.diff_success df && present (Git.diff df)).
    - eexists. split; [reflexivity|]. done.
    - eexists. split; [reflexivity|]. intros msg.
      split; [by intros [= <-]|by intros ->]. }
  match goal with
  | |- context [let (r, l) := ?c in _] =>
      change c with
        (if Git.diff_success df && present (Git.diff df)
         then (Git.generateCommitMessage ex (default "" (Git.diff df)),
               @nil Git.GitCall)
         else (Ok "Update code via Shadow agent", []))
  end.
  rewrite Egen. clear Egen.
  destruct gen as [msg|e]; simpl.
  2: remote_no.
  assert (∀ msg', (if Git.diff_success df && present (Git.diff df)
                   then Git.generateCommitMessage ex (default "" (Git.diff df)) = Ok msg'
                   else msg' = "Update code via Shadow agent") → msg' = msg) as Hu.
  { intros msg' Hm. apply Hg in Hm. by injection Hm. }
  assert (if Git.diff_success df && present (Git.diff df)
          then Git.generateCommitMessage ex (default "" (Git.diff df)) = Ok msg
          else msg = "Update code via Shadow agent") as Hmsg by (by apply Hg).
  clear Hg.
  destruct (Git.commitChanges ex msg) as [ok|e] eqn:Ecm; simpl;
    [|remote_no].
  destruct ok; simpl; [|remote_no].
  destruct (Git.shadowBranch task) as [br|] eqn:Ebr; simpl; [|remote_no].
  destruct (truthy br) eqn:Etr; simpl; [|remote_no].
  destruct (Git.pushBranch ex br) as [pushed|e] eqn:Epush; simpl;
    [|remote_no].
  right. exists msg, br. split; [done|]. split.
  - exists ex, st, df, pushed. split_and!; done.
  - intros msg' br' (ex' & st' & df' & pushed' & ? & ? & ? & ? & ? & Hm & ? & ? & ? & ?).
    assert (ex' = ex) by congruence. subst ex'.
    assert (df' = df) by congruence. subst df'.
    apply Hu in Hm. subst msg'. split; [done|]. congruence.
Qed.

(** X10. [commitChangesRemoteMode] never rejects: it answers [true] or
    [false].  It answers [true] exactly when the executor was created, the
    status call succeeded and reported changes, the diff call returned, the
    commit message was obtained (generated from the diff when there is one,
    the default text otherwise), the commit succeeded, the task has a shadow
    branch and the push call returned; whether the push succeeded does not
    matter.  Under these answers one commit, with that message, and one push
    of the shadow branch are made, in this order, and nothing else.  Every
    rejection of the executor is therefore answered with [false]. *)
Theorem remote_commit_true_iff executor task :
  let r := Git.commitChangesRemoteMode executor task in
  (r.1 = Ok true ∨ r.1 = Ok false) ∧
  (r.1 = Ok true ↔ ∃ msg br, Git.remoteCommitGoesThrough executor task msg br) ∧
  (∀ msg br, Git.remoteCommitGoesThrough executor task msg br →
             r = (Ok true, [Git.CommitChanges msg; Git.PushBranch br])) ∧
  (∀ e, executor = Throw e → r = (Ok false, [])).
Proof.
  intros r.
  destruct (commitChangesRemoteMode_cases executor task)
    as [[Hf Hno]|(msg & br & Hr & Hyes & Huniq)]; fold r in Hf || fold r in Hr.
  - split_and!.
    + by right.
    + split; [intros H; congruence|]. intros (msg & br & H). by destruct (Hno msg br).
    + intros msg br H. by destruct (Hno msg br).
    + by intros e ->.
  - split_and!.
    + left. by rewrite Hr.
    + split; [intros _; eauto|]. intros _. by rewrite Hr.
    + intros msg' br' H. destruct (Huniq msg' br' H) as [-> ->]. done.
    + intros e ->. destruct Hyes as (ex & ? & ? & ? & ? & _). done.
Qed.

(** The remote commit makes no call, one commit, or one commit followed by
    one push. *)
Lemma commitChangesRemoteMode_calls executor task :
  let r := Git.commitChangesRemoteMode executor task in
  r.2 = [] ∨ (∃ m, r.2 = [Git.CommitChanges m]) ∨
  (∃ m br, r.2 = [Git.CommitChanges m; Git.PushBranch br] ∧
           Git.shadowBranch task = Some br).
Proof.
  intros r. subst r. unfold Git.commitChangesRemoteMode.
  unfold c_catch, c_bind, c_await, c_call, c_ret.
  destruct executor as [ex|e]; simpl; [|by left].
  destruct (Git.getGitStatus ex) as [st|e]; simpl; [|by left].
  destruct (Git.status_success st); simpl; [|by left].
  destruct (Git.hasChanges st); simpl; [|by left].
  destruct (Git.getGitDiff ex) as [df|e]; simpl; [|by left].
  destruct (if Git.diff_success df && present (Git.diff df) then _ else _)
    as [[msg|e] l] eqn:E; simpl.
  2: { left. destruct (Git.diff_success df && present (Git.diff df));
         injection E as _ <-; done. }
  assert (l = []) as ->
    by (destruct (Git.diff_success df && present (Git.diff df));
        injection E as _ <-; done).
  simpl. right.
  destruct (Git.commitChanges ex msg) as [[|]|e]; simpl; [|left; eauto..].
  destruct (Git.shadowBranch task) as [br|]; simpl; [|left; eauto].
  destruct (truthy br); simpl; [|left; eauto].
  right. destruct (Git.pushBranch ex br); simpl; eauto.
Qed.

(** X11. [commitChangesIfAny] commits, and answers [true], only for a task
    that exists and has a shadow branch and a workspace path, the one given
    or else the one of the task.  In remote mode, once the task is looked up,
    the call never rejects: for such a task it is the remote commit, calls
    included, so it answers [true] exactly when the answers of the tool
    executor let the remote commit go through, and [false] otherwise, in
    particular when the executor cannot be created or one of its calls
    rejects.  In local mode a rejection of the git manager is passed on to
    the caller, the commit is attempted only when the manager reports
    changes, and its answer is the result. *)
Theorem commit_guards_and_modes agentMode task gitManager executor workspacePath :
  let r := Git.commitChangesIfAny agentMode task gitManager executor workspacePath in
  let resolved tk :=
    if present workspacePath then workspacePath else Git.task_workspacePath tk in
  (Exists (λ c, Git.isCommit c = true) r.2 ∨ r.1 = Ok true →
   ∃ tk, task = Ok (Some tk) ∧ present (Git.shadowBranch tk) = true ∧
         present (resolved tk) = true) ∧
  (∀ e, task = Throw e → r = (Throw e, [])) ∧
  (∀ tk, agentMode = Git.remote → task = Ok (Some tk) →
     present (Git.shadowBranch tk) = true → present (resolved tk) = true →
     r = Git.commitChangesRemoteMode executor tk) ∧
  (agentMode = Git.remote → (∃ tk, task = Ok tk) →
     (r.1 = Ok true ∨ r.1 = Ok false) ∧
     (r.1 = Ok true ↔
      ∃ tk msg br, task = Ok (Some tk) ∧ present (Git.shadowBranch tk) = true ∧
                   present (resolved tk) = true ∧
                   Git.remoteCommitGoesThrough executor tk msg br) ∧
     (∀ e, executor = Throw e → r = (Ok false, []))) ∧
  (∀ tk, agentMode = Git.local → task = Ok (Some tk) →
     present (Git.shadowBranch tk) = true → present (resolved tk) = true →
     let gm := gitManager (default "" (resolved tk)) in
     r = match Git.gm_hasChanges gm with
         | Throw e => (Throw e, [])
         | Ok false => (Ok false, [])
         | Ok true =>
             (Git.gm_commitChangesIfAny gm,
              [Git.LocalCommit (default "" (resolved tk))])
         end).
Proof.
  intros r resolved.
  assert (∀ tk, agentMode = Git.remote → task = Ok (Some tk) →
            present (Git.shadowBranch tk) = true → present (resolved tk) = true →
            r = Git.commitChangesRemoteMode executor tk) as Hremote.
  { intros tk -> -> Hb Hw. subst r. unfold Git.commitChangesIfAny.
    unfold c_catch, c_bind, c_await, c_call, c_ret. simpl. rewrite Hb. simpl.
    fold (resolved tk). rewrite Hw. simpl.
    destruct (commitChangesRemoteMode_cases executor tk)
      as [[Hf _]|(msg & br & Hr & _)].
    - destruct (Git.commitChangesRemoteMode executor tk) as [[b|e] l];
        simpl in *; [done|discriminate].
    - rewrite Hr. done. }
  split_and!.
  - subst r. unfold Git.commitChangesIfAny.
    unfold c_catch, c_bind, c_await, c_call, c_ret.
    destruct task as [[tk|]|e]; simpl.
    2,3: intros [H|H]; [by apply Exists_nil in H|done].
    fold (resolved tk).
    destruct (present (Git.shadowBranch tk)) eqn:Eb; simpl.
    2: intros [H|H]; [by apply Exists_nil in H|done].
    destruct (present (resolved tk)) eqn:Ew; simpl.
    2: intros [H|H]; [by apply Exists_nil in H|done].
    intros _. by exists tk.
  - intros e ->. done.
  - exact Hremote.
  - intros Hmode [otk Htask].
    destruct otk as [tk|].
    2: { subst r. rewrite Htask. unfold Git.commitChangesIfAny.
         unfold c_catch, c_bind, c_await, c_call, c_ret. simpl.
         split_and!; [by right| |done].
         split; [done|]. intros (tk & ? & ? & ? & _). done. }
    destruct (present (Git.shadowBranch tk)) eqn:Eb.
    2: { subst r. rewrite Htask. unfold Git.commitChangesIfAny.
         unfold c_catch, c_bind, c_await, c_call, c_ret. simpl. rewrite Eb. simpl.
         split_and!; [by right| |done].
         split; [done|]. intros (tk' & ? & ? & ? & ? & ? & ?). simplify_eq.
         congruence. }
    destruct (present (resolved tk)) eqn:Ew.
    2: { subst r. rewrite Htask. unfold Git.commitChangesIfAny.
         unfold c_catch, c_bind, c_await, c_call, c_ret. simpl. rewrite Eb. simpl.
         fold (resolved tk). rewrite Ew. simpl.
         split_and!; [by right| |done].
         split; [done|]. intros (tk' & ? & ? & ? & ? & ? & ?). simplify_eq.
         congruence. }
    rewrite (Hremote tk Hmode Htask Eb Ew).
    destruct (commitChangesRemoteMode_cases executor tk)
      as [[Hf Hno]|(msg & br & Hr & Hyes & Huniq)].
    + split_and!.
      * by right.
      * split; [intros H; congruence|].
        intros (tk' & msg & br & ? & _ & _ & H). simplify_eq.
        by destruct (Hno msg br).
      * intros e ->. unfold Git.commitChangesRemoteMode.
        done.
    + split_and!.
      * left. by rewrite Hr.
      * split; [|intros _; by rewrite Hr].
        intros _. exists tk, msg, br. done.
      * intros e ->. destruct Hyes as (ex & ? & ? & ? & ? & _). done.
  - intros tk -> -> Hb Hw. subst r. unfold Git.commitChangesIfAny.
    unfold c_catch, c_bind, c_await, c_call, c_ret. simpl. rewrite Hb. simpl.
    fold (resolved tk). rewrite Hw. simpl.
    set (gm := gitManager (default "" (resolved tk))).
    destruct (Git.gm_hasChanges gm) as [[|]|e]; simpl; try done.
    by destruct (Git.gm_commitChangesIfAny gm).
Qed.

Ltac pr_no :=
  simpl; split_and!; [done|by left|];
  intros o; split; [intros H; by apply elem_of_nil in H|];
  intros (auto' & tk' & c' & ? & ? & Hc & ? & ? & ? & ? & ?);
  try (destruct Hc as [?|[? ?]]); simplify_eq; congruence.

(** X12. [createPRIfUserEnabled] never rejects and asks the proposal
    manager at most once.  It asks exactly when the task is found and the
    user has not switched automatic proposals off (no settings count as
    on), a context is given or the task has one, the task of the second
    lookup exists with a shadow branch, a workspace path is given or the
    task has one, and a message identifier is given; the request names the
    branch, the resolved path, the message and whether the task is
    COMPLETED.  A rejection of the proposal manager is swallowed. *)
Theorem proposal_requested_iff env taskId workspacePath messageId context :
  let r := PullRequest.createPRIfUserEnabled env taskId workspacePath messageId
             context in
  r.1 = Ok tt ∧
  (r.2 = [] ∨ ∃ o, r.2 = [o]) ∧
  (∀ o, o ∈ r.2 ↔
     ∃ auto tk c,
       PullRequest.findTaskSettings env = Ok (Some auto) ∧
       default true auto = true ∧
       (context = Some c ∨
        context = None ∧ PullRequest.getContextForTask env = Ok (Some c)) ∧
       PullRequest.findTask env = Ok (Some tk) ∧
       present (PullRequest.shadowBranch tk) = true ∧
       present (if present workspacePath then workspacePath
                else PullRequest.task_workspacePath tk) = true ∧
       present messageId = true ∧
       o = {| PullRequest.pr_taskId := taskId;
              PullRequest.pr_shadowBranch :=
                default "" (PullRequest.shadowBranch tk);
              PullRequest.pr_workspacePath :=
                default "" (if present workspacePath then workspacePath
                            else PullRequest.task_workspacePath tk);
              PullRequest.pr_wasTaskCompleted :=
                PullRequest.isCompleted (PullRequest.status tk);
              PullRequest.pr_messageId := default "" messageId;
              PullRequest.pr_context := c |}).
Proof.
  intros r. subst r.
  unfold PullRequest.createPRIfUserEnabled, PullRequest.createPRIfNeeded,
    PullRequest._createPRIfNeededInternal.
  unfold c_catch, c_bind, c_await, c_call, c_ret.
  destruct (PullRequest.findTaskSettings env) as [[auto|]|e] eqn:Es; [|pr_no..].
  simpl. destruct (default true auto) eqn:Ea; [|pr_no].
  destruct context as [c|]; simpl.
  - destruct (PullRequest.findTask env) as [[tk|]|e] eqn:Et; [|pr_no..].
    simpl.
    destruct (present (PullRequest.shadowBranch tk)) eqn:Eb; [|pr_no].
    simpl. destruct (present (if present workspacePath then _ else _)) eqn:Ew;
      [|pr_no].
    simpl. destruct (present messageId) eqn:Em; [|pr_no].
    simpl. split_and!.
    + by destruct (PullRequest.prManager env _) as [[]|?].
    + right. destruct (PullRequest.prManager env _) as [[]|?]; simpl; eauto.
    + intros o.
      destruct (PullRequest.prManager env _) as [[]|?]; simpl;
        rewrite list_elem_of_singleton; (split;
          [intros ->; exists auto, tk, c; split_and!; eauto
          |intros (auto' & tk' & c' & ? & ? & Hc & ? & ? & ? & ? & ->);
           destruct Hc as [?|[? ?]]; simplify_eq; congruence]).
  - destruct (PullRequest.getContextForTask env) as [[c|]|e] eqn:Ec; [|pr_no..].
    simpl.
    destruct (PullRequest.findTask env) as [[tk|]|e] eqn:Et; [|pr_no..].
    simpl.
    destruct (present (PullRequest.shadowBranch tk)) eqn:Eb; [|pr_no].
    simpl. destruct (present (if present workspacePath then _ else _)) eqn:Ew;
      [|pr_no].
    simpl. destruct (present messageId) eqn:Em; [|pr_no].
    simpl. split_and!.
    + by destruct (PullRequest.prManager env _) as [[]|?].
    + right. destruct (PullRequest.prManager env _) as [[]|?]; simpl; eauto.
    + intros o.
      destruct (PullRequest.prManager env _) as [[]|?]; simpl;
        rewrite list_elem_of_singleton; (split;
          [intros ->; exists auto, tk, c; split_and!; eauto
          |intros (auto' & tk' & c' & ? & ? & Hc & ? & ? & ? & ? & ->);
           destruct Hc as [?|[? ?]]; simplify_eq; congruence]).
Qed.

(** X13. After a change of the current task that is not the first render,
    the sidebar shows the agent view of the task that is selected, and the
    list of tasks under the header "Tasks" when none is; the first run of the
    effect keeps the view it finds.  Without a selected task the list of
    tasks is shown whatever the view is, and the codebase view is shown only
    for a selected task. *)
Theorem sidebar_follows_current_task currentTaskId s :
  let s1 := Sidebar.onTaskChange currentTaskId s in
  Sidebar.isInitialRender s1 = false ∧
  (Sidebar.isInitialRender s = true → Sidebar.sidebarView s1 = Sidebar.sidebarView s) ∧
  (Sidebar.isInitialRender s = false →
   Sidebar.render currentTaskId (Sidebar.sidebarView s1) =
     if present currentTaskId then
       {| Sidebar.header := Some "Agent Environment";
          Sidebar.body := Sidebar.SidebarAgentView (default "" currentTaskId) |}
     else
       {| Sidebar.header := Some "Tasks"; Sidebar.body := Sidebar.SidebarTasksView |}) ∧
  (∀ view, present currentTaskId = false →
     Sidebar.body (Sidebar.render currentTaskId view) = Sidebar.SidebarTasksView) ∧
  (∀ view id, Sidebar.body (Sidebar.render currentTaskId view) =
                Sidebar.SidebarCodebaseView id →
     present currentTaskId = true ∧ view = Sidebar.codebase ∧
     currentTaskId = Some id ∧
     Sidebar.header (Sidebar.render currentTaskId view) = None).
Proof.
  intros s1. subst s1. unfold Sidebar.onTaskChange, Sidebar.render.
  split_and!.
  - destruct (Sidebar.isInitialRender s); [done|].
    by destruct (present currentTaskId).
  - by intros ->.
  - intros ->. destruct (present currentTaskId) eqn:E; simpl; rewrite ?E; done.
  - intros view ->. by destruct view.
  - intros view id.
    destruct currentTaskId as [c|]; simpl; [|by destruct view].
    destruct (truthy c), view; simpl; try done. by intros [= ->].
Qed.

(** * Stacked tasks *)

Lemma nextSequenceOf_ext t (A B : gmap nat ChatMessage) :
  (∀ x, x ∈ taskSequences t A ↔ x ∈ taskSequences t B) →
  nextSequenceOf t A = nextSequenceOf t B.
Proof.
  intros Hext. unfold nextSequenceOf, lastSequence.
  pose proof (foldr_max_spec (taskSequences t A)) as HA.
  pose proof (foldr_max_spec (taskSequences t B)) as HB.
  destruct (foldr _ None (taskSequences t A)) as [a|],
           (foldr _ None (taskSequences t B)) as [b|].
  - destruct HA as [HaA HallA], HB as [HbB HallB].
    rewrite Forall_forall in HallA, HallB.
    pose proof (HallB a (proj1 (Hext a) HaA)).
    pose proof (HallA b (proj2 (Hext b) HbB)).
    by replace b with a by lia.
  - destruct HA as [HaA _]. apply Hext in HaA. rewrite HB in HaA.
    by apply elem_of_nil in HaA.
  - destruct HB as [HbB _]. apply Hext in HbB. rewrite HA in HbB.
    by apply elem_of_nil in HbB.
  - done.
Qed.

(** A row of another task under an unused identifier does not move the next
    number of the task. *)
Lemma nextSequenceOf_insert_other t rows i row :
  rows !! i = None → taskId row ≠ t →
  nextSequenceOf t (<[i := row]> rows) = nextSequenceOf t rows.
Proof.
  intros Hi Ht. apply nextSequenceOf_ext. intros x.
  rewrite !elem_of_taskSequences. split.
  - intros (k & r & Hk & Hr & Hx). destruct (decide (k = i)) as [->|Hne].
    + rewrite lookup_insert_eq in Hk. by injection Hk as <-.
    + rewrite lookup_insert_ne in Hk by done. eauto.
  - intros (k & r & Hk & Hr & Hx). exists k, r. split; [|done].
    rewrite lookup_insert_ne; [done|]. intros <-. congruence.
Qed.

(** X26. [_createStackedTaskInternal] rejects before it writes anything when
    the parent task is not found, belongs to another user, or when the
    lookup or the preparation of the new task rejects: no task and no
    message is created.  [createStackedPR], which calls it at once for a
    parent task without an active stream, then swallows the rejection and
    leaves the state as it was. *)
Theorem stacked_task_rejects_before_writing
    env parentTaskId message model userId queue socket w :
  Stacked.findParent env = Ok None ∨
  (∃ other, Stacked.findParent env = Ok (Some other) ∧ other ≠ userId) ∨
  (∃ e, Stacked.findParent env = Throw e) ∨
  (∃ e, Stacked.prepare env = Throw e) →
  (∃ e, Stacked._createStackedTaskInternal env parentTaskId message model userId w =
        (Throw e, w, [])) ∧
  (activeStreams w !! parentTaskId = None ∨ queue = false →
   createStackedPR (Stacked._createStackedTaskInternal env) parentTaskId message
     model userId queue socket w = (Ok tt, w, [])).
Proof.
  intros Hbad.
  assert (∃ e, Stacked._createStackedTaskInternal env parentTaskId message model
                 userId w = (Throw e, w, [])) as [e He].
  { unfold Stacked._createStackedTaskInternal, await.
    unfold bind, ret, throw.
    destruct (Stacked.findParent env) as [[p|]|e0] eqn:Ef; [|by eexists..].
    destruct (decide (p = userId)) as [->|Hne].
    - rewrite bool_decide_eq_true_2 by done. simpl.
      destruct (Stacked.prepare env) as [[]|e1] eqn:Ep; [|by eexists].
      exfalso. destruct Hbad as [?|[(o & ? & ?)|[(? & ?)|(? & ?)]]];
        simplify_eq.
    - rewrite bool_decide_eq_false_2 by done. simpl. by eexists. }
  split; [by exists e|].
  intros Hnow. unfold createStackedPR. unfold bind, gets, try_catch, ret.
  assert (bool_decide (is_Some (activeStreams w !! parentTaskId)) && queue = false)
    as ->.
  { destruct Hnow as [Hn| ->]; [|apply andb_false_r].
    rewrite bool_decide_eq_false_2; [done|]. rewrite Hn. by intros [? ?]. }
  by rewrite He.
Qed.

(** X27. For a parent task of the requesting user, and when the calls to
    the store return, [_createStackedTaskInternal] creates two messages with
    the text of the request: the first message of the new task, under
    sequence 1, and a user message of the parent task that refers to the new
    task and takes the next number of the parent, above every message the
    parent has (for stored sequences of the parent on which the addition is
    exact).  A rejection of the initialisation is swallowed: the call
    returns and the request is announced for the parent task.  The new task
    is RUNNING then exactly when the initialisation got as far as recording
    it, that is, when the engine was constructed and the update of the status
    returned; otherwise it is left INITIALIZING. *)
Theorem stacked_task_creates_both_messages env parentTaskId message model userId w :
  Stacked.findParent env = Ok (Some userId) →
  Stacked.prepare env = Ok tt →
  Stacked.newTaskId env ≠ parentTaskId →
  chatMessage w !! nextMessageId w = None →
  safeSequences parentTaskId 1 (chatMessage w) →
  let r := Stacked._createStackedTaskInternal env parentTaskId message model userId w in
  let first := Stacked.firstMessage env message model in
  let parent :=
    Stacked.parentMessage env parentTaskId message model
      (nextSequenceOf parentTaskId (chatMessage w)) in
  let recorded :=
    match Stacked.newEngine env, Stacked.statusUpdate env with
    | Ok _, Ok _ => true
    | _, _ => false
    end in
  result r = Ok tt ∧
  chatMessage (world r) =
    <[S (nextMessageId w) := parent]> (<[nextMessageId w := first]> (chatMessage w)) ∧
  (∀ k row, chatMessage w !! k = Some row → taskId row = parentTaskId →
            sequence row < sequence parent) ∧
  - 2 ^ 53 < sequence parent ≤ 2 ^ 53 ∧
  stackedTaskId parent = Some (Stacked.newTaskId env) ∧
  taskStatus (world r) !! Stacked.newTaskId env =
    Some (if recorded then RUNNING else INITIALIZING) ∧
  events r =
    [EMessageCreate (nextMessageId w) first;
     EMessageCreate (S (nextMessageId w)) parent] ++
    (if recorded then [EUpdateTaskStatus (Stacked.newTaskId env) RUNNING] else []) ++
    [EQueuedActionProcessing parentTaskId message model].
Proof.
  intros Hp Hprep Hne Hfresh Hsafe r first parent recorded. subst r recorded.
  destruct (nextSequenceOf_safe _ _ _ Hsafe) as [Hlo Hhi].
  assert (nextSequenceOf parentTaskId (<[nextMessageId w := first]> (chatMessage w)) =
          nextSequenceOf parentTaskId (chatMessage w)) as Hseq.
  { by apply nextSequenceOf_insert_other. }
  unfold Stacked._createStackedTaskInternal, Stacked.initializeStackedTask, await,
    getNextSequence, chatMessage_create, updateTaskStatus.
  rewrite Hp, Hprep.
  unfold bind, ret, throw, gets, modify, emit, try_catch. simpl.
  rewrite bool_decide_eq_true_2 by done. simpl.
  fold first. rewrite Hseq. fold parent.
  destruct (Stacked.newEngine env) as [[]|e0]; simpl;
    [destruct (Stacked.statusUpdate env) as [[]|e1]; simpl;
     [destruct (Stacked.parentContext env) as [[c|]|e]; simpl;
      [destruct (Stacked.createContext env) as [[]|e]; simpl| |]|]|];
    unfold result, world, events; simpl;
    (split_and!; [done|done|
       intros k row Hk Ht; by eapply nextSequenceOf_above|simpl; lia|simpl; lia|
       done|apply lookup_insert_eq|done]).
Qed.

(** * Instances *)

Lemma parts_follow_arrival_and_finalization_witness :
  pendingUpdates emptyWorld !! "t" = None ∧
  ("t" ∉ stopRequested emptyWorld) ∧
  ∃ final,
    result (streamTurnBody false neverFails noCommit "t" sampleContext None
              sampleStream emptyWorld) = Ok final ∧
    assistantParts final = finalParts sampleStream ∧
    (∀ s, s ∈ snapshots (events (streamTurnBody false neverFails noCommit "t"
                                   sampleContext None sampleStream emptyWorld)) →
          s `prefix_of` assistantParts final) ∧
    (∀ chunks1 chunks2, sampleStream = chunks1 ++ chunks2 →
       ∃ turn1, result (reduceStream false neverFails "t" sampleContext chunks1
                          initialTurn emptyWorld) = Ok turn1 ∧
                assistantParts turn1 = (arrivalParts [] "" (consumed chunks1)).1 ∧
                assistantParts turn1 `prefix_of` assistantParts final).
Proof.
  split; [reflexivity|]. split; [apply not_elem_of_empty|].
  apply (parts_follow_arrival_and_finalization false neverFails noCommit "t"
           sampleContext None sampleStream emptyWorld).
  - reflexivity.
  - apply not_elem_of_empty.
Defined.

(** The claim C2 as stated fails: the part of a reasoning block is appended
    when its signature arrives, or at the end of the turn when none does, so
    it stands behind the parts of the events that arrived after the reasoning
    events. *)
Lemma reasoning_part_follows_later_text_counterexample :
  (∃ final,
     result (streamTurnBody false neverFails noCommit "t" sampleContext None
               [reasoning_chunk "r"; content_chunk "a"] emptyWorld) = Ok final ∧
     assistantParts final = [TextPart "a"; ReasoningPart "r" None]) ∧
  (∃ final,
     result (streamTurnBody false neverFails noCommit "t" sampleContext None
               [reasoning_chunk "r"; content_chunk "a";
                reasoning_signature_chunk "s"] emptyWorld) = Ok final ∧
     assistantParts final = [TextPart "a"; ReasoningPart "r" (Some "s")]).
Proof. split; eexists; split; vm_compute; reflexivity. Qed.

Lemma error_event_fails_turn_witness :
  ("t" ∉ stopRequested queuedWorld) ∧
  Forall (λ c, isError c = false) [content_chunk "a"] ∧
  let r := streamTurn false neverFails noCommit noQueuedMessage noStackedTask
             "t" sampleContext None
             ([content_chunk "a"] ++
              error_chunk (Some "rate limit") None :: [content_chunk "late"])
             queuedWorld in
  result r = Ok tt ∧
  taskStatus (world r) !! "t" = Some FAILED ∧
  queuedActions (world r) !! "t" = None ∧
  dispatched (events r) = [] ∧
  (Forall (λ c, createsRow c = false) [content_chunk "a"] →
   immediateWrites (events r) = []) ∧
  (Exists (λ c, createsRow c = true) [content_chunk "a"] →
   Forall (λ c, isUsage c = false) [content_chunk "a"] →
   length (immediateWrites (events r)) = 1%nat).
Proof.
  split; [apply not_elem_of_empty|].
  split; [repeat constructor|].
  apply (error_event_fails_turn false neverFails noCommit noQueuedMessage
           noStackedTask "t" sampleContext None [content_chunk "a"]
           (Some "rate limit") None [content_chunk "late"] queuedWorld).
  - apply not_elem_of_empty.
  - repeat constructor.
Defined.



Lemma two_text_events_persisted_witness :
  ("t" ∉ stopRequested emptyWorld) ∧
  queuedActions emptyWorld !! "t" = None ∧
  let r := streamTurn false neverFails noCommit noQueuedMessage noStackedTask
             "t" sampleContext None
             [content_chunk "a"; content_chunk "b"; usage_chunk sampleUsage]
             emptyWorld in
  result r = Ok tt ∧
  ∃ row,
    chatMessage (world r) !! nextMessageId emptyWorld = Some row ∧
    taskId row = "t" ∧ role row = ASSISTANT ∧
    content row = "ab" ∧
    metadata row =
      Some {| isStreaming := false; parts := [TextPart "a"; TextPart "b"];
              usage := Some sampleUsage; md_finishReason := None |}.
Proof.
  split; [apply not_elem_of_empty|].
  split; [reflexivity|].
  apply (two_text_events_persisted false neverFails noCommit noQueuedMessage
           noStackedTask "t" sampleContext None sampleUsage emptyWorld).
  - apply not_elem_of_empty.
  - reflexivity.
Defined.

Lemma unsigned_reasoning_finalized_at_end_witness :
  ("t" ∉ stopRequested emptyWorld) ∧
  Forall (λ c, isError c = false)
    ([reasoning_chunk "x"; reasoning_signature_chunk "s"] ++
     [reasoning_chunk "r1"; content_chunk "a"; reasoning_chunk "r2"]) ∧
  (@nil StreamChunk = [] ∨
   (∃ err fr post, @nil StreamChunk = error_chunk err fr :: post)) ∧
  ([reasoning_chunk "x"; reasoning_signature_chunk "s"] = [] ∨
   (∃ pre' c, [reasoning_chunk "x"; reasoning_signature_chunk "s"] = pre' ++ [c] ∧
              isSignature c = true)) ∧
  Forall (λ c, isSignature c = false)
    [reasoning_chunk "r1"; content_chunk "a"; reasoning_chunk "r2"] ∧
  Exists (λ c, truthy (reasoningText c) = true)
    [reasoning_chunk "r1"; content_chunk "a"; reasoning_chunk "r2"] ∧
  ∃ final ps,
    result (streamTurnBody false neverFails noCommit "t" sampleContext None
              (([reasoning_chunk "x"; reasoning_signature_chunk "s"] ++
                [reasoning_chunk "r1"; content_chunk "a"; reasoning_chunk "r2"]) ++ [])
              emptyWorld) = Ok final ∧
    assistantParts final =
      ps ++ [ReasoningPart
               (join (reasoningText <$>
                        [reasoning_chunk "r1"; content_chunk "a"; reasoning_chunk "r2"]))
               None] ∧
    Forall (λ p, isUnsignedReasoning p = false) ps.
Proof.
  assert (Hstop : "t" ∉ stopRequested emptyWorld) by apply not_elem_of_empty.
  assert (Hne : Forall (λ c, isError c = false)
                  ([reasoning_chunk "x"; reasoning_signature_chunk "s"] ++
                   [reasoning_chunk "r1"; content_chunk "a"; reasoning_chunk "r2"]))
    by (repeat constructor).
  assert (Hrest : @nil StreamChunk = [] ∨
                  (∃ err fr post, @nil StreamChunk = error_chunk err fr :: post))
    by (left; reflexivity).
  assert (Hpre : [reasoning_chunk "x"; reasoning_signature_chunk "s"] = [] ∨
                 (∃ pre' c, [reasoning_chunk "x"; reasoning_signature_chunk "s"] =
                              pre' ++ [c] ∧ isSignature c = true)).
  { right. exists [reasoning_chunk "x"], (reasoning_signature_chunk "s").
    split; reflexivity. }
  assert (Htail : Forall (λ c, isSignature c = false)
                    [reasoning_chunk "r1"; content_chunk "a"; reasoning_chunk "r2"])
    by (repeat constructor).
  assert (Hex : Exists (λ c, truthy (reasoningText c) = true)
                  [reasoning_chunk "r1"; content_chunk "a"; reasoning_chunk "r2"])
    by (left; reflexivity).
  split; [exact Hstop|]. split; [exact Hne|]. split; [exact Hrest|].
  split; [exact Hpre|]. split; [exact Htail|]. split; [exact Hex|].
  exact (unsigned_reasoning_finalized_at_end false neverFails noCommit "t"
           sampleContext None _ _ _ emptyWorld Hstop Hne Hrest Hpre Htail Hex).
Defined.

Lemma edit_deletes_exactly_later_messages_witness :
  chatMessage historyWorld !! 1%nat = Some (sampleRow "t" 2 ASSISTANT "hello") ∧
  let w' := world (editStore neverFails "t" 1%nat "hello again" "model"
                     historyWorld) in
  result (editStore neverFails "t" 1%nat "hello again" "model" historyWorld) = Ok tt ∧
  (∀ k row, chatMessage historyWorld !! k = Some row →
            taskId row = "t" →
            sequence (sampleRow "t" 2 ASSISTANT "hello") < sequence row →
            chatMessage w' !! k = None) ∧
  (∀ k row, chatMessage historyWorld !! k = Some row →
            ¬ (taskId row = "t" ∧
               sequence (sampleRow "t" 2 ASSISTANT "hello") < sequence row) →
            ∃ row', chatMessage w' !! k = Some row' ∧
                    taskId row' = taskId row ∧ sequence row' = sequence row) ∧
  (∀ k, is_Some (chatMessage w' !! k) → is_Some (chatMessage historyWorld !! k)).
Proof.
  split; [reflexivity|].
  apply (edit_deletes_exactly_later_messages neverFails "t" 1%nat "hello again"
           "model" historyWorld (sampleRow "t" 2 ASSISTANT "hello")).
  reflexivity.
Defined.

(** The claim C3 as stated fails: an error that arrives before any row was
    created leads to no immediate write, and an error that arrives after
    usage was observed leads to two. *)
Lemma error_event_write_count_counterexample :
  (let r := streamTurn false neverFails noCommit noQueuedMessage noStackedTask
              "t" sampleContext None
              [error_chunk (Some "Too Many Requests") None] queuedWorld in
   length (immediateWrites (events r)) = 0%nat) ∧
  (let r := streamTurn false neverFails noCommit noQueuedMessage noStackedTask
              "t" sampleContext None
              [content_chunk "a"; usage_chunk sampleUsage;
               error_chunk (Some "Too Many Requests") None] queuedWorld in
   length (immediateWrites (events r)) = 2%nat).
Proof. split; vm_compute; reflexivity. Qed.

(** The claim C6 as stated fails: a reasoning event whose text is empty opens
    no block, and the turn ends without any reasoning part. *)
Lemma empty_reasoning_counterexample :
  ∃ final,
    result (streamTurnBody false neverFails noCommit "t" sampleContext None
              [reasoning_chunk ""] emptyWorld) = Ok final ∧
    filter (λ p, isReasoningPart p = true) (assistantParts final) = [].
Proof. eexists. split; vm_compute; reflexivity. Qed.

(** A hand-over that rejects: the rejection is swallowed and the slot stays
    empty. *)
Example rejected_queued_action_is_dropped :
  let r := processQueuedActions rejectingQueuedMessage noStackedTask "t"
             queuedWorld in
  result r = Ok tt ∧ queuedActions (world r) !! "t" = None ∧
  filter (λ e, isDispatch e = true) (events r) =
    [EQueuedActionProcessing "t" "next" "model";
     EProcessQueuedMessage "t" sampleAction].
Proof. vm_compute. repeat split; reflexivity. Qed.

(** The rewriting of a rate-limit error, and the part it ends in. *)
Example rate_limit_error_part :
  ∃ final,
    result (streamTurnBody false neverFails noCommit "t" sampleContext None
              [error_chunk (Some "429 Too Many Requests") None] emptyWorld) =
      Ok final ∧
    assistantParts final =
      [ErrorPart "The model is currently experiencing high demand. Please try again in a few moments or switch to a different model."
         None] ∧
    finishReason final = Some "error".
Proof. eexists. split; [|split]; vm_compute; reflexivity. Qed.

(** Fused allocations interleaved with a standalone one that inserts at
    once. *)
Example serial_allocations :
  allocatedSequences
    (runAllocations "t" emptyWorld
       [FusedCreate 1; FusedCreate 2; StandaloneRead 3; StandaloneInsert 3;
        FusedCreate 1]) = [1; 2; 3; 4].
Proof. reflexivity. Qed.

Lemma serial_fused_allocations_are_consecutive_witness :
  Forall (λ c, isFused c = true) [FusedCreate 1; FusedCreate 2; FusedCreate 1] ∧
  safeSequences "t" (length [FusedCreate 1; FusedCreate 2; FusedCreate 1])
    (chatMessage historyWorld) ∧
  allocatedSequences
    (runAllocations "t" historyWorld
       [FusedCreate 1; FusedCreate 2; FusedCreate 1]) =
    seqZ (nextSequenceOf "t" (chatMessage historyWorld))
      (Z.of_nat (length [FusedCreate 1; FusedCreate 2; FusedCreate 1])) ∧
  Forall (λ s, - 2 ^ 53 < s ≤ 2 ^ 53)
    (allocatedSequences
       (runAllocations "t" historyWorld
          [FusedCreate 1; FusedCreate 2; FusedCreate 1])).
Proof.
  assert (Hsafe : ∀ n, (n ≤ 10)%nat → safeSequences "t" n (chatMessage historyWorld)).
  { intros n Hn. unfold safeSequences.
    split; [simpl; lia|].
    replace (taskSequences "t" (chatMessage historyWorld)) with [3; 2; 1]
      by (vm_compute; reflexivity).
    repeat constructor; lia. }
  split; [repeat constructor|]. split; [apply Hsafe; simpl; lia|].
  apply (serial_fused_allocations_are_consecutive "t" historyWorld
           [FusedCreate 1; FusedCreate 2; FusedCreate 1]).
  - repeat constructor.
  - apply Hsafe. simpl. lia.
Defined.

Lemma successive_saves_are_consecutive_witness :
  safeSequences "t" 2 (chatMessage historyWorld) ∧
  ∃ id1 row1 id2 row2,
    result (saveUserMessage "t" "more" "model" None historyWorld) = Ok (id1, row1) ∧
    result (saveAssistantMessage "t" "sure" "model" None None
              (world (saveUserMessage "t" "more" "model" None historyWorld))) =
      Ok (id2, row2) ∧
    sequence row2 = sequence row1 + 1 ∧
    - 2 ^ 53 < sequence row1 ∧ sequence row2 ≤ 2 ^ 53 ∧
    (∀ k r, chatMessage historyWorld !! k = Some r → taskId r = "t" →
            sequence r < sequence row1) ∧
    ((∀ k r, chatMessage historyWorld !! k = Some r → taskId r ≠ "t") →
     sequence row1 = 1) ∧
    role row1 = USER ∧ role row2 = ASSISTANT ∧
    content row1 = "more" ∧ content row2 = "sure".
Proof.
  assert (Hsafe : safeSequences "t" 2 (chatMessage historyWorld)).
  { unfold safeSequences.
    split; [simpl; lia|].
    replace (taskSequences "t" (chatMessage historyWorld)) with [3; 2; 1]
      by (vm_compute; reflexivity).
    repeat constructor; lia. }
  split; [exact Hsafe|].
  exact (successive_saves_are_consecutive "t" "more" "model" None "sure" "model"
           None historyWorld Hsafe).
Defined.

Lemma error_part_is_never_empty_witness :
  TurnInv initialTurn emptyWorld ∧
  ∃ turn' w' evs message reason,
    reduceChunk false neverFails "t" sampleContext (error_chunk None None)
      initialTurn emptyWorld = (Ok (turn', true), w', evs) ∧
    assistantParts turn' = assistantParts initialTurn ++ [ErrorPart message None] ∧
    truthy message = true ∧
    finishReason turn' = Some reason ∧ truthy reason = true ∧
    hasError turn' = true ∧
    (@None string = None → message = "Unknown error occurred") ∧
    (@None string = None → reason = "error").
Proof.
  split; [apply TurnInv_initial|].
  apply (error_part_is_never_empty false neverFails "t" sampleContext None None
           initialTurn emptyWorld).
  apply TurnInv_initial.
Defined.

Lemma queued_message_is_shown_witness :
  activeStreams streamingWorld !! "t" = Some 0%nat ∧
  let queued m x :=
    world (_processUserMessageInternal false neverFails noCommit noQueuedMessage
             noStackedTask inactiveWorkspace neverFails "t" m x false None true
             nothingMeanwhile [] sampleStream streamingWorld) in
  getQueuedAction "t" (queued "later" sampleContext) =
    (if truthy (mainModel sampleContext) then
       Some {| ui_type := "message"; ui_message := "later";
               ui_model := mainModel sampleContext |}
     else None) ∧
  is_Some (queuedActions (queued "later" sampleContext) !! "t") ∧
  (∀ t', t' ≠ "t" →
     getQueuedAction t' (queued "later" sampleContext) =
     getQueuedAction t' streamingWorld) ∧
  (∀ m2 ctx2,
     world (_processUserMessageInternal false neverFails noCommit noQueuedMessage
              noStackedTask inactiveWorkspace neverFails "t" m2 ctx2 false None
              true nothingMeanwhile [] sampleStream
              (queued "later" sampleContext)) = queued m2 ctx2) ∧
  getQueuedAction "t" (world (clearQueuedAction "t" (queued "later" sampleContext))) =
    None.
Proof.
  split; [reflexivity|].
  apply (queued_message_is_shown false neverFails noCommit noQueuedMessage
           noStackedTask inactiveWorkspace neverFails "t" "later" sampleContext
           None false nothingMeanwhile [] sampleStream streamingWorld 0%nat).
  reflexivity.
Defined.

Lemma queue_flag_is_ignored_when_idle_witness :
  activeStreams queuedWorld !! "t" = None ∧
  let w1 := world (handleFollowUpLogic inactiveWorkspace neverFails "t" queuedWorld) in
  result (handleFollowUpLogic inactiveWorkspace neverFails "t" queuedWorld) = Ok tt ∧
  w1 = match inactiveWorkspace "t" with
       | Ok (Some task) =>
           if initStatusInactive task &&
              negb (hasScheduledCleanup task && neverFails "t")
           then set_taskStatus (insert "t" INITIALIZING) queuedWorld
           else queuedWorld
       | _ => queuedWorld
       end ∧
  interruptOrQueue neverFails "t" "hi" sampleContext None true nothingMeanwhile w1 =
    (Ok Proceed, w1, []) ∧
  _processUserMessageInternal false neverFails noCommit noQueuedMessage
    noStackedTask inactiveWorkspace neverFails "t" "hi" sampleContext false None
    true nothingMeanwhile [] sampleStream queuedWorld =
  (result (beginTurn false neverFails noCommit noQueuedMessage noStackedTask "t"
             "hi" sampleContext false None [] sampleStream w1),
   world (beginTurn false neverFails noCommit noQueuedMessage noStackedTask "t"
            "hi" sampleContext false None [] sampleStream w1),
   events (handleFollowUpLogic inactiveWorkspace neverFails "t" queuedWorld) ++
   events (beginTurn false neverFails noCommit noQueuedMessage noStackedTask "t"
             "hi" sampleContext false None [] sampleStream w1)).
Proof.
  split; [reflexivity|].
  apply (queue_flag_is_ignored_when_idle false neverFails noCommit noQueuedMessage
           noStackedTask inactiveWorkspace neverFails "t" "hi" sampleContext false
           None [] sampleStream true nothingMeanwhile queuedWorld).
  reflexivity.
Defined.

Lemma edit_of_missing_message_rejects_witness :
  chatMessage historyWorld !! 9%nat = None ∧
  let r := editUserMessage false neverFails noCommit noQueuedMessage noStackedTask
             activeWorkspace neverFails
             "t" 9%nat "new" "model" sampleContext None [] sampleStream
             historyWorld in
  result r = Throw "Record to update not found" ∧
  sameShape (chatMessage historyWorld) (chatMessage (world r)) ∧
  queuedActions (world r) !! "t" = None ∧
  activeStreams (world r) !! "t" = None ∧
  (∀ c, activeStreams historyWorld !! "t" = Some c →
        c ∈ aborted (world r) ∧ taskStatus (world r) !! "t" = Some STOPPED) ∧
  Forall (λ e, e ≠ EStartStream "t" ∧ ∀ s, e ≠ EMessageDeleteMany "t" s) (events r).
Proof.
  split; [reflexivity|].
  apply (edit_of_missing_message_rejects false neverFails noCommit noQueuedMessage
           noStackedTask activeWorkspace neverFails "t" 9%nat "new" "model" sampleContext None [] sampleStream
           historyWorld).
  reflexivity.
Defined.

Lemma edit_rewrites_the_row_in_place_witness :
  chatMessage historyWorld !! 0%nat = Some (sampleRow "t" 1 USER "hi") ∧
  let r := editStore neverFails "t" 0%nat "hi there" "other" historyWorld in
  ∃ row evs,
    result r = Ok tt ∧
    chatMessage (world r) !! 0%nat = Some row ∧
    content row = "hi there" ∧ llmModel row = "other" ∧
    editedAt row = Some (clock historyWorld) ∧
    taskId row = taskId (sampleRow "t" 1 USER "hi") ∧
    sequence row = sequence (sampleRow "t" 1 USER "hi") ∧
    role row = role (sampleRow "t" 1 USER "hi") ∧
    events r =
      evs ++ [ERestoreCheckpoint "t" 0%nat;
              EMessageDeleteMany "t" (sequence (sampleRow "t" 1 USER "hi"))] ∧
    Forall (λ e, ∀ s, e ≠ EMessageDeleteMany "t" s) evs ∧
    queuedActions (world r) !! "t" = None.
Proof.
  split; [reflexivity|].
  apply (edit_rewrites_the_row_in_place neverFails "t" 0%nat "hi there" "other"
           historyWorld (sampleRow "t" 1 USER "hi")).
  reflexivity.
Defined.

Lemma final_row_holds_all_text_witness :
  ("t" ∉ stopRequested emptyWorld) ∧
  Forall (λ c, isError c = false) sampleStream ∧
  Exists (λ c, createsRow c = true) sampleStream ∧
  Exists (λ c, isUsage c = true) sampleStream ∧
  let r := streamTurnBody false neverFails noCommit "t" sampleContext None
             sampleStream emptyWorld in
  ∃ final i row u,
    result r = Ok final ∧ assistantMessageId final = Some i ∧
    chatMessage (world r) !! i = Some row ∧
    lastUsage None sampleStream = Some u ∧
    content row = join (contentText <$> sampleStream) ∧
    metadata row =
      Some {| isStreaming := false; parts := assistantParts final;
              usage := Some u; md_finishReason := None |} ∧
    msg_promptTokens row = Some (promptTokens u) ∧
    msg_completionTokens row = Some (completionTokens u) ∧
    msg_totalTokens row = Some (totalTokens u) ∧
    msg_finishReason row = None.
Proof.
  assert (Hstop : "t" ∉ stopRequested emptyWorld) by apply not_elem_of_empty.
  assert (Hne : Forall (λ c, isError c = false) sampleStream)
    by (repeat constructor).
  assert (Hrow : Exists (λ c, createsRow c = true) sampleStream)
    by (left; reflexivity).
  assert (Hus : Exists (λ c, isUsage c = true) sampleStream)
    by (do 6 right; left; reflexivity).
  split; [exact Hstop|]. split; [exact Hne|]. split; [exact Hrow|].
  split; [exact Hus|].
  exact (final_row_holds_all_text false neverFails noCommit "t" sampleContext None
           sampleStream emptyWorld Hstop Hne Hrow Hus).
Defined.

Lemma final_write_needs_row_and_usage_witness :
  ("t" ∉ stopRequested emptyWorld) ∧
  Forall (λ c, isError c = false) [content_chunk "a"; content_chunk "b"] ∧
  length (immediateWrites
            (events (streamTurnBody false neverFails noCommit "t" sampleContext
                       None [content_chunk "a"; content_chunk "b"] emptyWorld))) =
    if decide (Exists (λ c, createsRow c = true)
                 [content_chunk "a"; content_chunk "b"] ∧
               Exists (λ c, isUsage c = true)
                 [content_chunk "a"; content_chunk "b"])
    then 1%nat else 0%nat.
Proof.
  assert (Hstop : "t" ∉ stopRequested emptyWorld) by apply not_elem_of_empty.
  assert (Hne : Forall (λ c, isError c = false)
                  [content_chunk "a"; content_chunk "b"])
    by (repeat constructor).
  split; [exact Hstop|]. split; [exact Hne|].
  exact (final_write_needs_row_and_usage false neverFails noCommit "t"
           sampleContext None [content_chunk "a"; content_chunk "b"] emptyWorld
           Hstop Hne).
Defined.

Lemma turn_writes_only_its_row_witness :
  pendingUpdates historyWorld !! "t" = None ∧
  let r := streamTurnBody false neverFails noCommit "t" sampleContext None
             failingStream historyWorld in
  (∀ k, k ≠ nextMessageId historyWorld →
        chatMessage (world r) !! k = chatMessage historyWorld !! k) ∧
  Forall (targets (nextMessageId historyWorld)) (events r) ∧
  (length (creations (events r)) ≤ 1)%nat ∧
  pendingUpdates (world r) !! "t" = None.
Proof.
  split; [reflexivity|].
  apply (turn_writes_only_its_row false neverFails noCommit "t" sampleContext None
           failingStream historyWorld).
  reflexivity.
Defined.

Lemma rowless_turn_stores_nothing_witness :
  Forall (λ c, createsRow c = false) toolOnlyStream ∧
  let r := streamTurnBody false neverFails alwaysCommits "t" sampleContext None
             toolOnlyStream historyWorld in
  ∃ final,
    result r = Ok final ∧ assistantMessageId final = None ∧
    chatMessage (world r) = chatMessage historyWorld ∧
    pendingUpdates (world r) = pendingUpdates historyWorld ∧
    Forall (λ e, isStoreCall e = false) (events r) ∧
    pipeline (events r) = [].
Proof.
  split; [repeat constructor|].
  apply (rowless_turn_stores_nothing false neverFails alwaysCommits "t"
           sampleContext None toolOnlyStream historyWorld).
  repeat constructor.
Defined.

Lemma turn_after_stop_consumes_nothing_witness :
  ("t" ∈ stopRequested (world (stopStream neverFails "t" emptyWorld))) ∧
  let r := streamTurnBody false neverFails noCommit "t" sampleContext None
             sampleStream (world (stopStream neverFails "t" emptyWorld)) in
  result r = Ok initialTurn ∧
  events r = [EUpdateTaskStatus "t" STOPPED; EScheduleTaskCleanup "t";
              EEndStream "t"; EStopMCPManager "t"] ∧
  taskStatus (world r) !! "t" = Some STOPPED ∧
  ("t" ∉ stopRequested (world r)) ∧ activeStreams (world r) !! "t" = None ∧
  chatMessage (world r) =
    chatMessage (world (stopStream neverFails "t" emptyWorld)) ∧
  pendingUpdates (world r) =
    pendingUpdates (world (stopStream neverFails "t" emptyWorld)).
Proof.
  assert (Hstop : "t" ∈ stopRequested (world (stopStream neverFails "t" emptyWorld))).
  { apply elem_of_union_l. by apply elem_of_singleton. }
  split; [exact Hstop|].
  exact (turn_after_stop_consumes_nothing false neverFails noCommit "t"
           sampleContext None sampleStream _ Hstop).
Defined.

Lemma queued_action_follows_teardown_witness :
  Forall (λ c, isError c = false) sampleStream ∧
  queuedActions queuedWorld !! "t" = Some sampleAction ∧
  let w0 := set_activeStreams (insert "t" (nextController queuedWorld))
              (set_nextController S queuedWorld) in
  let body := streamTurnBody false neverFails noCommit "t" sampleContext None
                sampleStream w0 in
  let W := set_queuedActions (delete "t") (world body) in
  streamTurn false neverFails noCommit noQueuedMessage noStackedTask "t"
    sampleContext None sampleStream queuedWorld =
    (Ok tt, world (dispatchQueuedAction noQueuedMessage noStackedTask "t"
                     sampleAction W),
     EStartStream "t" :: events body ++
     events (dispatchQueuedAction noQueuedMessage noStackedTask "t" sampleAction W)) ∧
  activeStreams W !! "t" = None ∧ ("t" ∉ stopRequested W) ∧
  queuedActions W !! "t" = None ∧
  taskStatus W !! "t" =
    Some (if bool_decide ("t" ∈ stopRequested queuedWorld)
          then STOPPED else COMPLETED) ∧
  dispatched (events body) = [].
Proof.
  assert (Hne : Forall (λ c, isError c = false) sampleStream)
    by (repeat constructor).
  split; [exact Hne|]. split; [reflexivity|].
  apply (queued_action_follows_teardown false neverFails noCommit noQueuedMessage
           noStackedTask "t" sampleContext None sampleStream sampleAction
           queuedWorld Hne).
  reflexivity.
Defined.

Lemma completed_turn_runs_the_pipeline_witness :
  ("t" ∉ stopRequested emptyWorld) ∧
  Forall (λ c, isError c = false) sampleStream ∧
  let r := streamTurnBody false neverFails alwaysCommits "t" sampleContext None
             sampleStream emptyWorld in
  ∃ final,
    result r = Ok final ∧
    taskStatus (world r) !! "t" = Some COMPLETED ∧
    (is_Some (assistantMessageId final) ↔
       Exists (λ c, createsRow c = true) sampleStream) ∧
    pipeline (events r) =
      match alwaysCommits "t" sampleContext None, assistantMessageId final with
      | Ok true, Some i => [ECreatePRIfUserEnabled "t" i; ECreateCheckpoint "t" i]
      | _, _ => []
      end.
Proof.
  assert (Hstop : "t" ∉ stopRequested emptyWorld) by apply not_elem_of_empty.
  assert (Hne : Forall (λ c, isError c = false) sampleStream)
    by (repeat constructor).
  split; [exact Hstop|]. split; [exact Hne|].
  exact (completed_turn_runs_the_pipeline false neverFails alwaysCommits "t"
           sampleContext None sampleStream emptyWorld Hstop Hne).
Defined.

Lemma stray_signature_is_ignored_witness :
  ("t" ∉ stopRequested emptyWorld) ∧
  Forall (λ c, isError c = false)
    [reasoning_chunk "x"; reasoning_signature_chunk "s1"; content_chunk "a"] ∧
  pendingText ""
    [reasoning_chunk "x"; reasoning_signature_chunk "s1"; content_chunk "a"] = "" ∧
  reduceStream false neverFails "t" sampleContext
    ([reasoning_chunk "x"; reasoning_signature_chunk "s1"; content_chunk "a"] ++
     [reasoning_signature_chunk "s2"]) initialTurn emptyWorld =
    (result (reduceStream false neverFails "t" sampleContext
               [reasoning_chunk "x"; reasoning_signature_chunk "s1"; content_chunk "a"]
               initialTurn emptyWorld),
     world (reduceStream false neverFails "t" sampleContext
              [reasoning_chunk "x"; reasoning_signature_chunk "s1"; content_chunk "a"]
              initialTurn emptyWorld),
     events (reduceStream false neverFails "t" sampleContext
               [reasoning_chunk "x"; reasoning_signature_chunk "s1"; content_chunk "a"]
               initialTurn emptyWorld) ++
     [EEmitStreamChunk "t" (reasoning_signature_chunk "s2")]).
Proof.
  assert (Hstop : "t" ∉ stopRequested emptyWorld) by apply not_elem_of_empty.
  assert (Hne : Forall (λ c, isError c = false)
                  [reasoning_chunk "x"; reasoning_signature_chunk "s1";
                   content_chunk "a"])
    by (repeat constructor).
  split; [exact Hstop|]. split; [exact Hne|]. split; [reflexivity|].
  exact (stray_signature_is_ignored false neverFails "t" sampleContext
           [reasoning_chunk "x"; reasoning_signature_chunk "s1"; content_chunk "a"]
           "s2" emptyWorld Hstop Hne eq_refl).
Defined.

Lemma signature_closes_the_open_block_witness :
  ("t" ∉ stopRequested emptyWorld) ∧
  Forall (λ c, isError c = false)
    [reasoning_chunk "r1"; content_chunk "a"; reasoning_chunk "r2"] ∧
  truthy "sig" = true ∧
  truthy (pendingText ""
            [reasoning_chunk "r1"; content_chunk "a"; reasoning_chunk "r2"]) = true ∧
  ∃ turn1 turn2,
    result (reduceStream false neverFails "t" sampleContext
              [reasoning_chunk "r1"; content_chunk "a"; reasoning_chunk "r2"]
              initialTurn emptyWorld) = Ok turn1 ∧
    result (reduceStream false neverFails "t" sampleContext
              ([reasoning_chunk "r1"; content_chunk "a"; reasoning_chunk "r2"] ++
               [reasoning_signature_chunk "sig"]) initialTurn emptyWorld) =
      Ok turn2 ∧
    assistantParts turn2 =
      assistantParts turn1 ++
      [ReasoningPart
         (pendingText ""
            [reasoning_chunk "r1"; content_chunk "a"; reasoning_chunk "r2"])
         (Some "sig")] ∧
    activeReasoningParts turn2 = [] ∧
    reasoningCounter turn2 = S (reasoningCounter turn1) ∧
    ∃ final,
      result (streamTurnBody false neverFails noCommit "t" sampleContext None
                ([reasoning_chunk "r1"; content_chunk "a"; reasoning_chunk "r2"] ++
                 [reasoning_signature_chunk "sig"]) emptyWorld) = Ok final ∧
      assistantParts final = assistantParts turn2.
Proof.
  assert (Hstop : "t" ∉ stopRequested emptyWorld) by apply not_elem_of_empty.
  assert (Hne : Forall (λ c, isError c = false)
                  [reasoning_chunk "r1"; content_chunk "a"; reasoning_chunk "r2"])
    by (repeat constructor).
  split; [exact Hstop|]. split; [exact Hne|]. split; [reflexivity|].
  split; [reflexivity|].
  exact (signature_closes_the_open_block false neverFails noCommit "t"
           sampleContext None
           [reasoning_chunk "r1"; content_chunk "a"; reasoning_chunk "r2"]
           "sig" emptyWorld Hstop Hne eq_refl eq_refl).
Defined.

Lemma turn_rows_are_numbered_in_order_witness :
  queuedActions historyWorld !! "t" = None ∧
  safeSequences "t" (2 + length ["wiki"; "memories"]) (chatMessage historyWorld) ∧
  let r := beginTurn false neverFails noCommit noQueuedMessage noStackedTask "t"
             "next" sampleContext false None ["wiki"; "memories"] sampleStream
             historyWorld in
  let s0 := nextSequenceOf "t" (chatMessage historyWorld) in
  ∃ user system assistant,
    createdRows (events r) = user :: system ++ assistant ∧
    Forall (λ row, taskId row = "t") (user :: system ++ assistant) ∧
    role user = USER ∧ content user = "next" ∧ sequence user = s0 ∧
    Forall (λ row, role row = SYSTEM) system ∧
    content <$> system = ["wiki"; "memories"] ∧
    sequence <$> system = seqZ (s0 + 1) (Z.of_nat (length ["wiki"; "memories"])) ∧
    (length assistant ≤ 1)%nat ∧
    Forall (λ row, role row = ASSISTANT ∧
                   sequence row =
                     s0 + 1 + Z.of_nat (length ["wiki"; "memories"])) assistant ∧
    - 2 ^ 53 < s0 ∧ s0 + 1 + Z.of_nat (length ["wiki"; "memories"]) ≤ 2 ^ 53.
Proof.
  assert (Hsafe : safeSequences "t" (2 + length ["wiki"; "memories"])
                    (chatMessage historyWorld)).
  { unfold safeSequences.
    split; [simpl; lia|].
    replace (taskSequences "t" (chatMessage historyWorld)) with [3; 2; 1]
      by (vm_compute; reflexivity).
    repeat constructor; simpl; lia. }
  split; [reflexivity|]. split; [exact Hsafe|].
  exact (turn_rows_are_numbered_in_order false neverFails noCommit noQueuedMessage
           noStackedTask "t" "next" sampleContext None ["wiki"; "memories"]
           sampleStream historyWorld eq_refl Hsafe).
Defined.

Lemma stacked_task_rejects_before_writing_witness :
  (Stacked.findParent stackedEnv = Ok None ∨
   (∃ other, Stacked.findParent stackedEnv = Ok (Some other) ∧ other ≠ "v") ∨
   (∃ e, Stacked.findParent stackedEnv = Throw e) ∨
   (∃ e, Stacked.prepare stackedEnv = Throw e)) ∧
  (∃ e, Stacked._createStackedTaskInternal stackedEnv "t" "split" "model" "v"
          historyWorld = (Throw e, historyWorld, [])) ∧
  (activeStreams historyWorld !! "t" = None ∨ true = false →
   createStackedPR (Stacked._createStackedTaskInternal stackedEnv) "t" "split"
     "model" "v" true 0%nat historyWorld = (Ok tt, historyWorld, [])).
Proof.
  assert (Hbad : Stacked.findParent stackedEnv = Ok None ∨
                 (∃ other, Stacked.findParent stackedEnv = Ok (Some other) ∧
                           other ≠ "v") ∨
                 (∃ e, Stacked.findParent stackedEnv = Throw e) ∨
                 (∃ e, Stacked.prepare stackedEnv = Throw e)).
  { right. left. exists "u". split; [reflexivity|discriminate]. }
  split; [exact Hbad|].
  exact (stacked_task_rejects_before_writing stackedEnv "t" "split" "model" "v"
           true 0%nat historyWorld Hbad).
Defined.

Lemma stacked_task_creates_both_messages_witness :
  Stacked.findParent stackedEnv = Ok (Some "u") ∧
  Stacked.prepare stackedEnv = Ok tt ∧
  Stacked.newTaskId stackedEnv ≠ "t" ∧
  chatMessage historyWorld !! nextMessageId historyWorld = None ∧
  safeSequences "t" 1 (chatMessage historyWorld) ∧
  let r := Stacked._createStackedTaskInternal stackedEnv "t" "split" "model" "u"
             historyWorld in
  let first := Stacked.firstMessage stackedEnv "split" "model" in
  let parent :=
    Stacked.parentMessage stackedEnv "t" "split" "model"
      (nextSequenceOf "t" (chatMessage historyWorld)) in
  let recorded :=
    match Stacked.newEngine stackedEnv, Stacked.statusUpdate stackedEnv with
    | Ok _, Ok _ => true
    | _, _ => false
    end in
  result r = Ok tt ∧
  chatMessage (world r) =
    <[S (nextMessageId historyWorld) := parent]>
      (<[nextMessageId historyWorld := first]> (chatMessage historyWorld)) ∧
  (∀ k row, chatMessage historyWorld !! k = Some row → taskId row = "t" →
            sequence row < sequence parent) ∧
  - 2 ^ 53 < sequence parent ≤ 2 ^ 53 ∧
  stackedTaskId parent = Some (Stacked.newTaskId stackedEnv) ∧
  taskStatus (world r) !! Stacked.newTaskId stackedEnv =
    Some (if recorded then RUNNING else INITIALIZING) ∧
  events r =
    [EMessageCreate (nextMessageId historyWorld) first;
     EMessageCreate (S (nextMessageId historyWorld)) parent] ++
    (if recorded then [EUpdateTaskStatus (Stacked.newTaskId stackedEnv) RUNNING]
     else []) ++
    [EQueuedActionProcessing "t" "split" "model"].
Proof.
  assert (Hne : Stacked.newTaskId stackedEnv ≠ "t") by discriminate.
  assert (Hsafe : safeSequences "t" 1 (chatMessage historyWorld)).
  { unfold safeSequences.
    split; [simpl; lia|].
    replace (taskSequences "t" (chatMessage historyWorld)) with [3; 2; 1]
      by (vm_compute; reflexivity).
    repeat constructor; lia. }
  split; [reflexivity|]. split; [reflexivity|]. split; [exact Hne|].
  split; [reflexivity|]. split; [exact Hsafe|].
  exact (stacked_task_creates_both_messages stackedEnv "t" "split" "model" "u"
           historyWorld eq_refl eq_refl Hne eq_refl Hsafe).
Defined.
